(** * Bloxorz solver (A* search): shallow embedding of [mycode.py]

    The Python program is embedded function by function.  Python integers
    are [Z]; text rows of the board are [list ascii]; the [dict] returned by
    [successors] is an association list in insertion order (the order of
    iteration of a Python dict); the [set] of expanded states is a list
    queried through [State.__eq__]; the priority queue is the binary heap of
    [heapq] on a list; exceptions are the [Raise] outcome of a small error
    monad.

    Cost guesses are Python floats.  A float is modelled by the rational
    number it stands for, and each operation that yields a float ([/] on
    two integers, [+] on two floats, the conversion of an integer) rounds
    its exact result to the nearest number with a significand of 53 bits,
    ties to even, as IEEE binary64 does.  The range of the exponent is not
    modelled: the OverflowError of [/] and the infinite result of [+] need
    operands beyond 10^308, and the gradual underflow needs results below
    2^-1022, while the cost guesses of the program are 0 or at least 1/3. *)

From Stdlib Require Import ZArith QArith Qpower Qround Qfield Lia ZifyNat Lqa Ascii.
From stdpp Require Import base list strings.

Local Open Scope Z_scope.

(** ** Outcomes of Python code *)

Inductive exn := IndexError | AttributeError | KeyError.

Inductive run (A : Type) : Type :=
  | Done (a : A)
  | Raise (e : exn)
  | OutOfFuel.
Arguments Done {A} a.
Arguments Raise {A} e.
Arguments OutOfFuel {A}.

#[global] Instance run_ret : MRet run := fun A a => Done a.
#[global] Instance run_bind : MBind run := fun A B f m =>
  match m with
  | Done a => f a
  | Raise e => Raise e
  | OutOfFuel => OutOfFuel
  end.

(** Short-circuit [a and b] on computations that may raise. *)
Definition and_then (a b : run bool) : run bool :=
  x ← a; if (x : bool) then b else Done false.
Infix "&&&" := and_then (at level 40, left associativity).

(** ** Python floats *)

Module Float.

(** The exponent of a positive rational: [2 ^ ilog2 q <= q < 2 ^ (ilog2 q + 1)]. *)
Definition ilog2 (q : Q) : Z :=
  let k := Z.log2 (Qnum q) - Z.log2 (Zpos (Qden q)) in
  if Qle_bool (2 ^ k) q then k else k - 1.

(** The integer nearest to [t], the even one of the two when [t] is half
    way between them. *)
Definition rne (t : Q) : Z :=
  let f := Qfloor t in
  match (t - inject_Z f ?= 1 # 2)%Q with
  | Lt => f
  | Gt => f + 1
  | Eq => if Z.even f then f else f + 1
  end.

(** Rounding of a positive rational to 53 significant bits. *)
Definition round_pos (q : Q) : Q :=
  let e := ilog2 q - 52 in
  (inject_Z (rne (q / 2 ^ e)) * 2 ^ e)%Q.

Definition round (q : Q) : Q :=
  match Qnum q with
  | 0 => 0%Q
  | Zpos _ => round_pos q
  | Zneg _ => (- round_pos (- q))%Q
  end.

(** [float(n)], as [+] applies it to an integer operand. *)
Definition of_int (n : Z) : Q := round (inject_Z n).

(** [a / b] on two integers, [b] not zero: the quotient, rounded once. *)
Definition truediv (a b : Z) : Q := round (inject_Z a / inject_Z b).

(** [x + y] on two floats. *)
Definition add (x y : Q) : Q := round (x + y).

End Float.

(** ** The Python builtins the program uses *)

Module Py.

(** [l[i]]: negative indices count from the end, anything else out of
    range raises IndexError. *)
Definition index {A} (l : list A) (i : Z) : run A :=
  let n := Z.of_nat (length l) in
  let j := if decide (i < 0) then n + i else i in
  if decide (0 ≤ j < n) then
    match l !! Z.to_nat j with
    | Some a => Done a
    | None => Raise IndexError
    end
  else Raise IndexError.

(** [len(l)] *)
Definition len {A} (l : list A) : Z := Z.of_nat (length l).

(** [s.find(sub)]: lowest index where [sub] occurs, -1 when it does not. *)
Fixpoint find_from (sub : list ascii) (i : Z) (s : list ascii) : Z :=
  if decide (take (length sub) s = sub) then i
  else match s with
       | [] => -1
       | _ :: r => find_from sub (i + 1) r
       end.
Definition find (s sub : list ascii) : Z := find_from sub 0 s.

(** [s.replace(old, new)] for a non-empty [old]: every non-overlapping
    occurrence, scanning from the left.  [skip] counts the characters of
    an occurrence that was just replaced and is still to be passed. *)
Fixpoint replace_from (old new : list ascii) (skip : nat) (s : list ascii)
  : list ascii :=
  match s with
  | [] => []
  | a :: r =>
      match skip with
      | S k => replace_from old new k r
      | O =>
          if decide (take (length old) s = old)
          then new ++ replace_from old new (length old - 1) r
          else a :: replace_from old new 0 r
      end
  end.
Definition replace (s old new : list ascii) : list ascii :=
  replace_from old new 0 s.

(** A dict as the list of its items in insertion order. *)
Fixpoint dict_get {K V} `{EqDecision K} (d : list (K * V)) (k : K) : run V :=
  match d with
  | [] => Raise KeyError
  | (k', v) :: r => if decide (k' = k) then Done v else dict_get r k
  end.

Fixpoint dict_set {K V} `{EqDecision K} (d : list (K * V)) (k : K) (v : V)
  : list (K * V) :=
  match d with
  | [] => [(k, v)]
  | (k', v') :: r =>
      if decide (k' = k) then (k, v) :: r else (k', v') :: dict_set r k v
  end.

(** [l[i] = v]: assignment to an item, with the index rules of [l[i]]. *)
Definition setitem {A} (l : list A) (i : Z) (v : A) : run (list A) :=
  let n := Z.of_nat (length l) in
  let j := if decide (i < 0) then n + i else i in
  if decide (0 ≤ j < n) then Done (<[Z.to_nat j := v]> l)
  else Raise IndexError.

(** [range(0, n)] *)
Definition range (n : Z) : list Z := seqZ 0 n.

(** A [for] loop that appends one value per turn to a fresh list and stops
    at the first exception. *)
Fixpoint collect {A B} (f : A → run B) (l : list A) : run (list B) :=
  match l with
  | [] => Done []
  | a :: l => b ← f a; r ← collect f l; Done (b :: r)
  end.

(** [c.isspace()] for a character below 256. *)
Definition isspace (c : ascii) : bool :=
  let n := nat_of_ascii c in
  bool_decide (9 ≤ n ≤ 13 ∨ 28 ≤ n ≤ 32 ∨ n = 133 ∨ n = 160)%nat.

(** [s.lstrip()] and [s.strip()] *)
Fixpoint lstrip (s : list ascii) : list ascii :=
  match s with
  | [] => []
  | c :: r => if isspace c then lstrip r else s
  end.

Definition strip (s : list ascii) : list ascii :=
  reverse (lstrip (reverse (lstrip s))).

(** [file.readline()] on what is left of a text file: the text up to and
    including the next newline, and the rest. *)
Fixpoint readline (content : list ascii) : list ascii * list ascii :=
  match content with
  | [] => ([], [])
  | c :: r =>
      if decide (c = "010"%char) then ([c], r)
      else let '(line, rest) := readline r in (c :: line, rest)
  end.

End Py.

(** Text literals of the program. *)
Definition str (s : string) : list ascii := String.list_ascii_of_string s.

(** ** class State *)

Module State.

Record t := mk { x_cor : Z; y_cor : Z; orient : Z }.

(** [__hash__]; [xSize] and [ySize] are the class attributes shared by all
    states, written once by the constructor of [Bloxorz]. *)
Definition hash (xSize ySize : Z) (self : t) : Z :=
  (ySize * xSize * orient self) + (xSize * y_cor self) + x_cor self.

(** [__eq__] *)
Definition eq (xSize ySize : Z) (self other : t) : bool :=
  hash xSize ySize self =? hash xSize ySize other.

End State.

#[global] Instance State_eq_dec : EqDecision State.t.
Proof. solve_decision. Defined.

(** Action labels: the keys 'U', 'D', 'L', 'R' of the successor dict. *)
Inductive Action := U | D | L | R.

#[global] Instance Action_eq_dec : EqDecision Action.
Proof. solve_decision. Defined.

(** ** Printed output *)

(** What one call of [print] writes. *)
Inductive line :=
  | StateLine (st : Z)          (* print("State : ", st) *)
  | Row (row : list ascii)      (* print("".join(print_state[y])) *)
  | ActionLine (action : Action) (* print("Action : ", action) *)
  | Blank                       (* print(" ") *)
  | NoSolution                  (* print("There is no solution ...") *)
  | OptimalMoves (n : Z).       (* print("This optimal solution requires", n, "moves.") *)

(** Code that prints: the lines written so far, and how it ended. *)
Definition io (A : Type) : Type := (list line * run A)%type.

#[global] Instance io_ret : MRet io := fun A a => ([], Done a).
#[global] Instance io_bind : MBind io := fun A B f m =>
  match m.2 with
  | Done a => (m.1 ++ (f a).1, (f a).2)
  | Raise e => (m.1, Raise e)
  | OutOfFuel => (m.1, OutOfFuel)
  end.

Definition print (l : list line) : io unit := (l, Done tt).

(** Code that does not print. *)
Definition silent {A} (m : run A) : io A := ([], m).

(** ** class Node *)

Module Node.

(** [costGuess] is a float. *)
Record t := mk { costGuess : Q; state : State.t; path : list Action }.

(** [__lt__] *)
Definition lt (self other : t) : bool :=
  match (costGuess self ?= costGuess other)%Q with
  | Lt => true
  | _ => false
  end.

End Node.

(** ** heapq (the binary heap of the Python standard library, on a list) *)

Module heapq.

(** The [while pos > startpos] loop of [_siftdown]; [pos] halves at each
    turn, so [pos] turns are enough. *)
Fixpoint _siftdown_loop (fuel : nat) (heap : list Node.t) (newitem : Node.t)
    (startpos pos : nat) : list Node.t :=
  match fuel with
  | O => <[pos := newitem]> heap
  | S fuel =>
      if decide (startpos < pos)%nat then
        let parentpos := ((pos - 1) / 2)%nat in
        match heap !! parentpos with
        | Some parent =>
            if Node.lt newitem parent
            then _siftdown_loop fuel (<[pos := parent]> heap) newitem
                   startpos parentpos
            else <[pos := newitem]> heap
        | None => <[pos := newitem]> heap
        end
      else <[pos := newitem]> heap
  end.

Definition _siftdown (heap : list Node.t) (startpos pos : nat) : list Node.t :=
  match heap !! pos with
  | Some newitem => _siftdown_loop pos heap newitem startpos pos
  | None => heap
  end.

(** [heap[i] < heap[j]] *)
Definition lt_at (heap : list Node.t) (i j : nat) : bool :=
  match heap !! i, heap !! j with
  | Some a, Some b => Node.lt a b
  | _, _ => false
  end.

(** The [while childpos < endpos] loop of [_siftup]: the smaller child
    moves up until [pos] is a leaf. *)
Fixpoint _siftup_loop (fuel : nat) (heap : list Node.t) (endpos pos : nat)
  : list Node.t * nat :=
  match fuel with
  | O => (heap, pos)
  | S fuel =>
      let childpos := (2 * pos + 1)%nat in
      if decide (childpos < endpos)%nat then
        let rightpos := (childpos + 1)%nat in
        let childpos :=
          if bool_decide (rightpos < endpos)%nat
             && negb (lt_at heap childpos rightpos)
          then rightpos else childpos in
        match heap !! childpos with
        | Some child => _siftup_loop fuel (<[pos := child]> heap) endpos childpos
        | None => (heap, pos)
        end
      else (heap, pos)
  end.

Definition _siftup (heap : list Node.t) (pos : nat) : list Node.t :=
  let endpos := length heap in
  let startpos := pos in
  match heap !! pos with
  | Some newitem =>
      let '(heap, pos) := _siftup_loop endpos heap endpos pos in
      _siftdown (<[pos := newitem]> heap) startpos pos
  | None => heap
  end.

Definition heappush (heap : list Node.t) (item : Node.t) : list Node.t :=
  let heap := heap ++ [item] in
  _siftdown heap 0 (length heap - 1).

Definition heappop (heap : list Node.t) : run (Node.t * list Node.t) :=
  match last heap with
  | None => Raise IndexError
  | Some lastelt =>
      let heap := take (length heap - 1) heap in
      match heap with
      | returnitem :: _ => Done (returnitem, _siftup (<[0%nat := lastelt]> heap) 0)
      | [] => Done (lastelt, heap)
      end
  end.

End heapq.

(** ** class PriorityQueue *)

Module PriorityQueue.

Record t := mk { data : list Node.t; counter : Z }.

Definition __init__ : t := {| data := []; counter := 0 |}.

Definition push (self : t) (item : Node.t) : t :=
  {| data := heapq.heappush (data self) item; counter := counter self + 1 |}.

Definition pop (self : t) : run (Node.t * t) :=
  let counter := counter self - 1 in
  '(item, data) ← heapq.heappop (data self);
  Done (item, {| data := data; counter := counter |}).

Definition not_empty (self : t) : bool := bool_decide (counter self > 0).

End PriorityQueue.

(** ** class Bloxorz *)

Module Bloxorz.

(** The attributes of an engine.  [goal] is the pair [goalX], [goalY],
    which the constructor binds only when some row holds a 'G'; [initial]
    is bound only when some row holds an 'S'.  [xSize] and [ySize] are
    [State.xSize] and [State.ySize]. *)
Record t := mk {
  map : list (list ascii);
  closed : list State.t;
  queue : PriorityQueue.t;
  goal : option (Z * Z);
  initial : option State.t;
  xSize : Z;
  ySize : Z
}.

Definition with_queue (self : t) (q : PriorityQueue.t) : t :=
  mk (map self) (closed self) q (goal self) (initial self) (xSize self) (ySize self).

Definition with_closed (self : t) (c : list State.t) : t :=
  mk (map self) c (queue self) (goal self) (initial self) (xSize self) (ySize self).

(** [is_goal]; [and] stops at the first false operand, so the goal
    attributes are read only for a standing block. *)
Definition is_goal (goal : option (Z * Z)) (state : State.t) : run bool :=
  if decide (State.orient state = 0) then
    match goal with
    | Some (goalX, goalY) =>
        Done (bool_decide (State.x_cor state = goalX)
              && bool_decide (State.y_cor state = goalY))
    | None => Raise AttributeError
    end
  else Done false.

(** [heuristic] *)
Definition heuristic (goal : option (Z * Z)) (state : State.t) : run Q :=
  match goal with
  | Some (goalX, goalY) =>
      Done (Float.add (Float.truediv (Z.abs (goalX - State.x_cor state)) 3)
                      (Float.truediv (Z.abs (goalY - State.y_cor state)) 3))
  | None => Raise AttributeError
  end.

(** [is_safe]; [self.map[y]] and [self.map[y][x]] are read once here, the
    program reads them again for each comparison. *)
Definition is_safe (map : list (list ascii)) (x y : Z) : run bool :=
  if decide (Py.len map > y ∧ y >= 0) then
    row ← Py.index map y;
    if decide (Py.len row > x ∧ x >= 0) then
      c ← Py.index row x;
      Done (bool_decide (c = "O"%char) || bool_decide (c = "G"%char))
    else Done false
  else Done false.

(** One [if ...: result[key] = State(...)] of [successors]. *)
Definition when_safe (cond : run bool) (result : list (Action * State.t))
    (key : Action) (target : State.t) : run (list (Action * State.t)) :=
  c ← cond;
  Done (if (c : bool) then Py.dict_set result key target else result).

Definition successors (map : list (list ascii)) (state : State.t)
  : run (list (Action * State.t)) :=
  let x_cor := State.x_cor state in
  let y_cor := State.y_cor state in
  let result := [] in
  if decide (State.orient state = 0) then
    result ← when_safe (is_safe map x_cor (y_cor - 2) &&& is_safe map x_cor (y_cor - 1))
               result U (State.mk x_cor (y_cor - 2) 2);
    result ← when_safe (is_safe map x_cor (y_cor + 1) &&& is_safe map x_cor (y_cor + 2))
               result D (State.mk x_cor (y_cor + 1) 2);
    result ← when_safe (is_safe map (x_cor - 2) y_cor &&& is_safe map (x_cor - 1) y_cor)
               result L (State.mk (x_cor - 2) y_cor 1);
    result ← when_safe (is_safe map (x_cor + 1) y_cor &&& is_safe map (x_cor + 2) y_cor)
               result R (State.mk (x_cor + 1) y_cor 1);
    Done result
  else if decide (State.orient state = 1) then
    result ← when_safe (is_safe map x_cor (y_cor - 1) &&& is_safe map (x_cor + 1) (y_cor - 1))
               result U (State.mk x_cor (y_cor - 1) 1);
    result ← when_safe (is_safe map x_cor (y_cor + 1) &&& is_safe map (x_cor + 1) (y_cor + 1))
               result D (State.mk x_cor (y_cor + 1) 1);
    result ← when_safe (is_safe map (x_cor - 1) y_cor)
               result L (State.mk (x_cor - 1) y_cor 0);
    result ← when_safe (is_safe map (x_cor + 2) y_cor)
               result R (State.mk (x_cor + 2) y_cor 0);
    Done result
  else
    result ← when_safe (is_safe map x_cor (y_cor - 1))
               result U (State.mk x_cor (y_cor - 1) 0);
    result ← when_safe (is_safe map x_cor (y_cor + 2))
               result D (State.mk x_cor (y_cor + 2) 0);
    result ← when_safe (is_safe map (x_cor - 1) y_cor &&& is_safe map (x_cor - 1) (y_cor + 1))
               result L (State.mk (x_cor - 1) y_cor 2);
    result ← when_safe (is_safe map (x_cor + 1) y_cor &&& is_safe map (x_cor + 1) (y_cor + 1))
               result R (State.mk (x_cor + 1) y_cor 2);
    Done result.

(** The two [for i in range(0, len(self.map))] loops of the constructor
    search the first row, from row [i] on, in which [sub] occurs; they
    yield the column found and the row. *)
Fixpoint first_row_with (sub : list ascii) (i : Z) (rows : list (list ascii))
  : option (Z * Z) :=
  match rows with
  | [] => None
  | row :: rows =>
      let res := Py.find row sub in
      if decide (res ≠ -1) then Some (res, i)
      else first_row_with sub (i + 1) rows
  end.

(** [__init__] *)
Definition __init__ (input_matrix : list (list ascii)) : run t :=
  let map := input_matrix in
  let closed := [] in
  let queue := PriorityQueue.__init__ in
  row0 ← Py.index map 0;
  let xSize := Py.len row0 in
  let ySize := Py.len map in
  let goal := first_row_with (str "G") 0 map in
  match first_row_with (str "S") 0 map with
  | None => Done (mk map closed queue goal None xSize ySize)
  | Some (res, i) =>
      row ← Py.index map i;
      lying_x ← (if decide (res + 1 < Py.len row)
                 then c ← Py.index row (res + 1); Done (bool_decide (c = "S"%char))
                 else Done false);
      '(orient, map) ←
        (if (lying_x : bool) then
           Done (1, <[Z.to_nat i := Py.replace row (str "SS") (str "00")]> map)
         else
           lying_y ← (if decide (i + 1 < Py.len map)
                      then below ← Py.index map (i + 1);
                           c ← Py.index below res;
                           Done (bool_decide (c = "S"%char))
                      else Done false);
           if (lying_y : bool) then
             let map := <[Z.to_nat i := Py.replace row (str "S") (str "0")]> map in
             below ← Py.index map (i + 1);
             Done (2, <[Z.to_nat (i + 1) := Py.replace below (str "S") (str "0")]> map)
           else
             Done (0, <[Z.to_nat i := Py.replace row (str "S") (str "0")]> map));
      let initial := State.mk res i orient in
      h ← heuristic goal initial;
      let queue := PriorityQueue.push queue (Node.mk h initial []) in
      Done (mk map closed queue goal (Some initial) xSize ySize)
  end.

(** [state in self.closed]: a set compares through [State.__eq__]. *)
Definition in_closed (self : t) (state : State.t) : bool :=
  existsb (State.eq (xSize self) (ySize self) state) (closed self).

(** [self.closed.add(state)] *)
Definition closed_add (self : t) (state : State.t) : t :=
  if in_closed self state then self
  else with_closed self (closed self ++ [state]).

(** The [for key in successors] loop of [solve]. *)
Fixpoint push_successors (self : t) (current : Node.t)
    (successors : list (Action * State.t)) : run t :=
  match successors with
  | [] => Done self
  | (key, new_state) :: successors =>
      if negb (in_closed self new_state) then
        let templist := Node.path current ++ [key] in
        h ← heuristic (goal self) new_state;
        let node := Node.mk (Float.add (Float.of_int (Py.len templist)) h)
                      new_state templist in
        push_successors (with_queue self (PriorityQueue.push (queue self) node))
          current successors
      else push_successors self current successors
  end.

(** The two [return] statements of [solve]. *)
Inductive exit := ReturnPath (current : Node.t) | ReturnEmpty.

Definition returned (x : exit) : list Action :=
  match x with
  | ReturnPath current => Node.path current
  | ReturnEmpty => []
  end.

(** The [while self.queue.not_empty()] loop of [solve], one turn per unit
    of [fuel]. *)
Fixpoint solve_loop (fuel : nat) (self : t) : run (exit * t) :=
  match fuel with
  | O => OutOfFuel
  | S fuel =>
      if PriorityQueue.not_empty (queue self) then
        '(current, q) ← PriorityQueue.pop (queue self);
        let self := with_queue self q in
        if negb (in_closed self (Node.state current)) then
          g ← is_goal (goal self) (Node.state current);
          if (g : bool) then Done (ReturnPath current, self)
          else
            successors ← successors (map self) (Node.state current);
            self ← push_successors self current successors;
            solve_loop fuel (closed_add self (Node.state current))
        else solve_loop fuel self
      else Done (ReturnEmpty, self)
  end.

(** Every state of the board: a position in range and one of the three
    orientations. *)
Definition all_states (map : list (list ascii)) : list State.t :=
  y ← seqZ 0 (Py.len map);
  x ← seqZ 0 (match map !! Z.to_nat y with
              | Some row => Py.len row
              | None => 0
              end);
  [State.mk x y 0; State.mk x y 1; State.mk x y 2].

(** A number of turns no run of the loop exceeds: every turn pops one
    node, and a node is pushed only when a state is expanded, at most four
    per state and each state at most once; the states are those queued at
    the start and those of the board. *)
Definition solve_fuel (self : t) : nat :=
  let queued := length (PriorityQueue.data (queue self)) in
  S (queued + 4 * (queued + length (all_states (map self)))).

Definition solve_exit (self : t) : run (exit * t) :=
  solve_loop (solve_fuel self) self.

(** [solve]: the action list returned, and the engine as the call leaves
    it. *)
Definition solve (self : t) : run (list Action * t) :=
  '(x, self) ← solve_exit self; Done (returned x, self).

(** The states [print_result] walks through: [current_state =
    self.successors(current_state)[action]] for each action in turn. *)
Fixpoint replay (map : list (list ascii)) (current_state : State.t)
    (result : list Action) : run State.t :=
  match result with
  | [] => Done current_state
  | action :: result =>
      successors ← successors map current_state;
      next ← Py.dict_get successors action;
      replay map next result
  end.

(** [print_state[y][x] = v] on the grid of [print_state]. *)
Definition set_cell (grid : list (list ascii)) (y x : Z) (v : ascii)
  : run (list (list ascii)) :=
  row ← Py.index grid y;
  row ← Py.setitem row x v;
  Py.setitem grid y row.

(** [print_state]: the rows it prints.  All its [print] calls come after
    the last statement that may raise. *)
Definition print_state (self : t) (state : State.t) : run (list (list ascii)) :=
  print_state ←
    Py.collect (fun y =>
      Py.collect (fun x => row ← Py.index (map self) y; Py.index row x)
        (Py.range (xSize self)))
      (Py.range (ySize self));
  g ← is_goal (goal self) state;
  if negb g then
    print_state ← set_cell print_state (State.y_cor state) (State.x_cor state) "S";
    print_state ←
      (if decide (State.orient state = 1)
       then set_cell print_state (State.y_cor state) (State.x_cor state + 1) "S"
       else Done print_state);
    if decide (State.orient state = 2)
    then set_cell print_state (State.y_cor state + 1) (State.x_cor state) "S"
    else Done print_state
  else Done print_state.

(** The [for action in result] loop of [print_result]. *)
Fixpoint print_steps (self : t) (st : Z) (current_state : State.t)
    (result : list Action) : io (Z * State.t) :=
  match result with
  | [] => mret (st, current_state)
  | action :: result =>
      _ ← print [StateLine st];
      rows ← silent (print_state self current_state);
      _ ← print (Row <$> rows);
      _ ← print [ActionLine action];
      _ ← print [Blank];
      let st := st + 1 in
      current_state ← silent (successors ← successors (map self) current_state;
                              Py.dict_get successors action);
      print_steps self st current_state result
  end.

(** [print_result] *)
Definition print_result (self : t) (result : list Action) : io unit :=
  let st := 1 in
  current_state ← silent (match initial self with
                          | Some s => Done s
                          | None => Raise AttributeError
                          end);
  '(st, current_state) ← print_steps self st current_state result;
  _ ← print [StateLine st];
  rows ← silent (print_state self current_state);
  _ ← print (Row <$> rows);
  if decide (Py.len result = 0) then print [NoSolution]
  else print [OptimalMoves (Py.len result)].

End Bloxorz.

(** ** The script *)

(** The [while True] loop that reads the board: one [readline] per turn
    until it returns the empty string; a line is never empty before the end
    of the file, so [S (length content)] turns are enough. *)
Fixpoint read_loop (fuel : nat) (content : list ascii)
    (inputData : list (list ascii)) : list (list ascii) :=
  match fuel with
  | O => inputData
  | S fuel =>
      let '(line, content) := Py.readline content in
      if decide (line = []) then inputData
      else read_loop fuel content (inputData ++ [Py.strip line])
  end.

(** [inputData] for a file with the given text (as [readline] sees it, that
    is, decoded and with newlines translated to "\n"). *)
Definition read_board (content : list ascii) : list (list ascii) :=
  read_loop (S (length content)) content [].

(** The last three statements of the script. *)
Definition main (inputData : list (list ascii)) : io unit :=
  problem ← silent (Bloxorz.__init__ inputData);
  '(solution, problem) ← silent (Bloxorz.solve problem);
  Bloxorz.print_result problem solution.

(** Some boards, run through the program. *)
Definition board (rows : list string) : list (list ascii) := str <$> rows.

Definition result_of (input : list (list ascii)) : run (list Action) :=
  self ← Bloxorz.__init__ input; '(p, _) ← Bloxorz.solve self; Done p.

(** ** Specification-level notions (spec sections 3 and 4) *)

(** [tileAt(x, y)]: the character of row [y], column [x], when in range. *)
Definition cell (m : list (list ascii)) (x y : Z) : option ascii :=
  if decide (0 ≤ x ∧ 0 ≤ y) then
    row ← m !! Z.to_nat y; row !! Z.to_nat x
  else None.

(** [isSafe(x, y)]: in range, and the tile is Safe ('O') or Goal ('G'). *)
Definition safe (m : list (list ascii)) (x y : Z) : bool :=
  match cell m x y with
  | Some c => bool_decide (c = "O"%char) || bool_decide (c = "G"%char)
  | None => false
  end.

(** All rows have the same length [width]. *)
Definition rectangular (m : list (list ascii)) (width : Z) : Prop :=
  Forall (fun row => Py.len row = width) m.

Inductive Orientation := Standing | LyingAlongX | LyingAlongY.

(** The code of an orientation in [State.orient]. *)
Definition code (o : Orientation) : Z :=
  match o with Standing => 0 | LyingAlongX => 1 | LyingAlongY => 2 end.

(** The cells a block occupies (spec section 3). *)
Definition footprint (x y : Z) (o : Orientation) : list (Z * Z) :=
  match o with
  | Standing => [(x, y)]
  | LyingAlongX => [(x, y); (x + 1, y)]
  | LyingAlongY => [(x, y); (x, y + 1)]
  end.

(** The table of spec section 4.2: safety checks and target of each move. *)
Definition table (o : Orientation) (a : Action) (x y : Z)
  : list (Z * Z) * (Z * Z * Orientation) :=
  match o, a with
  | Standing, U => ([(x, y - 2); (x, y - 1)], (x, y - 2, LyingAlongY))
  | Standing, D => ([(x, y + 1); (x, y + 2)], (x, y + 1, LyingAlongY))
  | Standing, L => ([(x - 2, y); (x - 1, y)], (x - 2, y, LyingAlongX))
  | Standing, R => ([(x + 1, y); (x + 2, y)], (x + 1, y, LyingAlongX))
  | LyingAlongX, U => ([(x, y - 1); (x + 1, y - 1)], (x, y - 1, LyingAlongX))
  | LyingAlongX, D => ([(x, y + 1); (x + 1, y + 1)], (x, y + 1, LyingAlongX))
  | LyingAlongX, L => ([(x - 1, y)], (x - 1, y, Standing))
  | LyingAlongX, R => ([(x + 2, y)], (x + 2, y, Standing))
  | LyingAlongY, U => ([(x, y - 1)], (x, y - 1, Standing))
  | LyingAlongY, D => ([(x, y + 2)], (x, y + 2, Standing))
  | LyingAlongY, L => ([(x - 1, y); (x - 1, y + 1)], (x - 1, y, LyingAlongY))
  | LyingAlongY, R => ([(x + 1, y); (x + 1, y + 1)], (x + 1, y, LyingAlongY))
  end.

Definition table_state (t : Z * Z * Orientation) : State.t :=
  State.mk t.1.1 t.1.2 (code t.2).

(** The entry of the table for action [a], when its checks pass. *)
Definition table_move (m : list (list ascii)) (o : Orientation) (x y : Z)
    (a : Action) : option (Action * State.t) :=
  let '(checks, target) := table o a x y in
  if forallb (fun c => safe m c.1 c.2) checks
  then Some (a, table_state target) else None.

(** The orientation a code stands for, as [successors] branches on it. *)
Definition decode (orient : Z) : Orientation :=
  if decide (orient = 0) then Standing
  else if decide (orient = 1) then LyingAlongX else LyingAlongY.

(** The successor mapping in closed form. *)
Definition moves (m : list (list ascii)) (s : State.t) : list (Action * State.t) :=
  omap (table_move m (decode (State.orient s)) (State.x_cor s) (State.y_cor s))
    [U; D; L; R].

(** A state whose key is within the range of [State.__hash__]. *)
Definition valid (xSize ySize : Z) (s : State.t) : Prop :=
  0 ≤ State.x_cor s < xSize ∧ 0 ≤ State.y_cor s < ySize
  ∧ (State.orient s = 0 ∨ State.orient s = 1 ∨ State.orient s = 2).

(** Three times the heuristic, an integer. *)
Definition h3 (goal : Z * Z) (s : State.t) : Z :=
  Z.abs (goal.1 - State.x_cor s) + Z.abs (goal.2 - State.y_cor s).

(** An edge of the search graph: [a] is a key of [successors(s)] and [s']
    is its value. *)
Definition step (m : list (list ascii)) (s : State.t) (a : Action)
    (s' : State.t) : Prop :=
  ∃ d, Bloxorz.successors m s = Done d ∧ Py.dict_get d a = Done s'.

(** ** The heap order of [heapq] *)

(** [a] does not come after [b]: [not (b < a)] for [Node.__lt__]. *)
Definition node_le (a b : Node.t) : Prop :=
  (Node.costGuess a <= Node.costGuess b)%Q.

(** The same on list entries that may be out of range. *)
Definition le_opt (a b : option Node.t) : Prop :=
  match a, b with
  | Some x, Some y => node_le x y
  | _, _ => True
  end.

Definition parent (i : nat) : nat := ((i - 1) / 2)%nat.

(** The invariant of [heapq]: no entry comes before its parent. *)
Definition heap_ok (heap : list Node.t) : Prop :=
  ∀ i, (0 < i)%nat → le_opt (heap !! parent i) (heap !! i).

(** The heap order everywhere except around position [pos], whose children
    do not come before its parent. *)
Definition hole_ok (heap : list Node.t) (pos : nat) : Prop :=
  (∀ i, (0 < i)%nat → i ≠ pos → parent i ≠ pos →
        le_opt (heap !! parent i) (heap !! i))
  ∧ ((0 < pos)%nat → ∀ c, (0 < c)%nat → parent c = pos →
        le_opt (heap !! parent pos) (heap !! c)).

(** The children of [pos] do not come before it. *)
Definition below_ok (heap : list Node.t) (pos : nat) : Prop :=
  ∀ c, (0 < c)%nat → parent c = pos → le_opt (heap !! pos) (heap !! c).

(** ** Notions used to state the behaviour of [solve] *)

(** The counter of a queue is the number of its entries. *)
Definition queue_ok (q : PriorityQueue.t) : Prop :=
  PriorityQueue.counter q = Py.len (PriorityQueue.data q).

(** The value of [heuristic] once the goal attributes are bound. *)
Definition hval (goal : Z * Z) (s : State.t) : Q :=
  Float.add (Float.truediv (Z.abs (goal.1 - State.x_cor s)) 3)
            (Float.truediv (Z.abs (goal.2 - State.y_cor s)) 3).

(** The node [solve] pushes for the entry [key], [new_state] of the
    successors of [current]. *)
Definition child_node (goal : Z * Z) (current : Node.t) (key : Action)
    (new_state : State.t) : Node.t :=
  let templist := Node.path current ++ [key] in
  Node.mk (Float.add (Float.of_int (Py.len templist)) (hval goal new_state))
    new_state templist.

(** The nodes pushed when [current] is expanded: one for each successor
    that is not in the closed set. *)
Definition new_nodes (self : Bloxorz.t) (goal : Z * Z) (current : Node.t)
    (successors : list (Action * State.t)) : list Node.t :=
  omap (fun '(key, new_state) =>
          if Bloxorz.in_closed self new_state then None
          else Some (child_node goal current key new_state))
       successors.

(** Two engines on the same board: only queue and closed set may differ. *)
Definition same_board (e e' : Bloxorz.t) : Prop :=
  Bloxorz.map e' = Bloxorz.map e ∧ Bloxorz.goal e' = Bloxorz.goal e
  ∧ Bloxorz.initial e' = Bloxorz.initial e
  ∧ Bloxorz.xSize e' = Bloxorz.xSize e ∧ Bloxorz.ySize e' = Bloxorz.ySize e.

(** The states of the universe [U] that are not closed yet. *)
Definition open_count (self : Bloxorz.t) (U : list State.t) : nat :=
  length (List.filter (fun u => negb (Bloxorz.in_closed self u)) U).

(** The measure that decreases at each turn of the loop of [solve]. *)
Definition turns_left (self : Bloxorz.t) (U : list State.t) : nat :=
  length (PriorityQueue.data (Bloxorz.queue self)) + 4 * open_count self U.

(** The goal test once the goal attributes are bound. *)
Definition at_goal (goal : Z * Z) (s : State.t) : bool :=
  bool_decide (State.orient s = 0)
  && bool_decide (State.x_cor s = goal.1) && bool_decide (State.y_cor s = goal.2).

(** What a turn of the loop needs: a consistent queue, the goal bound, and
    a universe [U] that holds the queued states and those of the board. *)
Definition ready (U : list State.t) (goal : Z * Z) (e : Bloxorz.t) : Prop :=
  queue_ok (Bloxorz.queue e)
  ∧ Bloxorz.goal e = Some goal
  ∧ (∀ n, n ∈ PriorityQueue.data (Bloxorz.queue e) → Node.state n ∈ U)
  ∧ (∀ s, s ∈ Bloxorz.all_states (Bloxorz.map e) → s ∈ U).

(** [pop] took [x] out of [q] and left [q']. *)
Definition popped (q : PriorityQueue.t) (x : Node.t) (q' : PriorityQueue.t) : Prop :=
  queue_ok q'
  ∧ PriorityQueue.data q ≡ₚ x :: PriorityQueue.data q'
  ∧ (heap_ok (PriorityQueue.data q)
     → heap_ok (PriorityQueue.data q')
       ∧ ∀ y, y ∈ PriorityQueue.data q → node_le x y).

(** The [for] loop over the successors of [x] led from [e1] to [e2]. *)
Definition pushed (goal : Z * Z) (e1 : Bloxorz.t) (x : Node.t) (e2 : Bloxorz.t)
  : Prop :=
  same_board e1 e2
  ∧ Bloxorz.closed e2 = Bloxorz.closed e1
  ∧ queue_ok (Bloxorz.queue e2)
  ∧ PriorityQueue.data (Bloxorz.queue e2)
      ≡ₚ new_nodes e1 goal x (moves (Bloxorz.map e1) (Node.state x))
         ++ PriorityQueue.data (Bloxorz.queue e1)
  ∧ (heap_ok (PriorityQueue.data (Bloxorz.queue e1))
     → heap_ok (PriorityQueue.data (Bloxorz.queue e2))).

(** The engine after [n] calls of [solve]. *)
Fixpoint calls (n : nat) (self : Bloxorz.t) : run Bloxorz.t :=
  match n with
  | O => Done self
  | S n => self ← calls n self; '(_, self) ← Bloxorz.solve self; Done self
  end.

(** The state that satisfies [is_goal]. *)
Definition goal_state (goal : Z * Z) : State.t := State.mk goal.1 goal.2 0.

(** The path of a node leads from [init] to its state. *)
Definition path_ok (m : list (list ascii)) (init : State.t) (n : Node.t) : Prop :=
  Bloxorz.replay m init (Node.path n) = Done (Node.state n).

(** The paths of all queued nodes do, on the board of [e0]. *)
Definition paths_ok (e0 : Bloxorz.t) (init : State.t) (e : Bloxorz.t) : Prop :=
  same_board e0 e
  ∧ ∀ n, n ∈ PriorityQueue.data (Bloxorz.queue e)
         → path_ok (Bloxorz.map e0) init n.

(** The engine built from the one-row board "SOOG". *)
Definition engine_SOOG : Bloxorz.t :=
  {| Bloxorz.map := board ["0OOG"];
     Bloxorz.closed := [];
     Bloxorz.queue :=
       PriorityQueue.mk [Node.mk (hval (3, 0) (State.mk 0 0 0)) (State.mk 0 0 0) []] 1;
     Bloxorz.goal := Some (3, 0);
     Bloxorz.initial := Some (State.mk 0 0 0);
     Bloxorz.xSize := 4;
     Bloxorz.ySize := 1 |}.

(** The same engine once [solve] has returned. *)
Definition engine_SOOG_solved : Bloxorz.t :=
  {| Bloxorz.map := board ["0OOG"];
     Bloxorz.closed := [State.mk 0 0 0; State.mk 1 0 1];
     Bloxorz.queue := PriorityQueue.mk [] 0;
     Bloxorz.goal := Some (3, 0);
     Bloxorz.initial := Some (State.mk 0 0 0);
     Bloxorz.xSize := 4;
     Bloxorz.ySize := 1 |}.

(** ** The invariant of the search *)

(** What stays fixed during a search on the board of [e0]: the board is
    rectangular, the class attributes of [State] are its sizes, and the
    initial state and the goal state are within them. *)
Definition board_ok (e0 : Bloxorz.t) (g : Z * Z) (init : State.t) : Prop :=
  rectangular (Bloxorz.map e0) (Bloxorz.xSize e0)
  ∧ Bloxorz.ySize e0 = Py.len (Bloxorz.map e0)
  ∧ valid (Bloxorz.xSize e0) (Bloxorz.ySize e0) init
  ∧ valid (Bloxorz.xSize e0) (Bloxorz.ySize e0) (goal_state g).

(** A queued node: its path leads to its state, which is valid. *)
Definition node_ok (e0 : Bloxorz.t) (init : State.t) (n : Node.t) : Prop :=
  path_ok (Bloxorz.map e0) init n
  ∧ valid (Bloxorz.xSize e0) (Bloxorz.ySize e0) (Node.state n).

(** Three times the exact cost guess of a node (the length of its path
    plus a third of the distance to the goal), an integer. *)
Definition f3 (g : Z * Z) (n : Node.t) : Z :=
  3 * Py.len (Node.path n) + h3 g (Node.state n).

(** The cost guess of a node is the float computed for it: its exact value
    up to the relative error 2^-50 of the roundings (1125899906842624 is
    2^50). *)
Definition cost_ok (g : Z * Z) (n : Node.t) : Prop :=
  (- ((f3 g n # 3) * (1 # 1125899906842624))
   <= Node.costGuess n - (f3 g n # 3))%Q
  ∧ (Node.costGuess n - (f3 g n # 3)
     <= (f3 g n # 3) * (1 # 1125899906842624))%Q.

(** A board of at most 2^44 cells: on it the roundings never reverse the
    order of two different exact cost guesses. *)
Definition small (e0 : Bloxorz.t) : Prop :=
  Bloxorz.xSize e0 * Bloxorz.ySize e0 ≤ 2 ^ 44.

(** The invariant of the loop of [solve] that holds whatever the order of
    the pops: the queued nodes are good; the initial state is closed or
    queued with the empty path; every successor of a closed state reached
    by a path [q] is closed or queued in a node that is [near] to [q]; the
    goal state is not closed. *)
Definition reach_inv (e0 : Bloxorz.t) (g : Z * Z) (init : State.t)
    (near : Node.t → list Action → Prop) (e : Bloxorz.t) : Prop :=
  same_board e0 e
  ∧ (∀ n, n ∈ PriorityQueue.data (Bloxorz.queue e) → node_ok e0 init n)
  ∧ (Bloxorz.in_closed e init = true
     ∨ ∃ n, n ∈ PriorityQueue.data (Bloxorz.queue e)
            ∧ Node.state n = init ∧ Node.path n = [])
  ∧ (∀ c q k s',
       Bloxorz.in_closed e c = true →
       Bloxorz.replay (Bloxorz.map e0) init q = Done c →
       step (Bloxorz.map e0) c k s' →
       Bloxorz.in_closed e s' = true
       ∨ ∃ n, n ∈ PriorityQueue.data (Bloxorz.queue e)
              ∧ Node.state n = s' ∧ near n q)
  ∧ Bloxorz.in_closed e (goal_state g) = false.

(** The invariant of the loop of [solve] during the first call: the one
    above, where a successor of a closed state is queued with a path no
    longer than any path through that closed state; the queue is a heap;
    the cost guess of each queued node is the float computed for it, and
    its path is no longer than the closed set; the closed set holds valid
    states, each once. *)
Definition astar_inv (e0 : Bloxorz.t) (g : Z * Z) (init : State.t)
    (e : Bloxorz.t) : Prop :=
  reach_inv e0 g init
    (fun n q => (length (Node.path n) ≤ length q + 1)%nat) e
  ∧ heap_ok (PriorityQueue.data (Bloxorz.queue e))
  ∧ (∀ n, n ∈ PriorityQueue.data (Bloxorz.queue e) →
          cost_ok g n
          ∧ (length (Node.path n) ≤ length (Bloxorz.closed e))%nat)
  ∧ NoDup (Bloxorz.closed e)
  ∧ (∀ c, c ∈ Bloxorz.closed e →
          valid (Bloxorz.xSize e0) (Bloxorz.ySize e0) c).

(** The engine built from the one-row board "GOS" (scenario A of the
    spec). *)
Definition engine_GOS : Bloxorz.t :=
  {| Bloxorz.map := board ["GO0"];
     Bloxorz.closed := [];
     Bloxorz.queue :=
       PriorityQueue.mk [Node.mk (hval (0, 0) (State.mk 2 0 0)) (State.mk 2 0 0) []] 1;
     Bloxorz.goal := Some (0, 0);
     Bloxorz.initial := Some (State.mk 2 0 0);
     Bloxorz.xSize := 3;
     Bloxorz.ySize := 1 |}.

(** The same engine once [solve] has returned. *)
Definition engine_GOS_solved : Bloxorz.t :=
  {| Bloxorz.map := board ["GO0"];
     Bloxorz.closed := [State.mk 2 0 0; State.mk 0 0 1];
     Bloxorz.queue := PriorityQueue.mk [] 0;
     Bloxorz.goal := Some (0, 0);
     Bloxorz.initial := Some (State.mk 2 0 0);
     Bloxorz.xSize := 3;
     Bloxorz.ySize := 1 |}.

(** The first level of the game. *)
Definition level_one : list (list ascii) :=
  board ["OOO       ";
         "OSOOOO    ";
         "OOOOOOOOO ";
         " OOOOOOOOO";
         "     OOGOO";
         "      OOO "].

(** ** Notions used for the further properties *)

(** The queues a program can build: from [PriorityQueue()] by [push] and by
    [pop] calls that return. *)
Inductive built : PriorityQueue.t → Prop :=
  | built_init : built PriorityQueue.__init__
  | built_push q item : built q → built (PriorityQueue.push q item)
  | built_pop q x q' :
      built q → PriorityQueue.pop q = Done (x, q') → built q'.

(** The action that rolls the block back. *)
Definition opposite (a : Action) : Action :=
  match a with U => D | D => U | L => R | R => L end.

(** The cells of a state, by the code of its orientation. *)
Definition cells (s : State.t) : list (Z * Z) :=
  footprint (State.x_cor s) (State.y_cor s) (decode (State.orient s)).

(** Some cell of the board holds [c]. *)
Definition occurs (c : ascii) (b : list (list ascii)) : Prop :=
  ∃ x y, cell b x y = Some c.

(** [(x, y)] comes first in row-major order among the cells that hold
    [c]. *)
Definition first_cell (c : ascii) (b : list (list ascii)) (x y : Z) : Prop :=
  cell b x y = Some c
  ∧ ∀ x' y', cell b x' y' = Some c → y < y' ∨ (y = y' ∧ x ≤ x').

(** The closed set of [e], for the search from [init] on the board of [e0]:
    each of its states is reached from [init] by some actions and fails the
    goal test, and no two of its entries are equal for [State.__eq__]. *)
Definition closed_ok (e0 : Bloxorz.t) (init : State.t) (e : Bloxorz.t) : Prop :=
  (∀ c, c ∈ Bloxorz.closed e →
        (∃ q, Bloxorz.replay (Bloxorz.map e0) init q = Done c)
        ∧ Bloxorz.is_goal (Bloxorz.goal e0) c = Done false)
  ∧ (∀ i j a b,
       Bloxorz.closed e !! i = Some a → Bloxorz.closed e !! j = Some b →
       State.eq (Bloxorz.xSize e0) (Bloxorz.ySize e0) a b = true → i = j).

(** The state numbers, the actions and the board rows of a printed output,
    in the order they were printed. *)
Definition state_lines (out : list line) : list Z :=
  omap (fun l => match l with StateLine st => Some st | _ => None end) out.

Definition action_lines (out : list line) : list Action :=
  omap (fun l => match l with ActionLine a => Some a | _ => None end) out.

Definition row_lines (out : list line) : list (list ascii) :=
  omap (fun l => match l with Row r => Some r | _ => None end) out.

(** The text of a file whose lines are [rows], each ended by a newline. *)
Definition unlines (rows : list (list ascii)) : list ascii :=
  mjoin ((fun r => r ++ ["010"%char]) <$> rows).

(** No character of the row is whitespace. *)
Definition no_space (row : list ascii) : Prop :=
  Forall (fun c => Py.isspace c = false) row.

(** * Theorems *)

(** ** Floats *)

Lemma pow2_pos (x : Z) : (0 < 2 ^ x)%Q.
Proof. apply Qpower_0_lt. reflexivity. Qed.

Lemma pow2_plus (x y : Z) : (2 ^ (x + y) == 2 ^ x * 2 ^ y)%Q.
Proof. apply Qpower_plus. discriminate. Qed.

Lemma pow2_inject (x : Z) : 0 <= x -> (inject_Z (2 ^ x) == 2 ^ x)%Q.
Proof. intros Hx. rewrite Zpower_Qpower; [reflexivity|assumption]. Qed.

Lemma ilog2_spec (q : Q) :
  (0 < q)%Q -> (2 ^ Float.ilog2 q <= q)%Q /\ (q < 2 ^ (Float.ilog2 q + 1))%Q.
Proof.
  intros Hq. destruct q as [n d]. unfold Float.ilog2. cbn [Qnum Qden].
  assert (Hn : 0 < n) by (unfold Qlt in Hq; cbn in Hq; lia).
  set (a := Z.log2 n). set (b := Z.log2 (Z.pos d)). set (k := a - b).
  destruct (Z.log2_spec n Hn) as [Ha1 Ha2]. fold a in Ha1, Ha2.
  destruct (Z.log2_spec (Z.pos d) ltac:(lia)) as [Hb1 Hb2]. fold b in Hb1, Hb2.
  assert (Ha0 : 0 <= a) by apply Z.log2_nonneg.
  assert (Hb0 : 0 <= b) by apply Z.log2_nonneg.
  pose proof (Qmake_Qdiv n d) as Hdiv.
  set (N := inject_Z n) in *. set (D := inject_Z (Z.pos d)) in *.
  assert (HD : (0 < D)%Q) by (unfold D, Qlt; cbn; lia).
  assert (HqD : ((n # d) * D == N)%Q).
  { rewrite Hdiv. field. intros H. rewrite H in HD. by apply Qlt_irrefl in HD. }
  assert (HNa1 : (2 ^ a <= N)%Q).
  { rewrite <- pow2_inject by done. unfold N. rewrite <- Zle_Qle. done. }
  assert (HNa2 : (N < 2 ^ (a + 1))%Q).
  { rewrite <- pow2_inject by lia. unfold N. rewrite <- Zlt_Qlt.
    by replace (a + 1) with (Z.succ a) by lia. }
  assert (HDb1 : (2 ^ b <= D)%Q).
  { rewrite <- pow2_inject by done. unfold D. rewrite <- Zle_Qle. done. }
  assert (HDb2 : (D < 2 ^ (b + 1))%Q).
  { rewrite <- pow2_inject by lia. unfold D. rewrite <- Zlt_Qlt.
    by replace (b + 1) with (Z.succ b) by lia. }
  assert (Hup : (n # d < 2 ^ (k + 1))%Q).
  { pose proof (pow2_plus (k + 1) b) as Hp.
    replace (k + 1 + b) with (a + 1) in Hp by (unfold k; lia).
    pose proof (pow2_pos (k + 1)). 
    set (X := (2 ^ (k + 1))%Q) in *. set (Y := (2 ^ b)%Q) in *.
    set (W := (2 ^ (a + 1))%Q) in *. set (q := n # d) in *.
    apply Qnot_le_lt. intros Hle. nra. }
  assert (Hlow : (2 ^ (k - 1) <= n # d)%Q).
  { pose proof (pow2_plus (k - 1) (b + 1)) as Hp.
    replace (k - 1 + (b + 1)) with a in Hp by (unfold k; lia).
    pose proof (pow2_pos (k - 1)).
    set (X := (2 ^ (k - 1))%Q) in *. set (Y := (2 ^ (b + 1))%Q) in *.
    set (W := (2 ^ a)%Q) in *. set (q := n # d) in *.
    apply Qnot_lt_le. intros Hlt. nra. }
  destruct (Qle_bool (2 ^ k) (n # d)) eqn:Hb.
  - apply Qle_bool_iff in Hb. done.
  - split; [done|]. replace (k - 1 + 1) with k by lia.
    apply Qnot_le_lt. intros Hle. apply Qle_bool_iff in Hle. congruence.
Qed.

Lemma rne_error (t : Q) :
  (- (1 # 2) <= inject_Z (Float.rne t) - t)%Q
  ∧ (inject_Z (Float.rne t) - t <= 1 # 2)%Q.
Proof.
  unfold Float.rne. pose proof (Qfloor_le t) as Hlo.
  pose proof (Qlt_floor t) as Hhi. rewrite inject_Z_plus in Hhi.
  set (f := Qfloor t) in *.
  assert (H1 : (inject_Z (f + 1) == inject_Z f + 1)%Q)
    by (rewrite inject_Z_plus; reflexivity).
  change (inject_Z 1) with 1%Q in Hhi.
  destruct (t - inject_Z f ?= 1 # 2)%Q eqn:Hc.
  - apply Qeq_alt in Hc. destruct (Z.even f); [|rewrite H1]; lra.
  - apply Qlt_alt in Hc. lra.
  - apply Qgt_alt in Hc. rewrite H1. lra.
Qed.

(** The relative error of one rounding is at most 2^-53
    (9007199254740992 is 2^53). *)
Lemma round_pos_error (q : Q) :
  (0 < q)%Q →
  (- (q * (1 # 9007199254740992)) <= Float.round_pos q - q)%Q
  ∧ (Float.round_pos q - q <= q * (1 # 9007199254740992))%Q.
Proof.
  intros Hq. unfold Float.round_pos.
  destruct (ilog2_spec q Hq) as [Hlo _].
  set (L := Float.ilog2 q) in *.
  pose proof (pow2_plus (L - 52) 52) as Hp.
  replace (L - 52 + 52) with L in Hp by lia.
  pose proof (pow2_pos (L - 52)) as HE.
  set (E := (2 ^ (L - 52))%Q) in *.
  destruct (rne_error (q / E)) as [Hm1 Hm2].
  set (m := inject_Z (Float.rne (q / E))) in *.
  assert (Ht : (q / E * E == q)%Q).
  { field. intros H. rewrite H in HE. by apply Qlt_irrefl in HE. }
  set (t := (q / E)%Q) in *.
  change (2 ^ 52)%Q with (4503599627370496 # 1)%Q in Hp.
  split; nra.
Qed.

Lemma round_error (q : Q) :
  (0 <= q)%Q →
  (- (q * (1 # 9007199254740992)) <= Float.round q - q)%Q
  ∧ (Float.round q - q <= q * (1 # 9007199254740992))%Q.
Proof.
  intros Hq. unfold Float.round. destruct q as [[|n|n] d]; cbn [Qnum].
  - assert ((0 # d) == 0)%Q as -> by done. lra.
  - apply round_pos_error. done.
  - exfalso. unfold Qle in Hq. cbn in Hq. lia.
Qed.

Lemma round_nonneg (q : Q) : (0 <= q)%Q → (0 <= Float.round q)%Q.
Proof. intros Hq. destruct (round_error q Hq). lra. Qed.

Lemma round_zero (q : Q) : (0 <= q)%Q → (Float.round q == 0)%Q → (q == 0)%Q.
Proof. intros Hq H0. destruct (round_error q Hq). lra. Qed.


(** ** Python builtins *)

Lemma index_in_range {A} (l : list A) (i : Z) :
  0 ≤ i < Py.len l → ∃ a, l !! Z.to_nat i = Some a ∧ Py.index l i = Done a.
Proof.
  intros Hi. unfold Py.len in Hi. unfold Py.index.
  destruct (lookup_lt_is_Some_2 l (Z.to_nat i)) as [a Ha]; [lia|].
  exists a. split; [done|]. cbv zeta.
  destruct (decide (i < 0)); [lia|].
  destruct (decide (0 ≤ i < Z.of_nat (length l))); [|lia]. by rewrite Ha.
Qed.

(** ** is_safe *)

Lemma is_safe_done m x y : Bloxorz.is_safe m x y = Done (safe m x y).
Proof.
  unfold Bloxorz.is_safe, safe, cell.
  destruct (decide (Py.len m > y ∧ y >= 0)) as [Hy|Hy].
  - destruct (index_in_range m y) as (row & Hrow & ->); [lia|]. cbn.
    destruct (decide (Py.len row > x ∧ x >= 0)) as [Hx|Hx].
    + destruct (index_in_range row x) as (c & Hc & ->); [lia|]. cbn.
      rewrite decide_True by lia. rewrite Hrow. cbn. by rewrite Hc.
    + destruct (decide (0 ≤ x ∧ 0 ≤ y)) as [H0|]; [|done].
      rewrite Hrow. cbn.
      rewrite (lookup_ge_None_2 row); [done|]. unfold Py.len in Hx. lia.
  - destruct (decide (0 ≤ x ∧ 0 ≤ y)) as [H0|]; [|done].
    rewrite (lookup_ge_None_2 m); [done|]. unfold Py.len in Hy. lia.
Qed.

Lemma cell_in_range m x y c width :
  rectangular m width → cell m x y = Some c → 0 ≤ x < width ∧ 0 ≤ y < Py.len m.
Proof.
  unfold cell, rectangular. intros Hrect Hc.
  destruct (decide (0 ≤ x ∧ 0 ≤ y)); [|done].
  destruct (m !! Z.to_nat y) as [row|] eqn:Hrow; [|done]. cbn in Hc.
  apply lookup_lt_Some in Hc. pose proof (lookup_lt_Some _ _ _ Hrow).
  rewrite Forall_lookup in Hrect. specialize (Hrect _ _ Hrow). cbn in Hrect.
  unfold Py.len in *. lia.
Qed.

(** C8.  On a rectangular board of width [width], for all integers [x] and
    [y], [is_safe] returns (it never raises), and it returns true exactly
    when [0 <= x < width], [0 <= y < height] and the character of row [y],
    column [x] is 'O' or 'G'. *)
Theorem C8_is_safe_iff m width x y :
  rectangular m width →
  ∃ b, Bloxorz.is_safe m x y = Done b
       ∧ (b = true ↔
            0 ≤ x < width ∧ 0 ≤ y < Py.len m
            ∧ ∃ c, cell m x y = Some c ∧ (c = "O"%char ∨ c = "G"%char)).
Proof.
  intros Hrect. exists (safe m x y). split; [apply is_safe_done|].
  unfold safe. destruct (cell m x y) as [c|] eqn:Hc.
  - rewrite orb_true_iff, !bool_decide_eq_true. split.
    + intros Hs. destruct (cell_in_range _ _ _ _ _ Hrect Hc). eauto.
    + intros (_ & _ & c' & [= <-] & Hs). done.
  - split; [done|]. intros (_ & _ & c' & [=] & _).
Qed.

Lemma C8_is_safe_iff_witness :
  ∃ b, Bloxorz.is_safe (board ["GOS"]) 1 0 = Done b
       ∧ (b = true ↔
            0 ≤ 1 < 3 ∧ 0 ≤ 0 < Py.len (board ["GOS"])
            ∧ ∃ c, cell (board ["GOS"]) 1 0 = Some c
                   ∧ (c = "O"%char ∨ c = "G"%char)).
Proof.
  apply (C8_is_safe_iff (board ["GOS"]) 3 1 0).
  repeat constructor.
Defined.

(** ** successors *)

Lemma successors_done m s : Bloxorz.successors m s = Done (moves m s).
Proof.
  destruct s as [x y o]. unfold Bloxorz.successors, moves, decode. cbn [State.orient State.x_cor State.y_cor].
  rewrite !is_safe_done.
  destruct (decide (o = 0)); [|destruct (decide (o = 1))];
    cbn -[safe Z.add Z.sub].
  - destruct (safe m x (y - 2)), (safe m x (y - 1)), (safe m x (y + 1)),
      (safe m x (y + 2)), (safe m (x - 2) y), (safe m (x - 1) y),
      (safe m (x + 1) y), (safe m (x + 2) y); reflexivity.
  - destruct (safe m x (y - 1)), (safe m (x + 1) (y - 1)), (safe m x (y + 1)),
      (safe m (x + 1) (y + 1)), (safe m (x - 1) y), (safe m (x + 2) y);
      reflexivity.
  - destruct (safe m x (y - 1)), (safe m x (y + 2)), (safe m (x - 1) y),
      (safe m (x - 1) (y + 1)), (safe m (x + 1) y), (safe m (x + 1) (y + 1));
      reflexivity.
Qed.

Lemma forallb_safe_iff m (cells : list (Z * Z)) :
  forallb (fun c => safe m c.1 c.2) cells = true
  ↔ ∀ c, c ∈ cells → Bloxorz.is_safe m c.1 c.2 = Done true.
Proof.
  rewrite forallb_forall. split.
  - intros H c Hc. rewrite is_safe_done. f_equal. apply H.
    by apply list_elem_of_In.
  - intros H c Hc. apply list_elem_of_In, H in Hc.
    rewrite is_safe_done in Hc. congruence.
Qed.

Lemma omap_length_le {A B} (f : A → option B) (l : list A) :
  (length (omap f l) ≤ length l)%nat.
Proof. induction l as [|a l IH]; cbn; [done|]. destruct (f a); cbn; lia. Qed.

Lemma dict_get_omap (f : Action → option (Action * State.t)) l a :
  (∀ b p, f b = Some p → p.1 = b) →
  Py.dict_get (omap f l) a
  = if decide (a ∈ l)
    then match f a with Some p => Done p.2 | None => Raise KeyError end
    else Raise KeyError.
Proof.
  intros Hf. induction l as [|b l IH]; cbn.
  { destruct (decide (a ∈ [])) as [H|]; [|done]. by apply elem_of_nil in H. }
  assert (Hcons : a ≠ b →
    (if decide (a ∈ b :: l)
     then match f a with Some p => Done p.2 | None => Raise KeyError end
     else Raise KeyError)
    = if decide (a ∈ l)
      then match f a with Some p => Done p.2 | None => Raise KeyError end
      else Raise KeyError).
  { intros Hne. destruct (decide (a ∈ l)) as [Hl|Hl], (decide (a ∈ b :: l)) as [Hc|Hc];
      try done; exfalso.
    - apply Hc. by right.
    - apply elem_of_cons in Hc as [?|?]; done. }
  destruct (f b) as [[b' t]|] eqn:Hb; cbn.
  - apply Hf in Hb as Hb'. cbn in Hb'. subst b'.
    destruct (decide (b = a)) as [->|Hne].
    + destruct (decide (a ∈ a :: l)) as [|Hc]; [by rewrite Hb|].
      exfalso. apply Hc. by left.
    + rewrite IH, Hcons; done.
  - rewrite IH. destruct (decide (a = b)) as [->|Hne].
    + rewrite Hb. destruct (decide (b ∈ b :: l)), (decide (b ∈ l)); done.
    + by rewrite Hcons.
Qed.

Lemma table_move_key m o x y a p : table_move m o x y a = Some p → p.1 = a.
Proof.
  unfold table_move. destruct (table o a x y) as [checks target].
  destruct (forallb _ _); [|done]. by intros [= <-].
Qed.

Lemma dict_get_moves m o x y a :
  Py.dict_get (omap (table_move m o x y) [U; D; L; R]) a
  = match table_move m o x y a with
    | Some p => Done p.2
    | None => Raise KeyError
    end.
Proof.
  rewrite dict_get_omap by apply table_move_key.
  rewrite decide_True; [done|]. destruct a; repeat constructor.
Qed.

(** C2.  For every state, [successors] returns (without raising) exactly
    the mapping of the table of spec section 4.2: the entries of the actions
    whose checks pass, in the order U, D, L, R, hence at most four; the
    checks of an action are the cells the block occupies after the move; an
    action is a key exactly when all of them are safe according to
    [is_safe], and its value is then the target listed in the table. *)
Theorem C2_successors_table m x y o :
  ∃ d, Bloxorz.successors m (State.mk x y (code o)) = Done d
    ∧ d = omap (table_move m o x y) [U; D; L; R]
    ∧ (length d ≤ 4)%nat
    ∧ ∀ a, let '(checks, target) := table o a x y in
        checks = footprint target.1.1 target.1.2 target.2
        ∧ ((∀ c, c ∈ checks → Bloxorz.is_safe m c.1 c.2 = Done true)
           → Py.dict_get d a = Done (table_state target))
        ∧ (¬ (∀ c, c ∈ checks → Bloxorz.is_safe m c.1 c.2 = Done true)
           → Py.dict_get d a = Raise KeyError).
Proof.
  eexists. split; [apply successors_done|].
  assert (Hd : moves m (State.mk x y (code o))
               = omap (table_move m o x y) [U; D; L; R]) by by destruct o.
  rewrite Hd. clear Hd. split; [done|]. split.
  { etrans; [apply omap_length_le|]. done. }
  intros a. pose proof (dict_get_moves m o x y a) as Hget.
  unfold table_move in Hget.
  destruct (table o a x y) as [checks target] eqn:Ht.
  split; [|rewrite <- forallb_safe_iff; split].
  - destruct o, a; injection Ht as <- <-; cbn;
      repeat match goal with
        | |- _ :: _ = _ :: _ => f_equal
        | |- (_, _) = (_, _) => f_equal
        end; lia.
  - intros Hs. by rewrite Hs in Hget.
  - intros Hs. apply not_true_is_false in Hs. by rewrite Hs in Hget.
Qed.

(** ** State keys *)

Lemma hash_inj xSize ySize s1 s2 :
  0 ≤ State.x_cor s1 < xSize → 0 ≤ State.y_cor s1 < ySize →
  0 ≤ State.x_cor s2 < xSize → 0 ≤ State.y_cor s2 < ySize →
  State.hash xSize ySize s1 = State.hash xSize ySize s2 → s1 = s2.
Proof.
  destruct s1 as [x1 y1 o1], s2 as [x2 y2 o2]. unfold State.hash. cbn.
  intros Hx1 Hy1 Hx2 Hy2 Hh.
  assert (Hq : ySize * o1 + y1 = ySize * o2 + y2 ∧ x1 = x2).
  { apply (Z.div_mod_unique xSize); [lia..|]. lia. }
  destruct Hq as [Hq ->].
  assert (Ho : o1 = o2 ∧ y1 = y2).
  { apply (Z.div_mod_unique ySize); [lia..|]. lia. }
  by destruct Ho as [-> ->].
Qed.

Lemma eq_iff_hash xSize ySize s1 s2 :
  State.eq xSize ySize s1 s2 = true
  ↔ State.hash xSize ySize s1 = State.hash xSize ySize s2.
Proof. unfold State.eq. apply Z.eqb_eq. Qed.

Lemma eq_iff xSize ySize s1 s2 :
  valid xSize ySize s1 → valid xSize ySize s2 →
  State.eq xSize ySize s1 s2 = true ↔ s1 = s2.
Proof.
  intros (? & ? & _) (? & ? & _). rewrite eq_iff_hash. split.
  - by apply hash_inj.
  - by intros ->.
Qed.

(** C9.  [State.__eq__] and the key [State.__hash__] are functions of the
    triple alone, and on the valid domain ([0 <= x < xSize],
    [0 <= y < ySize], orientation 0, 1 or 2) two states are equal for
    [__eq__], equivalently have equal keys
    [ySize*xSize*orient + xSize*y + x], exactly when their triples are
    equal. *)
Theorem C9_state_key_collision_free xSize ySize x1 y1 o1 x2 y2 o2 :
  valid xSize ySize (State.mk x1 y1 o1) →
  valid xSize ySize (State.mk x2 y2 o2) →
  State.hash xSize ySize (State.mk x1 y1 o1) = ySize * xSize * o1 + xSize * y1 + x1
  ∧ (State.eq xSize ySize (State.mk x1 y1 o1) (State.mk x2 y2 o2) = true
     ↔ State.hash xSize ySize (State.mk x1 y1 o1)
       = State.hash xSize ySize (State.mk x2 y2 o2))
  ∧ (State.eq xSize ySize (State.mk x1 y1 o1) (State.mk x2 y2 o2) = true
     ↔ (x1, y1, o1) = (x2, y2, o2)).
Proof.
  intros H1 H2. split; [done|]. split; [apply eq_iff_hash|].
  rewrite eq_iff by done. split; intros [=]; by subst.
Qed.

Lemma C9_state_key_collision_free_witness :
  State.hash 3 2 (State.mk 2 1 1) = 2 * 3 * 1 + 3 * 1 + 2
  ∧ (State.eq 3 2 (State.mk 2 1 1) (State.mk 0 0 2) = true
     ↔ State.hash 3 2 (State.mk 2 1 1) = State.hash 3 2 (State.mk 0 0 2))
  ∧ (State.eq 3 2 (State.mk 2 1 1) (State.mk 0 0 2) = true
     ↔ (2, 1, 1) = (0, 0, 2)).
Proof.
  apply (C9_state_key_collision_free 3 2 2 1 1 0 0 2);
    unfold valid; cbn; lia.
Defined.

(** ** heuristic *)

Lemma heuristic_hval goal s : Bloxorz.heuristic (Some goal) s = Done (hval goal s).
Proof. by destruct goal. Qed.

Lemma h3_nonneg g s : 0 ≤ h3 g s.
Proof. unfold h3. lia. Qed.

Lemma truediv_3 (a : Z) :
  0 ≤ a →
  ∃ A, (A * 3 == inject_Z a)%Q ∧ (0 <= A)%Q
       ∧ Float.truediv a 3 = Float.round A.
Proof.
  intros Ha. exists (inject_Z a / inject_Z 3)%Q. split; [|split; [|done]].
  - change (inject_Z 3) with 3%Q. field.
  - apply Qle_shift_div_l; [done|]. rewrite Qmult_0_l.
    change 0%Q with (inject_Z 0). by rewrite <- Zle_Qle.
Qed.

(** The value of [heuristic] is a third of the distance to the goal up to
    the relative error 2^-51 of its three roundings (2251799813685248 is
    2^51). *)
Lemma hval_error g s :
  (- ((h3 g s # 3) * (1 # 2251799813685248)) <= hval g s - (h3 g s # 3))%Q
  ∧ (hval g s - (h3 g s # 3) <= (h3 g s # 3) * (1 # 2251799813685248))%Q.
Proof.
  unfold hval, h3, Float.add.
  set (a := Z.abs (g.1 - State.x_cor s)). set (b := Z.abs (g.2 - State.y_cor s)).
  destruct (truediv_3 a ltac:(lia)) as (A & HA & HA0 & ->).
  destruct (truediv_3 b ltac:(lia)) as (B & HB & HB0 & ->).
  destruct (round_error A HA0) as [HA1 HA2].
  destruct (round_error B HB0) as [HB1 HB2].
  pose proof (round_nonneg A HA0). pose proof (round_nonneg B HB0).
  destruct (round_error (Float.round A + Float.round B)) as [HS1 HS2]; [lra|].
  assert (HE : ((a + b # 3) * 3 == inject_Z a + inject_Z b)%Q).
  { rewrite Qmake_Qdiv, inject_Z_plus. change (inject_Z 3) with 3%Q. field. }
  set (E := (a + b # 3)%Q) in *. lra.
Qed.

Lemma hval_nonneg g s : (0 <= hval g s)%Q.
Proof.
  unfold hval, Float.add.
  destruct (truediv_3 (Z.abs (g.1 - State.x_cor s)) ltac:(lia)) as (A & _ & HA0 & ->).
  destruct (truediv_3 (Z.abs (g.2 - State.y_cor s)) ltac:(lia)) as (B & _ & HB0 & ->).
  pose proof (round_nonneg A HA0). pose proof (round_nonneg B HB0).
  apply round_nonneg. lra.
Qed.

Lemma h3_third g s : ((h3 g s # 3) * 3 == inject_Z (h3 g s))%Q.
Proof. rewrite Qmake_Qdiv. change (inject_Z 3) with 3%Q. field. Qed.

(** C7, as stated, fails: at distance 1 from the goal the value of
    [heuristic] is the binary64 number nearest to 1/3, not 1/3. *)
Lemma C7_counterexample :
  ∃ h, Bloxorz.heuristic (Some (3, 0)) (State.mk 2 0 0) = Done h
    ∧ ¬ (h == (Z.abs (3 - 2) # 3) + (Z.abs (0 - 0) # 3))%Q.
Proof.
  eexists. split; [reflexivity|]. vm_compute. discriminate.
Qed.

(** C7, amended.  While the distances are below 2^1000 (beyond that the
    range of binary64 ends), [heuristic] returns a float [h]: the two
    quotients [|goalX - x| / 3] and [|goalY - y| / 3] rounded to binary64,
    added, and rounded again.  Its relative error to the exact
    [|goalX - x| / 3 + |goalY - y| / 3] is at most 2^-51, so it is not the
    floor quotient; it is the same for every orientation; and it is 0
    exactly at the goal position, whatever the orientation. *)
Theorem C7_heuristic_value goalX goalY x y o :
  Z.abs (goalX - x) ≤ 2 ^ 1000 → Z.abs (goalY - y) ≤ 2 ^ 1000 →
  let exact := ((Z.abs (goalX - x) # 3) + (Z.abs (goalY - y) # 3))%Q in
  ∃ h, Bloxorz.heuristic (Some (goalX, goalY)) (State.mk x y o) = Done h
    ∧ h = Float.add (Float.truediv (Z.abs (goalX - x)) 3)
                    (Float.truediv (Z.abs (goalY - y)) 3)
    ∧ (- (exact * (1 # 2251799813685248)) <= h - exact)%Q
    ∧ (h - exact <= exact * (1 # 2251799813685248))%Q
    ∧ (∀ o', Bloxorz.heuristic (Some (goalX, goalY)) (State.mk x y o') = Done h)
    ∧ ((h == 0)%Q ↔ (x, y) = (goalX, goalY)).
Proof.
  intros _ _ exact. eexists. split; [done|]. split; [done|].
  destruct (hval_error (goalX, goalY) (State.mk x y o)) as [H1 H2].
  pose proof (h3_third (goalX, goalY) (State.mk x y o)) as H3.
  unfold hval, h3 in H1, H2, H3. cbn [fst snd State.x_cor State.y_cor] in H1, H2, H3.
  set (h := Float.add _ _) in *.
  assert (He : (exact * 3
                == inject_Z (Z.abs (goalX - x) + Z.abs (goalY - y)))%Q).
  { unfold exact. rewrite !Qmake_Qdiv, inject_Z_plus.
    change (inject_Z 3) with 3%Q. field. }
  set (d := Z.abs (goalX - x) + Z.abs (goalY - y)) in *.
  set (E := (d # 3)%Q) in *.
  assert (HEe : (E == exact)%Q) by lra.
  split; [lra|]. split; [lra|]. split; [done|]. split.
  - intros Hh. assert (Hd : (inject_Z d <= 0)%Q) by lra.
    change 0%Q with (inject_Z 0) in Hd. rewrite <- Zle_Qle in Hd.
    f_equal; lia.
  - intros [= -> ->]. assert (Hd : d = 0) by (unfold d; lia).
    assert (HE0 : (E == 0)%Q) by (unfold E; by rewrite Hd).
    lra.
Qed.

Lemma C7_heuristic_value_witness :
  let exact := ((Z.abs (3 - 2) # 3) + (Z.abs (0 - 0) # 3))%Q in
  ∃ h, Bloxorz.heuristic (Some (3, 0)) (State.mk 2 0 1) = Done h
    ∧ h = Float.add (Float.truediv (Z.abs (3 - 2)) 3)
                    (Float.truediv (Z.abs (0 - 0)) 3)
    ∧ (- (exact * (1 # 2251799813685248)) <= h - exact)%Q
    ∧ (h - exact <= exact * (1 # 2251799813685248))%Q
    ∧ (∀ o', Bloxorz.heuristic (Some (3, 0)) (State.mk 2 0 o') = Done h)
    ∧ ((h == 0)%Q ↔ (2, 0) = (3, 0)).
Proof. apply (C7_heuristic_value 3 0 2 0 1); vm_compute; discriminate. Defined.

(** ** Edges of the search graph *)

Lemma moves_get m s a :
  Py.dict_get (moves m s) a
  = match table_move m (decode (State.orient s)) (State.x_cor s)
            (State.y_cor s) a with
    | Some p => Done p.2
    | None => Raise KeyError
    end.
Proof. apply dict_get_moves. Qed.

Lemma step_table m s a s' :
  step m s a s'
  ↔ table_move m (decode (State.orient s)) (State.x_cor s) (State.y_cor s) a
    = Some (a, s').
Proof.
  unfold step. rewrite successors_done. split.
  - intros (d & Hd & Hget). assert (d = moves m s) as -> by congruence.
    rewrite moves_get in Hget.
    destruct (table_move _ _ _ _ a) as [p|] eqn:Hp; [|done].
    apply table_move_key in Hp as Hk. destruct p; cbn in *. congruence.
  - intros Hm. eexists. split; [done|]. by rewrite moves_get, Hm.
Qed.

Lemma step_det m s a s1 s2 : step m s a s1 → step m s a s2 → s1 = s2.
Proof. rewrite !step_table. congruence. Qed.

(** The top-left cell of a successor is safe, its orientation is one of the
    three codes, and a move changes the distance to the goal by at most 2. *)
Lemma step_facts m s a s' goal :
  step m s a s' →
  safe m (State.x_cor s') (State.y_cor s') = true
  ∧ (State.orient s' = 0 ∨ State.orient s' = 1 ∨ State.orient s' = 2)
  ∧ h3 goal s ≤ 2 + h3 goal s'.
Proof.
  rewrite step_table. destruct s as [x y o]. unfold table_move, h3. cbn.
  destruct (decode o), a; cbn -[safe Z.add Z.sub];
    intros Hm; repeat case_match; try done;
    injection Hm as <-; cbn;
    repeat match goal with H : _ && _ = true |- _ => apply andb_prop in H as [? ?] end;
    (split; [done|split; [lia|lia]]).
Qed.




(** ** heapq *)

Lemma lt_true_le a b : Node.lt a b = true → node_le a b.
Proof.
  unfold Node.lt, node_le. destruct (_ ?= _)%Q eqn:E; try done.
  intros _. apply Qlt_le_weak. by apply Qlt_alt.
Qed.

Lemma lt_false_le a b : Node.lt a b = false → node_le b a.
Proof.
  unfold Node.lt, node_le. intros H. apply Qnot_lt_le. rewrite Qlt_alt.
  by destruct (_ ?= _)%Q.
Qed.

Lemma node_le_refl a : node_le a a.
Proof. apply Qle_refl. Qed.

Lemma node_le_trans a b c : node_le a b → node_le b c → node_le a c.
Proof. apply Qle_trans. Qed.

Lemma le_opt_trans a b c : le_opt a (Some b) → le_opt (Some b) c → le_opt a c.
Proof. destruct a, c; cbn; eauto using node_le_trans. Qed.

Lemma le_opt_None_r a : le_opt a None.
Proof. by destruct a. Qed.

Lemma parent_lt i : (0 < i)%nat → (parent i < i)%nat.
Proof. unfold parent. lia. Qed.

Lemma parent_children c pos :
  (0 < c)%nat → parent c = pos → c = (2 * pos + 1)%nat ∨ c = (2 * pos + 2)%nat.
Proof. unfold parent. lia. Qed.

(** Exchanging two entries of a list permutes it. *)
Lemma insert_perm_cons {A} (l : list A) j x y :
  l !! j = Some y → y :: <[j := x]> l ≡ₚ x :: l.
Proof.
  revert j. induction l as [|a l IH]; intros [|j] Hj; try done; cbn in *.
  - injection Hj as ->. apply perm_swap.
  - rewrite (perm_swap a y), IH by done. apply perm_swap.
Qed.

Lemma insert_swap_perm {A} (l : list A) i j x y :
  i ≠ j → l !! i = Some x → l !! j = Some y →
  <[i := y]> (<[j := x]> l) ≡ₚ l.
Proof.
  revert i j. induction l as [|a l IH]; intros [|i] [|j] Hne Hi Hj;
    try done; cbn in *.
  - injection Hi as ->. by apply insert_perm_cons.
  - injection Hj as ->. by apply insert_perm_cons.
  - f_equiv. apply IH; [congruence|done..].
Qed.

(** The hole-passing step of both loops, seen on the list with the new
    item written into the hole. *)
Lemma hole_step_perm (heap : list Node.t) pos c newitem x :
  pos ≠ c → (pos < length heap)%nat → heap !! c = Some x →
  <[c := newitem]> (<[pos := x]> heap) ≡ₚ <[pos := newitem]> heap.
Proof.
  intros Hne Hpos Hc.
  rewrite <- (list_insert_insert_eq heap pos x newitem).
  apply insert_swap_perm; [done|..].
  - by rewrite list_lookup_insert_ne.
  - by rewrite list_lookup_insert_eq.
Qed.

Lemma hole_step_lookup (heap : list Node.t) pos c newitem x k :
  pos ≠ c → (pos < length heap)%nat → heap !! c = Some x →
  <[c := newitem]> (<[pos := x]> heap) !! k
  = if decide (k = c) then Some newitem
    else if decide (k = pos) then Some x
    else <[pos := newitem]> heap !! k.
Proof.
  intros Hne Hpos Hc. apply lookup_lt_Some in Hc as Hlt.
  destruct (decide (k = c)) as [->|].
  { by rewrite list_lookup_insert_eq by (by rewrite length_insert). }
  rewrite list_lookup_insert_ne by done.
  destruct (decide (k = pos)) as [->|].
  { by rewrite list_lookup_insert_eq. }
  by rewrite !list_lookup_insert_ne.
Qed.

Lemma swim_step (V V' : list Node.t) pos n q :
  (0 < pos)%nat → V !! pos = Some n → V !! parent pos = Some q →
  node_le n q →
  (∀ k, V' !! k = if decide (k = parent pos) then Some n
                  else if decide (k = pos) then Some q else V !! k) →
  hole_ok V pos → below_ok V pos →
  hole_ok V' (parent pos) ∧ below_ok V' (parent pos).
Proof.
  intros Hpos Hn Hq Hnq HV' [Hh1 Hh2] Hb.
  pose proof (parent_lt pos Hpos) as Hlt.
  specialize (Hh2 Hpos).
  assert (Hp : (0 < parent pos)%nat → le_opt (V !! parent (parent pos)) (Some q)).
  { intros H0. rewrite <- Hq. apply Hh1; [done|lia|].
    pose proof (parent_lt _ H0). lia. }
  split; [split|].
  - intros i Hi Hne1 Hne2. rewrite !HV'.
    pose proof (parent_lt i Hi).
    rewrite (decide_False (P := i = parent pos)) by done.
    rewrite (decide_False (P := parent i = parent pos)) by done.
    destruct (decide (i = pos)) as [->|]; [done|].
    destruct (decide (parent i = pos)) as [Hc|].
    + rewrite <- Hq. by apply Hh2.
    + by apply Hh1.
  - intros H0 c Hc Hpc. rewrite !HV'.
    pose proof (parent_lt _ H0).
    rewrite (decide_False (P := parent (parent pos) = parent pos)) by lia.
    rewrite (decide_False (P := parent (parent pos) = pos)) by lia.
    rewrite (decide_False (P := c = parent pos)) by (pose proof (parent_lt c Hc); lia).
    destruct (decide (c = pos)) as [->|]; [by apply Hp|].
    apply (le_opt_trans _ q); [by apply Hp|].
    rewrite <- Hq, <- Hpc. apply Hh1; [done..|lia].
  - intros c Hc Hpc. rewrite !HV'.
    rewrite (decide_True (P := parent pos = parent pos)) by done.
    rewrite (decide_False (P := c = parent pos)) by (pose proof (parent_lt c Hc); lia).
    destruct (decide (c = pos)) as [->|]; [done|].
    apply (le_opt_trans _ q); [done|].
    rewrite <- Hq, <- Hpc. apply Hh1; [done..|lia].
Qed.

Lemma sink_step (V V' : list Node.t) pos c n x :
  (0 < c)%nat → parent c = pos → V !! pos = Some n → V !! c = Some x →
  (∀ k, (0 < k)%nat → parent k = pos → le_opt (Some x) (V !! k)) →
  (∀ k, V' !! k = if decide (k = c) then Some n
                  else if decide (k = pos) then Some x else V !! k) →
  hole_ok V pos → hole_ok V' c.
Proof.
  intros Hc Hpc Hn Hx Hmin HV' [Hh1 Hh2].
  pose proof (parent_lt c Hc) as Hlt.
  split.
  - intros i Hi Hne1 Hne2. rewrite !HV'.
    pose proof (parent_lt i Hi).
    rewrite (decide_False (P := i = c)) by done.
    rewrite (decide_False (P := parent i = c)) by done.
    destruct (decide (i = pos)) as [->|].
    + rewrite (decide_False (P := parent pos = pos)) by lia.
      rewrite <- Hx. apply Hh2; [lia|done..].
    + destruct (decide (parent i = pos)) as [Hpi|].
      * by apply Hmin.
      * by apply Hh1.
  - intros _ k Hk Hpk. rewrite !HV'. rewrite Hpc.
    pose proof (parent_lt k Hk).
    rewrite (decide_False (P := pos = c)) by lia.
    rewrite (decide_True (P := pos = pos)) by done.
    rewrite (decide_False (P := k = c)) by lia.
    rewrite (decide_False (P := k = pos)) by lia.
    rewrite <- Hx, <- Hpk. apply Hh1; [done|lia|lia].
Qed.

Lemma hole_closed (V : list Node.t) pos :
  hole_ok V pos → below_ok V pos →
  ((0 < pos)%nat → le_opt (V !! parent pos) (V !! pos)) →
  heap_ok V.
Proof.
  intros [Hh1 _] Hb Hp i Hi.
  destruct (decide (i = pos)) as [->|]; [by apply Hp|].
  destruct (decide (parent i = pos)) as [<-|]; [by apply Hb|].
  by apply Hh1.
Qed.

Lemma siftdown_loop_S fuel (heap : list Node.t) newitem startpos pos :
  heapq._siftdown_loop (S fuel) heap newitem startpos pos
  = if decide (startpos < pos)%nat then
      match heap !! parent pos with
      | Some q =>
          if Node.lt newitem q
          then heapq._siftdown_loop fuel (<[pos := q]> heap) newitem startpos
                 (parent pos)
          else <[pos := newitem]> heap
      | None => <[pos := newitem]> heap
      end
    else <[pos := newitem]> heap.
Proof. reflexivity. Qed.

Lemma siftup_loop_S fuel (heap : list Node.t) endpos pos :
  heapq._siftup_loop (S fuel) heap endpos pos
  = if decide (2 * pos + 1 < endpos)%nat then
      let c := if bool_decide (2 * pos + 1 + 1 < endpos)%nat
                  && negb (heapq.lt_at heap (2 * pos + 1) (2 * pos + 1 + 1))
               then (2 * pos + 1 + 1)%nat else (2 * pos + 1)%nat in
      match heap !! c with
      | Some x => heapq._siftup_loop fuel (<[pos := x]> heap) endpos c
      | None => (heap, pos)
      end
    else (heap, pos).
Proof. reflexivity. Qed.

Lemma siftdown_loop_spec fuel (heap : list Node.t) newitem pos :
  (pos ≤ fuel)%nat → (pos < length heap)%nat →
  hole_ok (<[pos := newitem]> heap) pos →
  below_ok (<[pos := newitem]> heap) pos →
  heap_ok (heapq._siftdown_loop fuel heap newitem 0 pos).
Proof.
  revert heap pos. induction fuel as [|fuel IH]; intros heap pos Hfuel Hpos Hh Hb.
  { cbn. apply (hole_closed _ pos); [done..|lia]. }
  rewrite siftdown_loop_S. destruct (decide (0 < pos)%nat) as [H0|H0].
  2: { apply (hole_closed _ pos); [done..|lia]. }
  pose proof (parent_lt pos H0) as Hlt.
  destruct (lookup_lt_is_Some_2 heap (parent pos)) as [q Hq]; [lia|].
  rewrite Hq.
  assert (HVq : <[pos := newitem]> heap !! parent pos = Some q).
  { rewrite list_lookup_insert_ne by lia. done. }
  assert (HVn : <[pos := newitem]> heap !! pos = Some newitem).
  { by rewrite list_lookup_insert_eq. }
  destruct (Node.lt newitem q) eqn:Hlt'.
  - destruct (swim_step (<[pos := newitem]> heap)
                (<[parent pos := newitem]> (<[pos := q]> heap)) pos newitem q)
      as [Hh' Hb']; try done.
    { by apply lt_true_le. }
    { intros k. apply hole_step_lookup; [lia|done..]. }
    apply IH; [lia|rewrite length_insert; lia|done..].
  - apply (hole_closed _ pos); [done..|].
    intros _. rewrite HVq, HVn. by apply lt_false_le.
Qed.

Lemma siftdown_loop_perm fuel (heap : list Node.t) newitem startpos pos :
  (pos < length heap)%nat →
  heapq._siftdown_loop fuel heap newitem startpos pos ≡ₚ <[pos := newitem]> heap.
Proof.
  revert heap pos. induction fuel as [|fuel IH]; intros heap pos Hpos; [done|].
  rewrite siftdown_loop_S. destruct (decide (startpos < pos)%nat) as [H0|]; [|done].
  assert (Hlt : (parent pos < pos)%nat) by (apply parent_lt; lia).
  destruct (lookup_lt_is_Some_2 heap (parent pos)) as [q Hq]; [lia|].
  rewrite Hq. destruct (Node.lt newitem q); [|done].
  rewrite IH by (rewrite length_insert; lia).
  apply hole_step_perm; [lia|done..].
Qed.

Lemma siftup_loop_perm fuel (heap : list Node.t) newitem pos :
  (pos < length heap)%nat →
  ∃ heap' pos',
    heapq._siftup_loop fuel heap (length heap) pos = (heap', pos')
    ∧ (pos' < length heap')%nat
    ∧ <[pos' := newitem]> heap' ≡ₚ <[pos := newitem]> heap.
Proof.
  revert heap pos. induction fuel as [|fuel IH]; intros heap pos Hpos.
  { by exists heap, pos. }
  rewrite siftup_loop_S. cbv zeta.
  destruct (decide (2 * pos + 1 < length heap)%nat) as [Hc|Hc];
    [|by exists heap, pos].
  set (c := if _ && _ then _ else _).
  assert (Hgt : (pos < c)%nat) by (unfold c; destruct (_ && _); lia).
  destruct (heap !! c) as [x|] eqn:Hx; [|by exists heap, pos].
  apply lookup_lt_Some in Hx as Hclt.
  destruct (IH (<[pos := x]> heap) c) as (heap' & pos' & Hloop & H1 & H2).
  { by rewrite length_insert. }
  rewrite length_insert in Hloop. exists heap', pos'.
  do 2 (split; [done|]). rewrite H2. apply hole_step_perm; [lia|done..].
Qed.

(** The child that moves up does not come after either child. *)
Lemma smaller_child (heap : list Node.t) (l r : nat) x :
  heap !! (if bool_decide (r < length heap)%nat && negb (heapq.lt_at heap l r)
           then r else l) = Some x →
  le_opt (Some x) (heap !! l) ∧ le_opt (Some x) (heap !! r).
Proof.
  unfold heapq.lt_at.
  destruct (bool_decide (r < length heap)%nat) eqn:Hbd; cbn.
  - destruct (heap !! l) as [xl|] eqn:Hl, (heap !! r) as [xr|] eqn:Hr; cbn.
    + destruct (Node.lt xl xr) eqn:Hlt; cbn.
      * rewrite Hl. intros [= <-]. split; [apply node_le_refl|].
        by apply lt_true_le.
      * rewrite Hr. intros [= <-]. split; [|apply node_le_refl].
        by apply lt_false_le.
    + rewrite Hr. done.
    + rewrite Hr. intros [= <-]. split; [done|apply node_le_refl].
    + by rewrite Hr.
  - apply bool_decide_eq_false in Hbd. intros Hl.
    rewrite Hl, (lookup_ge_None_2 heap r) by lia.
    split; [apply node_le_refl|done].
Qed.

Lemma siftup_loop_spec fuel (heap : list Node.t) newitem pos :
  (length heap - pos ≤ fuel)%nat → (pos < length heap)%nat →
  hole_ok (<[pos := newitem]> heap) pos →
  ∃ heap' pos',
    heapq._siftup_loop fuel heap (length heap) pos = (heap', pos')
    ∧ (pos' < length heap')%nat
    ∧ hole_ok (<[pos' := newitem]> heap') pos'
    ∧ below_ok (<[pos' := newitem]> heap') pos'.
Proof.
  revert heap pos. induction fuel as [|fuel IH]; intros heap pos Hfuel Hpos Hh.
  { lia. }
  rewrite siftup_loop_S. cbv zeta.
  destruct (decide (2 * pos + 1 < length heap)%nat) as [Hc|Hc].
  2: { exists heap, pos. do 3 (split; [done|]).
       intros c H0 Hpc.
       rewrite (lookup_ge_None_2 (<[pos:=newitem]> heap) c);
         [apply le_opt_None_r|].
       rewrite length_insert.
       destruct (parent_children c pos H0 Hpc) as [->| ->]; lia. }
  set (c := if bool_decide (2 * pos + 1 + 1 < length heap)%nat
               && negb (heapq.lt_at heap (2 * pos + 1) (2 * pos + 1 + 1))
            then (2 * pos + 1 + 1)%nat else (2 * pos + 1)%nat).
  assert (Hcr : (c < length heap)%nat ∧ parent c = pos ∧ (0 < c)%nat).
  { unfold c. destruct (_ && _) eqn:Hbd; unfold parent; [|lia].
    apply andb_prop in Hbd as [Hbd%bool_decide_eq_true _]. lia. }
  destruct Hcr as (Hclt & Hpc & Hc0).
  destruct (lookup_lt_is_Some_2 heap c) as [x Hx]; [lia|]. rewrite Hx.
  set (V := <[pos := newitem]> heap).
  assert (Hmin : ∀ k, (0 < k)%nat → parent k = pos → le_opt (Some x) (V !! k)).
  { intros k Hk Hpk. unfold V.
    rewrite list_lookup_insert_ne by (unfold parent in Hpk; lia).
    destruct (smaller_child heap (2 * pos + 1) (2 * pos + 1 + 1) x) as [Hl Hr];
      [done|].
    destruct (parent_children k pos Hk Hpk) as [->| ->]; [done|].
    by replace (2 * pos + 2)%nat with (2 * pos + 1 + 1)%nat by lia. }
  assert (Hgt : (pos < c)%nat) by (pose proof (parent_lt c Hc0); lia).
  assert (Hne : pos ≠ c) by lia.
  pose proof (sink_step V (<[c := newitem]> (<[pos := x]> heap)) pos c newitem x)
    as Hstep.
  destruct (IH (<[pos := x]> heap) c) as (heap' & pos' & Hloop & H1 & H2 & H3).
  { rewrite length_insert. lia. }
  { by rewrite length_insert. }
  { apply Hstep; try done.
    - unfold V. by rewrite list_lookup_insert_eq.
    - unfold V. by rewrite list_lookup_insert_ne.
    - intros k. by apply hole_step_lookup. }
  rewrite length_insert in Hloop.
  by exists heap', pos'.
Qed.

Lemma heap_ok_take (heap : list Node.t) n : heap_ok heap → heap_ok (take n heap).
Proof.
  intros Hok i Hi. pose proof (parent_lt i Hi).
  destruct (decide (i < n)%nat).
  - rewrite !lookup_take_lt by lia. by apply Hok.
  - rewrite (lookup_take_ge heap n i) by lia. apply le_opt_None_r.
Qed.

(** The root of a heap comes before no other entry. *)
Lemma heap_root_min (heap : list Node.t) r :
  heap_ok heap → heap !! 0%nat = Some r → ∀ i x, heap !! i = Some x → node_le r x.
Proof.
  intros Hok Hr i. induction (lt_wf i) as [i _ IH]. intros x Hx.
  destruct (decide (i = 0%nat)) as [->|Hi].
  { rewrite Hr in Hx. injection Hx as <-. apply node_le_refl. }
  assert (Hlt : (parent i < i)%nat) by (apply parent_lt; lia).
  apply lookup_lt_Some in Hx as Hlen.
  destruct (lookup_lt_is_Some_2 heap (parent i)) as [p Hp]; [lia|].
  apply (node_le_trans _ p); [by apply (IH (parent i))|].
  specialize (Hok i). rewrite Hp, Hx in Hok. apply Hok. lia.
Qed.

Lemma heappush_perm heap item : heapq.heappush heap item ≡ₚ item :: heap.
Proof.
  unfold heapq.heappush, heapq._siftdown. rewrite length_app. cbn.
  replace (length heap + 1 - 1)%nat with (length heap) by lia.
  rewrite list_lookup_middle by done.
  rewrite siftdown_loop_perm by (rewrite length_app; cbn; lia).
  rewrite list_insert_id by (by apply list_lookup_middle).
  by rewrite Permutation_app_comm.
Qed.

Lemma heappush_ok heap item : heap_ok heap → heap_ok (heapq.heappush heap item).
Proof.
  intros Hok. unfold heapq.heappush, heapq._siftdown. rewrite length_app. cbn.
  replace (length heap + 1 - 1)%nat with (length heap) by lia.
  rewrite list_lookup_middle by done.
  assert (Hno : ∀ c, (length heap < c)%nat → (heap ++ [item]) !! c = None).
  { intros c Hc. apply lookup_ge_None_2. rewrite length_app. cbn. lia. }
  assert (Hkid : ∀ c, (0 < c)%nat → parent c = length heap
                      → (heap ++ [item]) !! c = None).
  { intros c Hc Hpc. apply Hno. pose proof (parent_lt c Hc). lia. }
  apply siftdown_loop_spec; [done|rewrite length_app; cbn; lia|..];
    rewrite list_insert_id by (by apply list_lookup_middle).
  - split.
    + intros i Hi Hne _. pose proof (parent_lt i Hi).
      destruct (decide (i < length heap)%nat).
      * rewrite !lookup_app_l by lia. by apply Hok.
      * rewrite (Hno i) by lia. apply le_opt_None_r.
    + intros _ c Hc Hpc. rewrite (Hkid c) by done. apply le_opt_None_r.
  - intros c Hc Hpc. rewrite (Hkid c) by done. apply le_opt_None_r.
Qed.

Lemma heappop_nil : heapq.heappop [] = Raise IndexError.
Proof. reflexivity. Qed.

Lemma heappop_snoc front lastelt :
  heapq.heappop (front ++ [lastelt])
  = match front with
    | returnitem :: _ =>
        Done (returnitem, heapq._siftup (<[0%nat := lastelt]> front) 0)
    | [] => Done (lastelt, [])
    end.
Proof.
  unfold heapq.heappop. rewrite last_snoc, length_app. cbn.
  replace (length front + 1 - 1)%nat with (length front) by lia.
  rewrite take_app_length. by destruct front.
Qed.

Lemma siftup_root_perm front :
  heapq._siftup front 0 ≡ₚ front.
Proof.
  unfold heapq._siftup. destruct (front !! 0%nat) as [newitem|] eqn:H0; [|done].
  apply lookup_lt_Some in H0 as Hlen.
  destruct (siftup_loop_perm (length front) front newitem 0 Hlen)
    as (heap' & pos' & -> & Hpos' & Hperm).
  unfold heapq._siftdown.
  rewrite list_lookup_insert_eq by done.
  rewrite siftdown_loop_perm by (by rewrite length_insert).
  rewrite list_insert_insert_eq, Hperm. by rewrite list_insert_id.
Qed.

Lemma siftup_root_ok front :
  hole_ok front 0 → heap_ok (heapq._siftup front 0).
Proof.
  intros Hh. unfold heapq._siftup.
  destruct (front !! 0%nat) as [newitem|] eqn:H0.
  2: { apply lookup_ge_None in H0. intros i _.
       rewrite (lookup_ge_None_2 front i) by lia. apply le_opt_None_r. }
  apply lookup_lt_Some in H0 as Hlen.
  destruct (siftup_loop_spec (length front) front newitem 0)
    as (heap' & pos' & -> & Hpos' & Hh' & Hb'); [lia|done|..].
  { by rewrite list_insert_id. }
  unfold heapq._siftdown.
  rewrite list_lookup_insert_eq by done.
  apply siftdown_loop_spec;
    [done|by rewrite length_insert|by rewrite list_insert_insert_eq..].
Qed.

(** [heappop] on a non-empty list returns one of its entries and leaves the
    others; on a heap it returns an entry that comes before no other, and
    leaves a heap. *)
Lemma heappop_spec heap :
  heap ≠ [] →
  ∃ x heap',
    heapq.heappop heap = Done (x, heap')
    ∧ heap ≡ₚ x :: heap'
    ∧ (heap_ok heap → heap_ok heap' ∧ ∀ y, y ∈ heap → node_le x y).
Proof.
  intros Hne. destruct (exists_last Hne) as (front & lastelt & ->).
  rewrite heappop_snoc. destruct front as [|r t].
  { exists lastelt, []. split; [done|]. split; [done|]. intros _. split.
    - intros i _. by rewrite lookup_nil.
    - intros y ->%list_elem_of_singleton. apply node_le_refl. }
  eexists _, _. split; [done|]. split.
  { rewrite siftup_root_perm. cbn. rewrite <- Permutation_cons_append.
    apply perm_skip. by rewrite Permutation_cons_append. }
  intros Hok. split.
  - apply siftup_root_ok. split; [|lia].
    intros i Hi _ Hp. cbn [insert list_insert].
    pose proof (parent_lt i Hi).
    specialize (Hok i Hi). destruct (decide (i < length (r :: t))%nat).
    + rewrite !lookup_app_l in Hok by lia.
      destruct i as [|i]; [lia|]. destruct (parent (S i)) as [|j] eqn:Hj; done.
    + rewrite (lookup_ge_None_2 (lastelt :: t) i) by (cbn in *; lia).
      apply le_opt_None_r.
  - intros y [i Hy]%list_elem_of_lookup. by apply (heap_root_min _ r Hok eq_refl i).
Qed.

(** ** PriorityQueue *)

Lemma not_empty_iff q :
  queue_ok q → PriorityQueue.not_empty q = true ↔ PriorityQueue.data q ≠ [].
Proof.
  unfold queue_ok, PriorityQueue.not_empty, Py.len. intros ->.
  rewrite bool_decide_eq_true. destruct (PriorityQueue.data q); cbn.
  - split; [lia|done].
  - split; [done|lia].
Qed.

Lemma push_spec q item :
  queue_ok q →
  queue_ok (PriorityQueue.push q item)
  ∧ PriorityQueue.data (PriorityQueue.push q item) ≡ₚ item :: PriorityQueue.data q
  ∧ (heap_ok (PriorityQueue.data q)
     → heap_ok (PriorityQueue.data (PriorityQueue.push q item))).
Proof.
  intros Hq. pose proof (heappush_perm (PriorityQueue.data q) item) as Hp.
  split; [|split; [done|apply heappush_ok]].
  unfold queue_ok, Py.len in *. cbn. rewrite Hp, Hq. cbn. lia.
Qed.

Lemma pop_spec q :
  queue_ok q → PriorityQueue.data q ≠ [] →
  ∃ x q',
    PriorityQueue.pop q = Done (x, q')
    ∧ queue_ok q'
    ∧ PriorityQueue.data q ≡ₚ x :: PriorityQueue.data q'
    ∧ (heap_ok (PriorityQueue.data q)
       → heap_ok (PriorityQueue.data q')
         ∧ ∀ y, y ∈ PriorityQueue.data q → node_le x y).
Proof.
  intros Hq Hne. destruct (heappop_spec _ Hne) as (x & heap' & Hpop & Hp & Hok).
  exists x, (PriorityQueue.mk heap' (PriorityQueue.counter q - 1)).
  unfold PriorityQueue.pop. rewrite Hpop. cbn.
  split; [done|]. split; [|done].
  unfold queue_ok, Py.len in *. cbn. rewrite Hq, Hp. cbn. lia.
Qed.

(** ** The loop of solve *)

Lemma same_board_trans e1 e2 e3 :
  same_board e1 e2 → same_board e2 e3 → same_board e1 e3.
Proof. unfold same_board. intros (?&?&?&?&?) (?&?&?&?&?). repeat split; congruence. Qed.

Lemma in_closed_ext e e' s :
  Bloxorz.closed e' = Bloxorz.closed e → same_board e e' →
  Bloxorz.in_closed e' s = Bloxorz.in_closed e s.
Proof. unfold Bloxorz.in_closed. intros -> (_&_&_& -> & ->). done. Qed.

Lemma new_nodes_ext e e' goal x d :
  Bloxorz.closed e' = Bloxorz.closed e → same_board e e' →
  new_nodes e' goal x d = new_nodes e goal x d.
Proof.
  intros Hc Hs. unfold new_nodes.
  induction d as [|[k s'] d IH]; cbn; [done|].
  by rewrite (in_closed_ext e e'), IH.
Qed.

Lemma new_nodes_cons e goal x key new_state d :
  new_nodes e goal x ((key, new_state) :: d)
  = if Bloxorz.in_closed e new_state then new_nodes e goal x d
    else child_node goal x key new_state :: new_nodes e goal x d.
Proof. unfold new_nodes. cbn. by destruct (Bloxorz.in_closed e new_state). Qed.

Lemma push_successors_spec e g x d :
  Bloxorz.goal e = Some g → queue_ok (Bloxorz.queue e) →
  ∃ e2,
    Bloxorz.push_successors e x d = Done e2
    ∧ same_board e e2
    ∧ Bloxorz.closed e2 = Bloxorz.closed e
    ∧ queue_ok (Bloxorz.queue e2)
    ∧ PriorityQueue.data (Bloxorz.queue e2)
        ≡ₚ new_nodes e g x d ++ PriorityQueue.data (Bloxorz.queue e)
    ∧ (heap_ok (PriorityQueue.data (Bloxorz.queue e))
       → heap_ok (PriorityQueue.data (Bloxorz.queue e2))).
Proof.
  revert e. induction d as [|[key new_state] d IH]; intros e Hg Hq.
  { exists e. done. }
  cbn [Bloxorz.push_successors]. rewrite new_nodes_cons.
  destruct (Bloxorz.in_closed e new_state) eqn:Hin; cbn [negb].
  { apply IH; done. }
  rewrite Hg, heuristic_hval. cbn [mbind run_bind].
  fold (child_node g x key new_state).
  set (e1 := Bloxorz.with_queue e _).
  destruct (push_spec (Bloxorz.queue e) (child_node g x key new_state) Hq)
    as (Hq1 & Hp1 & Hok1).
  destruct (IH e1) as (e2 & -> & Hs & Hc & Hq2 & Hp2 & Hok2); [done..|].
  exists e2. split; [done|]. split; [done|]. split; [done|]. split; [done|].
  split; [|by intros ?%Hok1%Hok2].
  rewrite Hp2. unfold e1 at 2. cbn [Bloxorz.queue Bloxorz.with_queue].
  rewrite Hp1. rewrite (new_nodes_ext e e1) by done.
  cbn. by rewrite Permutation_middle.
Qed.

Lemma is_goal_done goal s : Bloxorz.is_goal (Some goal) s = Done (at_goal goal s).
Proof.
  destruct goal as [gx gy]. unfold Bloxorz.is_goal, at_goal.
  destruct (decide (State.orient s = 0)) as [Ho|Ho].
  - by rewrite (bool_decide_eq_true_2 _ Ho).
  - by rewrite (bool_decide_eq_false_2 _ Ho).
Qed.

Lemma safe_all_states m x y o :
  safe m x y = true → o = 0 ∨ o = 1 ∨ o = 2 →
  State.mk x y o ∈ Bloxorz.all_states m.
Proof.
  unfold safe, cell. intros Hs Ho.
  destruct (decide (0 ≤ x ∧ 0 ≤ y)) as [[Hx Hy]|]; [|done].
  destruct (m !! Z.to_nat y) as [row|] eqn:Hrow; [|done]. cbn in Hs.
  destruct (row !! Z.to_nat x) as [c|] eqn:Hc; [|done].
  apply lookup_lt_Some in Hrow as Hlen, Hc as Hlen'.
  unfold Bloxorz.all_states. apply list_elem_of_bind. exists y. split.
  2: { apply elem_of_seqZ. unfold Py.len. lia. }
  rewrite Hrow. apply list_elem_of_bind. exists x. split.
  2: { apply elem_of_seqZ. unfold Py.len. lia. }
  destruct Ho as [->|[->| ->]]; repeat constructor.
Qed.

Lemma moves_elem m s k s' : (k, s') ∈ moves m s → step m s k s'.
Proof.
  unfold moves. intros (a & _ & Ha)%list_elem_of_omap.
  apply table_move_key in Ha as Hk. cbn in Hk. subst a.
  by apply step_table.
Qed.

Lemma moves_length m s : (length (moves m s) ≤ 4)%nat.
Proof. unfold moves. etrans; [apply omap_length_le|done]. Qed.

Lemma new_nodes_elem e goal x d n :
  n ∈ new_nodes e goal x d →
  ∃ k s', (k, s') ∈ d ∧ Bloxorz.in_closed e s' = false
          ∧ n = child_node goal x k s'.
Proof.
  unfold new_nodes. intros ([k s'] & Hin & Hn)%list_elem_of_omap.
  exists k, s'. destruct (Bloxorz.in_closed e s'); [done|].
  injection Hn as <-. done.
Qed.

Lemma new_nodes_intro e goal x d k s' :
  (k, s') ∈ d → Bloxorz.in_closed e s' = false →
  child_node goal x k s' ∈ new_nodes e goal x d.
Proof.
  intros Hin Hc. unfold new_nodes. apply list_elem_of_omap.
  exists (k, s'). by rewrite Hc.
Qed.

(** Closing a state leaves fewer open states. *)
Lemma filter_length_mono {A} (P P' : A → bool) (l : list A) :
  (∀ u, P' u = true → P u = true) →
  (length (List.filter P' l) ≤ length (List.filter P l))%nat.
Proof.
  intros Himp. induction l as [|a l IH]; cbn; [done|].
  destruct (P' a) eqn:E'.
  - rewrite (Himp _ E'). cbn. lia.
  - destruct (P a); cbn; lia.
Qed.

Lemma filter_length_lt {A} (P P' : A → bool) (l : list A) s :
  (∀ u, P' u = true → P u = true) →
  s ∈ l → P s = true → P' s = false →
  (length (List.filter P' l) < length (List.filter P l))%nat.
Proof.
  intros Himp Hin Hs Hs'. induction Hin as [s l|s a l Hin IH]; cbn.
  - rewrite Hs, Hs'. cbn. pose proof (filter_length_mono P P' l Himp). lia.
  - destruct (P' a) eqn:E'.
    + rewrite (Himp _ E'). cbn. lia.
    + destruct (P a); cbn; lia.
Qed.

Lemma in_closed_add e s u :
  Bloxorz.in_closed (Bloxorz.closed_add e s) u
  = Bloxorz.in_closed e u
    || (negb (Bloxorz.in_closed e s)
        && State.eq (Bloxorz.xSize e) (Bloxorz.ySize e) u s).
Proof.
  unfold Bloxorz.closed_add. destruct (Bloxorz.in_closed e s) eqn:Hs; cbn.
  - by rewrite orb_false_r.
  - unfold Bloxorz.in_closed. cbn. rewrite existsb_app. cbn.
    by rewrite orb_false_r.
Qed.

Lemma state_eq_refl xs ys s : State.eq xs ys s s = true.
Proof. apply Z.eqb_refl. Qed.

Lemma same_board_closed_add e s : same_board e (Bloxorz.closed_add e s).
Proof. unfold Bloxorz.closed_add. by destruct (Bloxorz.in_closed e s). Qed.

Lemma queue_closed_add e s :
  Bloxorz.queue (Bloxorz.closed_add e s) = Bloxorz.queue e.
Proof. unfold Bloxorz.closed_add. by destruct (Bloxorz.in_closed e s). Qed.

Section loop_rule.

Context (U : list State.t) (g : Z * Z).
Context (I : Bloxorz.t → Prop) (Q : Bloxorz.exit → Bloxorz.t → Prop).

Hypothesis H_empty : ∀ e,
  ready U g e → I e → PriorityQueue.data (Bloxorz.queue e) = [] →
  Q Bloxorz.ReturnEmpty e.

Hypothesis H_skip : ∀ e x q,
  ready U g e → I e → popped (Bloxorz.queue e) x q →
  Bloxorz.in_closed e (Node.state x) = true →
  I (Bloxorz.with_queue e q).

Hypothesis H_goal : ∀ e x q,
  ready U g e → I e → popped (Bloxorz.queue e) x q →
  Bloxorz.in_closed e (Node.state x) = false →
  at_goal g (Node.state x) = true →
  Q (Bloxorz.ReturnPath x) (Bloxorz.with_queue e q).

Hypothesis H_expand : ∀ e x q e2,
  ready U g e → I e → popped (Bloxorz.queue e) x q →
  Bloxorz.in_closed e (Node.state x) = false →
  at_goal g (Node.state x) = false →
  pushed g (Bloxorz.with_queue e q) x e2 →
  I (Bloxorz.closed_add e2 (Node.state x)).

Lemma solve_loop_rule fuel e :
  ready U g e → I e → (turns_left e U < fuel)%nat →
  ∃ x e', Bloxorz.solve_loop fuel e = Done (x, e')
          ∧ ready U g e' ∧ same_board e e' ∧ Q x e'.
Proof.
  revert e. induction fuel as [|fuel IH]; intros e Hr Hi Hfuel; [lia|].
  destruct Hr as (Hq & Hg & HqU & HmU).
  assert (Hr : ready U g e) by done.
  cbn [Bloxorz.solve_loop].
  destruct (PriorityQueue.not_empty (Bloxorz.queue e)) eqn:Hne.
  2: { exists Bloxorz.ReturnEmpty, e. split; [done|]. split; [done|].
       split; [done|]. apply H_empty; [done..|].
       destruct (PriorityQueue.data (Bloxorz.queue e)) eqn:Hd; [done|].
       apply not_true_iff_false in Hne. exfalso. apply Hne.
       apply not_empty_iff; [done|]. by rewrite Hd. }
  apply not_empty_iff in Hne; [|done].
  destruct (pop_spec _ Hq Hne) as (x & q & -> & Hq' & Hperm & Hmin).
  assert (Hpop : popped (Bloxorz.queue e) x q) by done.
  cbn [mbind run_bind].
  set (e1 := Bloxorz.with_queue e q).
  assert (Hxin : x ∈ PriorityQueue.data (Bloxorz.queue e)).
  { rewrite Hperm. by left. }
  assert (Hsub : ∀ n, n ∈ PriorityQueue.data q
                      → n ∈ PriorityQueue.data (Bloxorz.queue e)).
  { intros n Hn. rewrite Hperm. by right. }
  assert (Hlen : length (PriorityQueue.data (Bloxorz.queue e))
                 = S (length (PriorityQueue.data q))).
  { by rewrite Hperm. }
  change (Bloxorz.in_closed e1 (Node.state x))
    with (Bloxorz.in_closed e (Node.state x)).
  destruct (Bloxorz.in_closed e (Node.state x)) eqn:Hin; cbn [negb].
  { (* a stale duplicate *)
    destruct (IH e1) as (r & e' & -> & Hr' & Hs' & HQ).
    - split; [done|]. split; [done|]. split; [|done].
      intros n Hn. by apply HqU, Hsub.
    - by apply (H_skip e x q).
    - assert (open_count e1 U = open_count e U) as Ho by done.
      unfold turns_left in *. rewrite Ho. unfold e1.
      cbn [Bloxorz.queue Bloxorz.with_queue]. lia.
    - by exists r, e'. }
  change (Bloxorz.goal e1) with (Bloxorz.goal e).
  rewrite Hg, is_goal_done. cbn [mbind run_bind].
  destruct (at_goal g (Node.state x)) eqn:Hgoal.
  { (* the goal *)
    exists (Bloxorz.ReturnPath x), e1. split; [done|]. split.
    - split; [done|]. split; [done|]. split; [|done].
      intros n Hn. by apply HqU, Hsub.
    - split; [done|]. by apply (H_goal e x q). }
  (* expansion *)
  rewrite successors_done. cbn [mbind run_bind].
  destruct (push_successors_spec e1 g x (moves (Bloxorz.map e1) (Node.state x)))
    as (e2 & -> & Hs2 & Hc2 & Hq2 & Hp2 & Hok2); [done..|].
  cbn [mbind run_bind].
  assert (Hpush : pushed g e1 x e2) by done.
  set (e3 := Bloxorz.closed_add e2 (Node.state x)).
  assert (Hs3 : same_board e e3).
  { apply (same_board_trans _ e2); [done|apply same_board_closed_add]. }
  destruct (IH e3) as (r & e' & -> & Hr' & Hs' & HQ).
  - subst e3. split; [by rewrite queue_closed_add|].
    destruct Hs3 as (Hm3 & Hg3 & _). split; [congruence|].
    split; [|by rewrite Hm3].
    rewrite queue_closed_add. intros n Hn. rewrite Hp2 in Hn.
    apply elem_of_app in Hn as [Hn|Hn]; [|by apply HqU, Hsub].
    apply new_nodes_elem in Hn as (k & s' & Hks & _ & ->). cbn.
    apply HmU. apply moves_elem in Hks.
    destruct (step_facts _ _ _ _ g Hks) as (Hsafe & Ho & _).
    destruct s' as [x' y' o']. by apply safe_all_states.
  - by apply (H_expand e x q e2).
  - unfold turns_left in *. subst e3. rewrite queue_closed_add, Hp2.
    rewrite length_app.
    assert (length (new_nodes e1 g x (moves (Bloxorz.map e1) (Node.state x))) ≤ 4)%nat.
    { etrans; [apply omap_length_le|apply moves_length]. }
    assert (open_count (Bloxorz.closed_add e2 (Node.state x)) U
            < open_count e U)%nat;
      [|change (PriorityQueue.data (Bloxorz.queue e1))
          with (PriorityQueue.data q); lia].
    unfold open_count.
    assert (Hext : ∀ u, Bloxorz.in_closed e2 u = Bloxorz.in_closed e u).
    { intros u. by apply (in_closed_ext e e2). }
    apply (filter_length_lt _ _ _ (Node.state x)).
    + intros u. rewrite in_closed_add, !Hext.
      destruct (Bloxorz.in_closed e u); [done|]. by intros _.
    + by apply HqU.
    + by rewrite Hin.
    + rewrite in_closed_add, Hext, Hin, state_eq_refl. done.
  - exists r, e'. split; [done|]. split; [done|]. split; [|done].
    by apply (same_board_trans _ e3).
Qed.

End loop_rule.

(** ** Running solve *)

Section solve_rule.

Context (g : Z * Z).
Context (I : Bloxorz.t → Prop) (Q : Bloxorz.exit → Bloxorz.t → Prop).

Hypothesis H_empty : ∀ e,
  queue_ok (Bloxorz.queue e) → Bloxorz.goal e = Some g → I e →
  PriorityQueue.data (Bloxorz.queue e) = [] →
  Q Bloxorz.ReturnEmpty e.

Hypothesis H_skip : ∀ e x q,
  queue_ok (Bloxorz.queue e) → Bloxorz.goal e = Some g → I e →
  popped (Bloxorz.queue e) x q →
  Bloxorz.in_closed e (Node.state x) = true →
  I (Bloxorz.with_queue e q).

Hypothesis H_goal : ∀ e x q,
  queue_ok (Bloxorz.queue e) → Bloxorz.goal e = Some g → I e →
  popped (Bloxorz.queue e) x q →
  Bloxorz.in_closed e (Node.state x) = false →
  at_goal g (Node.state x) = true →
  Q (Bloxorz.ReturnPath x) (Bloxorz.with_queue e q).

Hypothesis H_expand : ∀ e x q e2,
  queue_ok (Bloxorz.queue e) → Bloxorz.goal e = Some g → I e →
  popped (Bloxorz.queue e) x q →
  Bloxorz.in_closed e (Node.state x) = false →
  at_goal g (Node.state x) = false →
  pushed g (Bloxorz.with_queue e q) x e2 →
  I (Bloxorz.closed_add e2 (Node.state x)).

(** On an engine with a consistent queue and the goal bound, [solve]
    returns; what it returns obeys any [Q] that the four cases of one turn
    of its loop establish from an invariant [I]. *)
Lemma solve_exit_rule e :
  queue_ok (Bloxorz.queue e) → Bloxorz.goal e = Some g → I e →
  ∃ x e', Bloxorz.solve_exit e = Done (x, e')
          ∧ queue_ok (Bloxorz.queue e') ∧ same_board e e' ∧ Q x e'.
Proof.
  intros Hq Hg Hi.
  set (U := (Node.state <$> PriorityQueue.data (Bloxorz.queue e))
            ++ Bloxorz.all_states (Bloxorz.map e)).
  destruct (solve_loop_rule U g I Q) with (fuel := Bloxorz.solve_fuel e) (e := e)
    as (x & e' & Hrun & (Hq' & _) & Hs & HQ).
  - intros e0 (? & ? & _). by apply H_empty.
  - intros e0 x q (? & ? & _). by apply H_skip.
  - intros e0 x q (? & ? & _). by apply H_goal.
  - intros e0 x q e2 (? & ? & _). by apply H_expand.
  - split; [done|]. split; [done|]. split.
    + intros n Hn. apply elem_of_app. left. by apply list_elem_of_fmap_2.
    + intros s Hs. apply elem_of_app. by right.
  - done.
  - unfold turns_left, Bloxorz.solve_fuel, open_count.
    pose proof (List.filter_length_le
                  (fun u => negb (Bloxorz.in_closed e u)) U) as Hle.
    unfold U in Hle at 2. rewrite length_app, length_fmap in Hle.
    fold U. lia.
  - by exists x, e'.
Qed.

End solve_rule.

Lemma solve_of_exit e x e' :
  Bloxorz.solve_exit e = Done (x, e') →
  Bloxorz.solve e = Done (Bloxorz.returned x, e').
Proof. unfold Bloxorz.solve. by intros ->. Qed.

(** [solve] returns on every engine with a consistent queue and the goal
    bound. *)
Lemma solve_total e g :
  queue_ok (Bloxorz.queue e) → Bloxorz.goal e = Some g →
  ∃ x e', Bloxorz.solve_exit e = Done (x, e')
          ∧ queue_ok (Bloxorz.queue e') ∧ same_board e e'.
Proof.
  intros Hq Hg.
  destruct (solve_exit_rule g (fun _ => True) (fun _ _ => True)) with (e := e)
    as (x & e' & Hrun & Hq' & Hs & _); try done.
  by exists x, e'.
Qed.

(** With an empty queue, [solve] returns the empty list at once. *)
Lemma solve_exit_empty e :
  PriorityQueue.not_empty (Bloxorz.queue e) = false →
  Bloxorz.solve_exit e = Done (Bloxorz.ReturnEmpty, e).
Proof. unfold Bloxorz.solve_exit, Bloxorz.solve_fuel. cbn. by intros ->. Qed.

(** ** The constructor *)

Lemma find_from_range sub i s :
  sub ≠ [] → 0 ≤ i → Py.find_from sub i s ≠ -1 →
  i ≤ Py.find_from sub i s < i + Py.len s.
Proof.
  intros Hsub. revert i. unfold Py.len.
  induction s as [|a s IH]; intros i Hi; cbn [Py.find_from].
  - destruct (decide _) as [E|]; [|done].
    rewrite take_nil in E. by destruct sub.
  - destruct (decide _); [cbn; lia|].
    intros Hr. specialize (IH (i + 1) ltac:(lia) Hr). cbn [length]. lia.
Qed.

Lemma find_range s sub :
  sub ≠ [] → Py.find s sub ≠ -1 → 0 ≤ Py.find s sub < Py.len s.
Proof. intros Hsub Hr. by apply (find_from_range sub 0 s). Qed.

Lemma first_row_with_spec sub i0 rows res i :
  Bloxorz.first_row_with sub i0 rows = Some (res, i) →
  i0 ≤ i < i0 + Py.len rows
  ∧ ∃ row, rows !! Z.to_nat (i - i0) = Some row
           ∧ Py.find row sub = res ∧ res ≠ -1
           ∧ ∀ j row', (j < Z.to_nat (i - i0))%nat → rows !! j = Some row'
                       → Py.find row' sub = -1.
Proof.
  revert i0. unfold Py.len. induction rows as [|row rows IH]; intros i0; [done|].
  cbn [Bloxorz.first_row_with]. destruct (decide _) as [Hr|Hr].
  - intros [= <- <-]. cbn [length]. split; [lia|]. exists row.
    rewrite Z.sub_diag. cbn. repeat split; [done|]. intros j row' Hj. lia.
  - intros H. destruct (IH _ H) as (Hi & row' & Hrow & Hf & Hne & Hbefore).
    cbn [length]. split; [lia|]. exists row'.
    replace (Z.to_nat (i - i0)) with (S (Z.to_nat (i - (i0 + 1)))) by lia.
    repeat split; try done.
    intros [|j] row2 Hj; cbn.
    + intros [= <-]. apply dec_stable in Hr. done.
    + apply Hbefore. lia.
Qed.

Lemma replace_from_length old new skip s :
  old ≠ [] → length new = length old →
  (length (Py.replace_from old new skip s) + skip `min` length s = length s)%nat.
Proof.
  intros Hold Hlen. revert skip.
  induction s as [|a s IH]; intros skip; cbn [Py.replace_from length].
  { lia. }
  destruct skip as [|k].
  - destruct (decide _) as [E|].
    + rewrite length_app, Hlen. specialize (IH (length old - 1)%nat).
      assert (length old ≤ S (length s))%nat.
      { rewrite <- E at 1. rewrite length_take. cbn. lia. }
      destruct old; [done|]. cbn [length] in *. lia.
    + cbn [length]. specialize (IH 0%nat). lia.
  - specialize (IH k). lia.
Qed.

Lemma replace_length s old new :
  old ≠ [] → length new = length old → Py.len (Py.replace s old new) = Py.len s.
Proof.
  intros Hold Hlen. unfold Py.replace, Py.len.
  pose proof (replace_from_length old new 0 s Hold Hlen). lia.
Qed.

Lemma rectangular_insert m w i row :
  rectangular m w → Py.len row = w → rectangular (<[i := row]> m) w.
Proof. intros Hm Hr. by apply Forall_insert. Qed.

Lemma rectangular_lookup m w i row :
  rectangular m w → m !! i = Some row → Py.len row = w.
Proof. intros Hm Hr. by apply (Forall_lookup_1 _ _ _ _ Hm Hr). Qed.

Lemma push_empty n :
  PriorityQueue.push PriorityQueue.__init__ n = PriorityQueue.mk [n] 1.
Proof. reflexivity. Qed.

(** What [__init__] builds. *)
Lemma init_spec b e :
  Bloxorz.__init__ b = Done e →
  Bloxorz.closed e = []
  ∧ Bloxorz.ySize e = Py.len b
  ∧ (∃ row0, b !! 0%nat = Some row0 ∧ Bloxorz.xSize e = Py.len row0)
  ∧ Bloxorz.goal e = Bloxorz.first_row_with (str "G") 0 b
  ∧ length (Bloxorz.map e) = length b
  ∧ (∀ w, rectangular b w → rectangular (Bloxorz.map e) w)
  ∧ match Bloxorz.first_row_with (str "S") 0 b with
    | None =>
        Bloxorz.initial e = None
        ∧ Bloxorz.queue e = PriorityQueue.__init__
        ∧ Bloxorz.map e = b
    | Some (res, i) =>
        ∃ g o, Bloxorz.goal e = Some g
          ∧ (o = 0 ∨ o = 1 ∨ o = 2)
          ∧ Bloxorz.initial e = Some (State.mk res i o)
          ∧ Bloxorz.queue e
            = PriorityQueue.mk
                [Node.mk (hval g (State.mk res i o)) (State.mk res i o) []] 1
    end.
Proof.
  unfold Bloxorz.__init__.
  destruct b as [|row0 rows] eqn:Hb; [done|]. rewrite <- Hb.
  assert (Hi0 : Py.index b 0 = Done row0) by by rewrite Hb.
  rewrite Hi0. cbn [mbind run_bind].
  assert (H0 : ∃ r, b !! 0%nat = Some r ∧ Py.len row0 = Py.len r).
  { exists row0. by rewrite Hb. }
  destruct (Bloxorz.first_row_with (str "S") 0 b) as [[res i]|] eqn:HS.
  2: { intros [= <-]. cbn. by repeat split. }
  destruct (first_row_with_spec _ _ _ _ _ HS) as (Hi & row & Hrow & Hfind & Hne & _).
  rewrite Z.sub_0_r in Hrow.
  destruct (index_in_range b i) as (row' & Hrow' & ->); [lia|].
  assert (row' = row) as -> by congruence. cbn [mbind run_bind].
  assert (HlenS : ∀ r, Py.len (Py.replace r (str "S") (str "0")) = Py.len r).
  { intros r. by apply replace_length. }
  assert (HlenSS : ∀ r, Py.len (Py.replace r (str "SS") (str "00")) = Py.len r).
  { intros r. by apply replace_length. }
  set (lying_x := if decide (res + 1 < Py.len row) then _ else _).
  assert (∃ bx, lying_x = Done bx) as [bx ->].
  { unfold lying_x. destruct (decide _); [|by eexists].
    destruct (index_in_range row (res + 1)) as (c & _ & ->).
    - pose proof (find_range row (str "S") ltac:(done)). lia.
    - by eexists. }
  cbn [mbind run_bind].
  destruct (Bloxorz.first_row_with (str "G") 0 b) as [g|] eqn:HG.
  2: { destruct bx; cbn.
       - done.
       - destruct (decide _); cbn; [|done].
         destruct (Py.index b (i + 1)); cbn; [|done..].
         destruct (Py.index _ res); cbn; [|done..].
         destruct (bool_decide _); cbn; [|done].
         destruct (Py.index _ (i + 1)); done. }
  destruct bx.
  { cbn [mbind run_bind]. rewrite heuristic_hval. cbn [mbind run_bind].
    intros [= <-]. cbn.
    split; [done|]. split; [done|]. split; [done|]. split; [done|].
    split; [by rewrite length_insert|]. split.
    - intros w Hw. apply rectangular_insert; [done|].
      rewrite HlenSS. by apply (rectangular_lookup b w (Z.to_nat i)).
    - exists g, 1. rewrite push_empty. repeat split; auto. }
  set (lying_y := if decide (i + 1 < Py.len b) then _ else _).
  destruct lying_y as [[|]| |] eqn:Hy; cbn [mbind run_bind]; [| |done..].
  - (* lying along y *)
    unfold lying_y in Hy. destruct (decide (i + 1 < Py.len b)) as [Hi1|]; [|done].
    destruct (index_in_range (<[Z.to_nat i := Py.replace row (str "S") (str "0")]> b)
                (i + 1)) as (below & Hbelow & ->).
    { unfold Py.len in *. rewrite length_insert. lia. }
    cbn [mbind run_bind]. rewrite heuristic_hval. cbn [mbind run_bind].
    intros [= <-]. cbn.
    split; [done|]. split; [done|]. split; [done|]. split; [done|].
    split; [by rewrite !length_insert|]. split.
    + intros w Hw. apply rectangular_insert.
      * apply rectangular_insert; [done|].
        rewrite HlenS. by apply (rectangular_lookup b w (Z.to_nat i)).
      * rewrite HlenS. rewrite list_lookup_insert_ne in Hbelow by lia.
        by apply (rectangular_lookup b w (Z.to_nat (i + 1))).
    + exists g, 2. rewrite push_empty. repeat split; auto.
  - (* standing *)
    cbn [mbind run_bind]. rewrite heuristic_hval. cbn [mbind run_bind].
    intros [= <-]. cbn.
    split; [done|]. split; [done|]. split; [done|]. split; [done|].
    split; [by rewrite length_insert|]. split.
    + intros w Hw. apply rectangular_insert; [done|].
      rewrite HlenS. by apply (rectangular_lookup b w (Z.to_nat i)).
    + exists g, 0. rewrite push_empty. repeat split; auto.
Qed.

(** ** Replaying a path *)

Lemma replay_cons m s a p :
  Bloxorz.replay m s (a :: p)
  = match Py.dict_get (moves m s) a with
    | Done s' => Bloxorz.replay m s' p
    | Raise e => Raise e
    | OutOfFuel => OutOfFuel
    end.
Proof. cbn [Bloxorz.replay]. rewrite successors_done. done. Qed.

Lemma replay_step m s a p t :
  Bloxorz.replay m s (a :: p) = Done t
  ↔ ∃ s', step m s a s' ∧ Bloxorz.replay m s' p = Done t.
Proof.
  rewrite replay_cons. unfold step. rewrite successors_done. split.
  - destruct (Py.dict_get _ a) as [s'| |] eqn:E; [|done..].
    intros H. exists s'. split; [|done]. by exists (moves m s).
  - intros (s' & (d & Hd & Hget) & Hrep).
    assert (d = moves m s) as -> by congruence. by rewrite Hget.
Qed.

Lemma replay_snoc m s p a t :
  Bloxorz.replay m s (p ++ [a]) = Done t
  ↔ ∃ s', Bloxorz.replay m s p = Done s' ∧ step m s' a t.
Proof.
  revert s. induction p as [|b p IH]; intros s.
  - cbn [app]. rewrite replay_step. cbn. split.
    + intros (s' & Hs & [= ->]). by exists s.
    + intros (s' & [= <-] & Hs). by exists t.
  - cbn [app]. rewrite replay_step. setoid_rewrite replay_step. split.
    + intros (s1 & Hs & (s' & Hp & Ha)%IH). eauto.
    + intros (s' & (s1 & Hs & Hp) & Ha). exists s1. split; [done|].
      apply IH. eauto.
Qed.

Lemma at_goal_iff g s : at_goal g s = true ↔ s = goal_state g.
Proof.
  unfold at_goal, goal_state. destruct s as [x y o]. cbn.
  rewrite !andb_true_iff, !bool_decide_eq_true. split.
  - by intros [[-> ->] ->].
  - by intros [= -> -> ->].
Qed.

Lemma path_ok_child m init g x k s' :
  path_ok m init x → (k, s') ∈ moves m (Node.state x) →
  path_ok m init (child_node g x k s').
Proof.
  unfold path_ok. cbn. intros Hx Hk. apply replay_snoc.
  exists (Node.state x). split; [done|]. by apply moves_elem.
Qed.

Lemma popped_elem q x q' n :
  popped q x q' → n ∈ PriorityQueue.data q ↔ n = x ∨ n ∈ PriorityQueue.data q'.
Proof. intros (_ & Hp & _). rewrite Hp. apply elem_of_cons. Qed.

Lemma pushed_elem g e1 x e2 n :
  pushed g e1 x e2 →
  n ∈ PriorityQueue.data (Bloxorz.queue e2)
  ↔ n ∈ new_nodes e1 g x (moves (Bloxorz.map e1) (Node.state x))
    ∨ n ∈ PriorityQueue.data (Bloxorz.queue e1).
Proof. intros (_ & _ & _ & Hp & _). rewrite Hp. apply elem_of_app. Qed.

(** Every call of [solve] returns, keeps the paths of the queued nodes
    right, and returns either the path of a node whose state is the goal, or
    the empty list, leaving the queue empty. *)
Lemma solve_sound e0 init g e :
  queue_ok (Bloxorz.queue e) → Bloxorz.goal e = Some g → paths_ok e0 init e →
  ∃ x e', Bloxorz.solve_exit e = Done (x, e')
    ∧ queue_ok (Bloxorz.queue e') ∧ paths_ok e0 init e'
    ∧ match x with
      | Bloxorz.ReturnPath n =>
          path_ok (Bloxorz.map e0) init n ∧ at_goal g (Node.state n) = true
      | Bloxorz.ReturnEmpty => PriorityQueue.data (Bloxorz.queue e') = []
      end.
Proof.
  intros Hq Hg Hi.
  destruct (solve_exit_rule g (paths_ok e0 init)
              (fun x e' =>
                 paths_ok e0 init e'
                 ∧ match x with
                   | Bloxorz.ReturnPath n =>
                       path_ok (Bloxorz.map e0) init n
                       ∧ at_goal g (Node.state n) = true
                   | Bloxorz.ReturnEmpty =>
                       PriorityQueue.data (Bloxorz.queue e') = []
                   end)) with (e := e)
    as (x & e' & Hrun & Hq' & _ & HQ); try done.
  - clear. intros e x q _ _ [Hs Hp] Hpop _. split; [done|].
    intros n Hn. apply Hp. apply (popped_elem _ _ _ _ Hpop). by right.
  - clear. intros e x q _ _ [Hs Hp] Hpop _ Hgoal. split; [split|split]; try done.
    + intros n Hn. apply Hp. apply (popped_elem _ _ _ _ Hpop). by right.
    + apply Hp. apply (popped_elem _ _ _ _ Hpop). by left.
  - clear. intros e x q e2 _ _ [Hs Hp] Hpop _ _ Hpush.
    assert (Hs2 : same_board e e2) by apply Hpush.
    split.
    { apply (same_board_trans _ e); [done|].
      apply (same_board_trans _ e2); [done|apply same_board_closed_add]. }
    rewrite queue_closed_add. intros n Hn.
    apply (pushed_elem _ _ _ _ _ Hpush) in Hn as [Hn|Hn].
    + apply new_nodes_elem in Hn as (k & s' & Hk & _ & ->).
      cbn [Bloxorz.map Bloxorz.with_queue] in Hk.
      destruct Hs as (Hm & _). rewrite Hm in Hk.
      apply path_ok_child; [|done].
      apply Hp. apply (popped_elem _ _ _ _ Hpop). by left.
    + apply Hp. apply (popped_elem _ _ _ _ Hpop). by right.
  - destruct HQ as [Hi' HQ]. by exists x, e'.
Qed.

(** ** Freshly constructed engines *)

Lemma find_from_lookup sub i s :
  sub ≠ [] → 0 ≤ i → Py.find_from sub i s ≠ -1 →
  take (length sub) (drop (Z.to_nat (Py.find_from sub i s - i)) s) = sub.
Proof.
  intros Hsub. revert i.
  induction s as [|a s IH]; intros i Hi; cbn [Py.find_from].
  - destruct (decide _) as [E|]; [|done]. by rewrite Z.sub_diag.
  - destruct (decide _) as [E|]; [by rewrite Z.sub_diag|].
    intros Hr. pose proof (find_from_range sub (i + 1) s Hsub ltac:(lia) Hr).
    specialize (IH (i + 1) ltac:(lia) Hr).
    replace (Z.to_nat (Py.find_from sub (i + 1) s - i))
      with (S (Z.to_nat (Py.find_from sub (i + 1) s - (i + 1)))) by lia.
    done.
Qed.

Lemma find_char s c :
  Py.find s [c] ≠ -1 → s !! Z.to_nat (Py.find s [c]) = Some c.
Proof.
  unfold Py.find.
  intros Hr. pose proof (find_from_lookup [c] 0 s ltac:(done) ltac:(done) Hr) as H.
  rewrite Z.sub_0_r in H. cbn [length] in H.
  destruct (drop _ s) as [|a r] eqn:Hd; [done|]. injection H as ->.
  rewrite <- (Nat.add_0_r (Z.to_nat _)), <- lookup_drop, Hd. done.
Qed.

(** The position of the block and the goal of a constructed engine are
    cells of the board that was given, holding 'S' and 'G'. *)
Lemma init_cells b e :
  Bloxorz.__init__ b = Done e →
  (∀ init, Bloxorz.initial e = Some init →
     cell b (State.x_cor init) (State.y_cor init) = Some "S"%char
     ∧ (State.orient init = 0 ∨ State.orient init = 1 ∨ State.orient init = 2))
  ∧ (∀ g, Bloxorz.goal e = Some g → cell b g.1 g.2 = Some "G"%char).
Proof.
  intros He. destruct (init_spec b e He) as (_ & _ & _ & Hg & _ & _ & HS).
  assert (Hcell : ∀ c res i,
            Bloxorz.first_row_with [c] 0 b = Some (res, i) →
            cell b res i = Some c).
  { intros c res i H.
    destruct (first_row_with_spec _ _ _ _ _ H) as (Hi & row & Hrow & Hf & Hne & _).
    rewrite Z.sub_0_r in Hrow.
    pose proof (find_range row [c] ltac:(done)). subst res.
    unfold cell. rewrite decide_True by lia. rewrite Hrow. cbn.
    by apply find_char. }
  split.
  - intros init Hinit.
    destruct (Bloxorz.first_row_with (str "S") 0 b) as [[res i]|] eqn:E.
    + destruct HS as (g & o & _ & Ho & Hi & _). rewrite Hi in Hinit.
      injection Hinit as <-. cbn. split; [|done]. by apply Hcell.
    + destruct HS as (Hi & _). congruence.
  - intros [gx gy] Hgoal. rewrite Hg in Hgoal. by apply Hcell.
Qed.

Lemma init_not_goal b e init g :
  Bloxorz.__init__ b = Done e →
  Bloxorz.initial e = Some init → Bloxorz.goal e = Some g →
  at_goal g init = false.
Proof.
  intros He Hi Hg. destruct (init_cells b e He) as [HS HG].
  destruct (HS _ Hi) as [Hc _]. specialize (HG _ Hg).
  apply not_true_iff_false. intros ->%at_goal_iff. cbn in Hc. congruence.
Qed.

Lemma cell_valid m w x y c o :
  rectangular m w → cell m x y = Some c → o = 0 ∨ o = 1 ∨ o = 2 →
  valid w (Py.len m) (State.mk x y o).
Proof.
  intros Hm Hc Ho. destruct (cell_in_range _ _ _ _ _ Hm Hc).
  unfold valid. cbn. done.
Qed.

(** A constructed engine is ready to run: either no 'S' was found and the
    queue is empty, or the queue holds the node of the initial state. *)
Lemma init_ready b e :
  Bloxorz.__init__ b = Done e →
  queue_ok (Bloxorz.queue e)
  ∧ Bloxorz.closed e = []
  ∧ ((Bloxorz.initial e = None ∧ PriorityQueue.data (Bloxorz.queue e) = [])
     ∨ ∃ g init,
         Bloxorz.goal e = Some g ∧ Bloxorz.initial e = Some init
         ∧ PriorityQueue.data (Bloxorz.queue e)
           = [Node.mk (hval g init) init []]).
Proof.
  intros He. destruct (init_spec b e He) as (Hc & _ & _ & _ & _ & _ & HS).
  destruct (Bloxorz.first_row_with (str "S") 0 b) as [[res i]|].
  - destruct HS as (g & o & Hg & _ & Hi & Hq). rewrite Hq.
    split; [done|]. split; [done|]. right. by exists g, (State.mk res i o).
  - destruct HS as (Hi & Hq & _). rewrite Hq.
    split; [done|]. split; [done|]. by left.
Qed.

Lemma solve_empty_queue e :
  queue_ok (Bloxorz.queue e) → PriorityQueue.data (Bloxorz.queue e) = [] →
  Bloxorz.solve e = Done ([], e).
Proof.
  intros Hq Hd. apply (solve_of_exit e Bloxorz.ReturnEmpty).
  apply solve_exit_empty. apply not_true_iff_false.
  rewrite not_empty_iff by done. by intros [].
Qed.

(** After any number of calls, a constructed engine is in one of the two
    cases of [init_ready], with all queued paths right. *)
Lemma calls_sound b e n :
  Bloxorz.__init__ b = Done e →
  ∃ e_n, calls n e = Done e_n
    ∧ queue_ok (Bloxorz.queue e_n)
    ∧ ((PriorityQueue.data (Bloxorz.queue e_n) = [])
       ∨ ∃ g init, Bloxorz.goal e_n = Some g ∧ Bloxorz.initial e = Some init
                   ∧ paths_ok e init e_n).
Proof.
  intros He. destruct (init_ready b e He) as (Hq & _ & Hcase).
  induction n as [|n IH].
  - exists e. split; [done|]. split; [done|].
    destruct Hcase as [[_ Hd]|(g & init & Hg & Hi & Hd)]; [by left|right].
    exists g, init. split; [done|]. split; [done|]. split; [done|].
    intros n. rewrite Hd. intros ->%list_elem_of_singleton. done.
  - destruct IH as (e_n & Hcalls & Hqn & Hn). cbn [calls]. rewrite Hcalls.
    cbn [mbind run_bind].
    destruct Hn as [Hd|(g & init & Hg & Hi & Hp)].
    + rewrite (solve_empty_queue e_n) by done. cbn. exists e_n. eauto.
    + destruct (solve_sound e init g e_n) as (x & e' & Hrun & Hq' & Hp' & _);
        [done..|].
      rewrite (solve_of_exit _ _ _ Hrun). cbn. exists e'.
      split; [done|]. split; [done|]. right. exists g, init.
      split; [|done]. destruct Hp as [Hs _], Hp' as [Hs' _].
      destruct Hs as (_ & Hg1 & _), Hs' as (_ & Hg2 & _). congruence.
Qed.

(** ** The result of solve *)

Example init_SOOG : Bloxorz.__init__ (board ["SOOG"]) = Done engine_SOOG.
Proof. vm_compute. reflexivity. Qed.

Example solve_SOOG : Bloxorz.solve engine_SOOG = Done ([R; R], engine_SOOG_solved).
Proof. vm_compute. reflexivity. Qed.

Example solve_SOOG_again :
  Bloxorz.solve engine_SOOG_solved = Done ([], engine_SOOG_solved).
Proof. vm_compute. reflexivity. Qed.

(** C10.  On a freshly constructed engine, every call of [solve] (the
    first one and any later one) returns, and a non-empty list it returns
    replays from the initial state: each action is a key of [successors] of
    the state reached so far, and the state reached at the end satisfies
    [is_goal]. *)
Theorem C10_returned_path_replays b e n e_n :
  Bloxorz.__init__ b = Done e → calls n e = Done e_n →
  ∃ p e', Bloxorz.solve e_n = Done (p, e')
    ∧ (p ≠ [] →
       ∃ init t, Bloxorz.initial e = Some init
         ∧ Bloxorz.replay (Bloxorz.map e) init p = Done t
         ∧ Bloxorz.is_goal (Bloxorz.goal e) t = Done true).
Proof.
  intros He Hcalls.
  destruct (calls_sound b e n He) as (e_n' & Hcalls' & Hq & Hcase).
  assert (e_n' = e_n) as -> by congruence.
  destruct Hcase as [Hd|(g & init & Hg & Hi & Hp)].
  { exists [], e_n. split; [by apply solve_empty_queue|done]. }
  destruct (solve_sound e init g e_n) as (x & e' & Hrun & _ & _ & Hx); [done..|].
  exists (Bloxorz.returned x), e'. split; [by apply solve_of_exit|].
  destruct x as [node|]; [|done]. intros _. destruct Hx as [Hpath Hgoal].
  exists init, (Node.state node). split; [done|]. split; [done|].
  destruct Hp as [(_ & Hg' & _) _]. rewrite <- Hg', Hg, is_goal_done.
  by rewrite Hgoal.
Qed.

Lemma C10_returned_path_replays_witness :
  ∃ p e', Bloxorz.solve engine_SOOG = Done (p, e')
    ∧ (p ≠ [] →
       ∃ init t, Bloxorz.initial engine_SOOG = Some init
         ∧ Bloxorz.replay (Bloxorz.map engine_SOOG) init p = Done t
         ∧ Bloxorz.is_goal (Bloxorz.goal engine_SOOG) t = Done true).
Proof.
  apply (C10_returned_path_replays (board ["SOOG"]) engine_SOOG 0 engine_SOOG);
    reflexivity.
Defined.

(** C5.  On an engine with a consistent queue and the goal bound, [solve]
    returns a list and never raises.  When its loop ends because the
    frontier is empty, the list is empty and the queue is left empty; this
    is how the loop ends whenever no sequence of actions leads from the
    initial state to the goal state.  When the queue holds only the node of
    the initial state (path []), not yet closed, and that state satisfies
    the goal test, the loop ends by returning the path of that node, which
    is the empty list too. *)
Theorem C5_empty_result e g :
  queue_ok (Bloxorz.queue e) → Bloxorz.goal e = Some g →
  ∃ x e', Bloxorz.solve_exit e = Done (x, e')
    ∧ Bloxorz.solve e = Done (Bloxorz.returned x, e')
    ∧ (x = Bloxorz.ReturnEmpty →
       Bloxorz.returned x = []
       ∧ PriorityQueue.not_empty (Bloxorz.queue e') = false)
    ∧ (∀ init, paths_ok e init e →
         (∀ q, Bloxorz.replay (Bloxorz.map e) init q ≠ Done (goal_state g)) →
         x = Bloxorz.ReturnEmpty)
    ∧ (∀ n, PriorityQueue.data (Bloxorz.queue e) = [n] → Node.path n = [] →
            Bloxorz.in_closed e (Node.state n) = false →
            at_goal g (Node.state n) = true →
            x = Bloxorz.ReturnPath n ∧ Bloxorz.returned x = []).
Proof.
  intros Hq Hg.
  destruct (solve_exit_rule g (fun _ => True)
              (fun x e' => x = Bloxorz.ReturnEmpty
                           → PriorityQueue.data (Bloxorz.queue e') = []))
    with (e := e) as (x & e' & Hrun & Hq' & _ & HQ); try done.
  exists x, e'. split; [done|]. split; [by apply solve_of_exit|].
  split; [|split].
  - intros ->. split; [done|]. apply not_true_iff_false.
    rewrite not_empty_iff by done. intros Hne. by apply Hne, HQ.
  - intros init Hp Hno.
    destruct (solve_sound e init g e) as (x' & e'' & Hrun' & _ & _ & Hx');
      [done..|].
    rewrite Hrun in Hrun'. injection Hrun' as <- <-.
    destruct x as [n|]; [|done]. destruct Hx' as [Hpath Hgoal].
    apply at_goal_iff in Hgoal. unfold path_ok in Hpath. rewrite Hgoal in Hpath.
    by destruct (Hno (Node.path n)).
  - intros n Hd Hpath Hclosed Hgoal.
    assert (Hrun' : Bloxorz.solve_exit e
                    = Done (Bloxorz.ReturnPath n,
                            Bloxorz.with_queue e
                              (PriorityQueue.mk []
                                 (PriorityQueue.counter (Bloxorz.queue e) - 1)))).
    { unfold Bloxorz.solve_exit, Bloxorz.solve_fuel. cbn [Bloxorz.solve_loop].
      assert (PriorityQueue.not_empty (Bloxorz.queue e) = true) as ->.
      { apply not_empty_iff; [done|]. by rewrite Hd. }
      unfold PriorityQueue.pop. rewrite Hd.
      cbn [mbind run_bind heapq.heappop last length take Nat.sub].
      change (Bloxorz.in_closed (Bloxorz.with_queue e _) (Node.state n))
        with (Bloxorz.in_closed e (Node.state n)).
      rewrite Hclosed. cbn [negb Bloxorz.goal Bloxorz.with_queue].
      rewrite Hg, is_goal_done, Hgoal. done. }
    rewrite Hrun' in Hrun. injection Hrun as <- <-. done.
Qed.

Lemma C5_empty_result_witness :
  ∃ x e', Bloxorz.solve_exit engine_GOS = Done (x, e')
    ∧ Bloxorz.solve engine_GOS = Done (Bloxorz.returned x, e')
    ∧ (x = Bloxorz.ReturnEmpty →
       Bloxorz.returned x = []
       ∧ PriorityQueue.not_empty (Bloxorz.queue e') = false)
    ∧ (∀ init, paths_ok engine_GOS init engine_GOS →
         (∀ q, Bloxorz.replay (Bloxorz.map engine_GOS) init q
               ≠ Done (goal_state (0, 0))) →
         x = Bloxorz.ReturnEmpty)
    ∧ (∀ n, PriorityQueue.data (Bloxorz.queue engine_GOS) = [n] →
            Node.path n = [] →
            Bloxorz.in_closed engine_GOS (Node.state n) = false →
            at_goal (0, 0) (Node.state n) = true →
            x = Bloxorz.ReturnPath n ∧ Bloxorz.returned x = []).
Proof.
  apply (C5_empty_result engine_GOS (0, 0)); reflexivity.
Defined.

(** The second part of C5 on an engine whose initial state is the goal. *)
Example solve_initial_is_goal :
  let init := State.mk 1 0 0 in
  let e := Bloxorz.mk (board ["OGO"]) []
             (PriorityQueue.mk [Node.mk 0 init []] 1)
             (Some (1, 0)) (Some init) 3 1 in
  Bloxorz.solve e
  = Done ([], Bloxorz.with_queue e (PriorityQueue.mk [] 0)).
Proof. vm_compute. reflexivity. Qed.

(** C4, as stated, fails: on the board "SOOG" the first call of [solve]
    returns [R; R] and the second call, on the same engine, returns []. *)
Lemma C4_counterexample :
  ∃ e p1 e1 p2 e2,
    Bloxorz.__init__ (board ["SOOG"]) = Done e
    ∧ Bloxorz.solve e = Done (p1, e1)
    ∧ Bloxorz.solve e1 = Done (p2, e2)
    ∧ p1 = [R; R] ∧ p2 = [] ∧ p2 ≠ p1.
Proof.
  exists engine_SOOG, [R; R], engine_SOOG_solved, [], engine_SOOG_solved.
  split; [apply init_SOOG|]. split; [apply solve_SOOG|].
  split; [apply solve_SOOG_again|]. done.
Qed.

(** C4, amended.  On a freshly constructed engine, if the first call of
    [solve] returns the empty list, then the frontier is exhausted and the
    second call returns the empty list as well, leaving the engine as it
    is. *)
Theorem C4_second_call_after_empty b e p1 e1 :
  Bloxorz.__init__ b = Done e →
  Bloxorz.solve e = Done (p1, e1) → p1 = [] →
  Bloxorz.solve e1 = Done (p1, e1).
Proof.
  intros He Hsolve ->.
  destruct (init_ready b e He) as (Hq & _ & Hcase).
  destruct Hcase as [[_ Hd]|(g & init & Hg & Hi & Hd)].
  { rewrite (solve_empty_queue e) in Hsolve by done.
    injection Hsolve as <-. by apply solve_empty_queue. }
  destruct (solve_sound e init g e) as (x & e' & Hrun & Hq' & _ & Hx); [done..| |].
  { split; [done|]. intros n. rewrite Hd. by intros ->%list_elem_of_singleton. }
  rewrite (solve_of_exit _ _ _ Hrun) in Hsolve. injection Hsolve as Hret <-.
  destruct x as [node|]; [|by apply solve_empty_queue].
  destruct Hx as [Hpath Hgoal]. cbn in Hret. unfold path_ok in Hpath.
  rewrite Hret in Hpath. cbn in Hpath. injection Hpath as Hinit.
  rewrite <- Hinit in Hgoal.
  by rewrite (init_not_goal b e init g) in Hgoal.
Qed.

Lemma C4_second_call_after_empty_witness :
  Bloxorz.solve engine_GOS_solved = Done ([], engine_GOS_solved).
Proof.
  apply (C4_second_call_after_empty (board ["GOS"]) engine_GOS);
    reflexivity.
Defined.

(** ** Optimality of the first call *)

Lemma step_valid m w s k s' :
  rectangular m w → step m s k s' → valid w (Py.len m) s'.
Proof.
  intros Hm Hs. destruct (step_facts _ _ _ _ (0, 0) Hs) as (Hsafe & Ho & _).
  unfold safe in Hsafe.
  destruct (cell m (State.x_cor s') (State.y_cor s')) as [c|] eqn:Hc; [|done].
  destruct (cell_in_range _ _ _ _ _ Hm Hc). done.
Qed.

Lemma replay_valid m w s q t :
  rectangular m w → valid w (Py.len m) s →
  Bloxorz.replay m s q = Done t → valid w (Py.len m) t.
Proof.
  intros Hm. revert s. induction q as [|a q IH]; intros s Hs.
  - by intros [= <-].
  - intros (s' & Hstep & Hrest)%replay_step. apply (IH s'); [|done].
    by apply (step_valid m w s a).
Qed.

Lemma replay_h3 m g q : ∀ s t,
  Bloxorz.replay m s q = Done t → h3 g s ≤ 2 * Py.len q + h3 g t.
Proof.
  induction q as [|a q IH]; intros s t Hr.
  - cbn in Hr. injection Hr as ->. unfold Py.len. cbn. lia.
  - apply replay_step in Hr as (s' & Hs & Hr).
    destruct (step_facts m s a s' g Hs) as (_ & _ & Hle).
    specialize (IH s' t Hr). unfold Py.len in *. cbn [length]. lia.
Qed.

Lemma state_eq_sym xs ys a b : State.eq xs ys a b = State.eq xs ys b a.
Proof. unfold State.eq. apply Z.eqb_sym. Qed.

Lemma in_closed_false e s c :
  Bloxorz.in_closed e s = false → c ∈ Bloxorz.closed e →
  State.eq (Bloxorz.xSize e) (Bloxorz.ySize e) s c = false.
Proof.
  unfold Bloxorz.in_closed. intros Hex Hc.
  destruct (State.eq _ _ s c) eqn:Heq; [|done].
  assert (existsb (State.eq (Bloxorz.xSize e) (Bloxorz.ySize e) s)
            (Bloxorz.closed e) = true); [|congruence].
  apply existsb_exists. exists c. split; [by apply list_elem_of_In|done].
Qed.

Lemma step_moves m s k s' : step m s k s' → (k, s') ∈ moves m s.
Proof.
  rewrite step_table. intros Hm. unfold moves. apply list_elem_of_omap.
  exists k. split; [|done]. destruct k; repeat constructor.
Qed.

Lemma heap_ok_singleton n : heap_ok [n].
Proof.
  intros i Hi. rewrite (lookup_ge_None_2 [n] i) by (cbn; lia).
  apply le_opt_None_r.
Qed.

Lemma init_board_ok b w e g init :
  rectangular b w → Bloxorz.__init__ b = Done e →
  Bloxorz.goal e = Some g → Bloxorz.initial e = Some init →
  board_ok e g init.
Proof.
  intros Hb He Hg Hi.
  destruct (init_spec b e He) as (_ & Hys & (row0 & Hrow0 & Hxs) & _ & Hlen & Hrect & _).
  destruct (init_cells b e He) as [HS HG].
  destruct (HS _ Hi) as [Hci Ho]. specialize (HG _ Hg).
  rewrite (rectangular_lookup b w 0 row0 Hb Hrow0) in Hxs.
  unfold board_ok. rewrite Hxs, Hys. unfold Py.len. rewrite Hlen.
  split; [by apply Hrect|]. split; [done|]. split.
  - destruct init as [x y o]. by apply (cell_valid b w x y "S"%char).
  - by apply (cell_valid b w g.1 g.2 "G"%char); [..|left].
Qed.

Lemma f3_third g n : ((f3 g n # 3) * 3 == inject_Z (f3 g n))%Q.
Proof. rewrite Qmake_Qdiv. change (inject_Z 3) with 3%Q. field. Qed.

Lemma f3_nonneg g n : 0 ≤ f3 g n.
Proof. unfold f3, h3, Py.len. lia. Qed.

(** The node of the initial state carries the float of [heuristic]. *)
Lemma init_cost_ok g init : cost_ok g (Node.mk (hval g init) init []).
Proof.
  unfold cost_ok. cbn [Node.costGuess].
  assert (Hf : f3 g (Node.mk (hval g init) init []) = h3 g init).
  { unfold f3, Py.len. cbn. lia. }
  rewrite Hf. destruct (hval_error g init) as [H1 H2].
  pose proof (h3_third g init) as H3. pose proof (h3_nonneg g init) as Hn.
  rewrite Zle_Qle in Hn. change (inject_Z 0) with 0%Q in Hn.
  set (E := (h3 g init # 3)%Q) in *. split; lra.
Qed.

(** A pushed node carries the float of [len(templist) + heuristic]. *)
Lemma child_cost_ok g x k s' : cost_ok g (child_node g x k s').
Proof.
  unfold cost_ok, child_node. cbn [Node.costGuess].
  set (n := Node.mk _ _ _).
  assert (Hf : (inject_Z (f3 g n)
                == 3 * inject_Z (Py.len (Node.path x ++ [k]))
                   + inject_Z (h3 g s'))%Q).
  { unfold f3, n. cbn [Node.path Node.state].
    rewrite inject_Z_plus, inject_Z_mult. reflexivity. }
  pose proof (f3_third g n) as HF.
  destruct (hval_error g s') as [H1 H2]. pose proof (hval_nonneg g s') as Hh0.
  pose proof (h3_third g s') as H3. pose proof (h3_nonneg g s') as Hn.
  rewrite Zle_Qle in Hn. change (inject_Z 0) with 0%Q in Hn.
  assert (Hlen : (0 <= inject_Z (Py.len (Node.path x ++ [k])))%Q).
  { change 0%Q with (inject_Z 0). rewrite <- Zle_Qle. unfold Py.len. lia. }
  unfold Float.add, Float.of_int.
  destruct (round_error _ Hlen) as [Hl1 Hl2].
  pose proof (round_nonneg _ Hlen) as Hl0.
  set (len := inject_Z (Py.len (Node.path x ++ [k]))) in *.
  set (rl := Float.round len) in *.
  destruct (round_error (rl + hval g s')) as [Hs1 Hs2]; [lra|].
  set (c := Float.round (rl + hval g s')) in *.
  set (E := (h3 g s' # 3)%Q) in *. set (F := (f3 g n # 3)%Q) in *.
  set (z := inject_Z (h3 g s')) in *. set (zf := inject_Z (f3 g n)) in *.
  split; lra.
Qed.

(** On nodes whose exact cost guesses are below 2^48 / 3, the order of the
    floats refines the order of the exact cost guesses. *)
Lemma node_le_f3 g x n :
  cost_ok g x → cost_ok g n → f3 g n ≤ 2 ^ 48 →
  node_le x n → f3 g x ≤ f3 g n.
Proof.
  intros [Hx1 Hx2] [Hn1 Hn2] Hsmall Hle. unfold node_le in Hle.
  destruct (Z_le_gt_dec (f3 g x) (f3 g n)) as [|Hgt]; [done|exfalso].
  assert (Hge : f3 g n + 1 ≤ f3 g x) by lia.
  pose proof (f3_nonneg g n) as H0.
  rewrite Zle_Qle in Hsmall, Hge, H0. rewrite inject_Z_plus in Hge.
  change (inject_Z (2 ^ 48)) with (281474976710656 # 1)%Q in Hsmall.
  change (inject_Z 1) with 1%Q in Hge. change (inject_Z 0) with 0%Q in H0.
  pose proof (f3_third g x) as HFx. pose proof (f3_third g n) as HFn.
  set (Fx := (f3 g x # 3)%Q) in *. set (Fn := (f3 g n # 3)%Q) in *.
  set (zx := inject_Z (f3 g x)) in *. set (zn := inject_Z (f3 g n)) in *.
  lra.
Qed.

Lemma hash_range X Y s : valid X Y s → 0 ≤ State.hash X Y s < 3 * X * Y.
Proof.
  destruct s as [x y o]. unfold valid, State.hash. cbn.
  intros (Hx & Hy & Ho). destruct Ho as [-> | [-> | ->]]; nia.
Qed.

(** A list of valid states without repetition is no longer than the number
    of valid states. *)
Lemma closed_bound l X Y :
  NoDup l → (∀ c, c ∈ l → valid X Y c) → Py.len l ≤ Z.max 0 (3 * X * Y).
Proof.
  intros Hnd Hv.
  assert (Hnd' : NoDup (State.hash X Y <$> l)).
  { apply NoDup_fmap_2_strong; [|done]. intros a b Ha Hb.
    destruct (Hv a Ha) as (? & ? & _), (Hv b Hb) as (? & ? & _).
    by apply hash_inj. }
  assert (Hsub : State.hash X Y <$> l ⊆+ seqZ 0 (3 * X * Y)).
  { apply NoDup_submseteq; [done|]. intros h (c & -> & Hc)%list_elem_of_fmap.
    apply elem_of_seqZ. pose proof (hash_range X Y c (Hv c Hc)). lia. }
  apply submseteq_length in Hsub. rewrite length_fmap, length_seqZ in Hsub.
  unfold Py.len. lia.
Qed.

Lemma reach_skip e0 g init near e x q :
  reach_inv e0 g init near e → popped (Bloxorz.queue e) x q →
  Bloxorz.in_closed e (Node.state x) = true →
  reach_inv e0 g init near (Bloxorz.with_queue e q).
Proof.
  intros (Hs & Hnodes & HD & HB & HG) Hpop Hx.
  pose proof (fun n => popped_elem _ _ _ n Hpop) as Hel.
  split; [done|]. split; [|split; [|split; [|done]]].
  - intros n Hn. apply Hnodes, Hel. by right.
  - destruct HD as [HD|(n & Hn & Hst & Hp)]; [by left|].
    apply Hel in Hn as [->|Hn].
    + left. by rewrite <- Hst.
    + right. by exists n.
  - intros c p k s' Hc Hp Hstep.
    destruct (HB c p k s' Hc Hp Hstep) as [?|(n & Hn & Hst & Hlen)]; [by left|].
    apply Hel in Hn as [->|Hn].
    + left. by rewrite <- Hst.
    + right. by exists n.
Qed.

Lemma reach_expand e0 g init near e x q e2 :
  board_ok e0 g init →
  reach_inv e0 g init near e → popped (Bloxorz.queue e) x q →
  Bloxorz.in_closed e (Node.state x) = false →
  at_goal g (Node.state x) = false →
  pushed g (Bloxorz.with_queue e q) x e2 →
  (∀ p k s', Bloxorz.replay (Bloxorz.map e0) init p = Done (Node.state x) →
             step (Bloxorz.map e0) (Node.state x) k s' →
             near (child_node g x k s') p) →
  reach_inv e0 g init near (Bloxorz.closed_add e2 (Node.state x)).
Proof.
  intros (Hrect & Hys & Hvi & Hvg) Hinv Hpop Hx Hgoal Hpush Hnear.
  destruct Hinv as (Hs & Hnodes & HD & HB & HG).
  pose proof (fun n => popped_elem _ _ _ n Hpop) as Hel.
  pose proof (fun n => pushed_elem _ _ _ _ n Hpush) as Hel2.
  destruct Hpush as (Hs2 & Hc2 & Hq2 & Hp2 & Hok2).
  assert (Hse2 : same_board e e2) by done.
  assert (Hm : Bloxorz.map e = Bloxorz.map e0) by apply Hs.
  assert (Hxs : Bloxorz.xSize e = Bloxorz.xSize e0) by apply Hs.
  assert (Hysz : Bloxorz.ySize e = Bloxorz.ySize e0) by apply Hs.
  assert (Hxin : x ∈ PriorityQueue.data (Bloxorz.queue e)) by (apply Hel; by left).
  destruct (Hnodes x Hxin) as (Hxpath & Hxvalid).
  assert (Hext : ∀ u, Bloxorz.in_closed e2 u = Bloxorz.in_closed e u).
  { intros u. by apply (in_closed_ext e e2). }
  assert (Hin3 : ∀ u, Bloxorz.in_closed (Bloxorz.closed_add e2 (Node.state x)) u
                     = Bloxorz.in_closed e u
                       || State.eq (Bloxorz.xSize e0) (Bloxorz.ySize e0) u (Node.state x)).
  { intros u. rewrite in_closed_add, !Hext, Hx. cbn.
    destruct Hse2 as (_ & _ & _ & -> & ->). by rewrite Hxs, Hysz. }
  assert (Hnew : ∀ k s', step (Bloxorz.map e0) (Node.state x) k s' →
                 Bloxorz.in_closed e s' = false →
                 child_node g x k s' ∈ PriorityQueue.data (Bloxorz.queue e2)).
  { intros k s' Hstep Hs'. apply Hel2. left.
    apply new_nodes_intro; [|done]. apply step_moves.
    cbn [Bloxorz.map Bloxorz.with_queue]. by rewrite Hm. }
  assert (Hold : ∀ n, n ∈ PriorityQueue.data (Bloxorz.queue e) →
                 n = x ∨ n ∈ PriorityQueue.data (Bloxorz.queue e2)).
  { intros n [->|Hn]%Hel; [by left|]. right. apply Hel2. by right. }
  split; [|split; [|split; [|split]]]; rewrite ?queue_closed_add.
  - apply (same_board_trans _ e); [done|].
    apply (same_board_trans _ e2); [done|apply same_board_closed_add].
  - intros n [Hn|Hn]%Hel2.
    + apply new_nodes_elem in Hn as (k & s' & Hk & _ & ->).
      cbn [Bloxorz.map Bloxorz.with_queue] in Hk. rewrite Hm in Hk.
      split; [by apply path_ok_child|].
      cbn. rewrite Hys. apply (step_valid _ _ (Node.state x) k); [done|].
      by apply moves_elem.
    + apply Hnodes, Hel. by right.
  - destruct HD as [HD|(n & Hn & Hst & Hp)].
    { left. by rewrite Hin3, HD. }
    destruct (Hold n Hn) as [->|Hn2].
    + left. rewrite Hin3, <- Hst, state_eq_refl. by rewrite orb_true_r.
    + right. by exists n.
  - intros c p k s' Hc Hp Hstep. rewrite Hin3.
    destruct (Bloxorz.in_closed e s') eqn:Hs'; [by left|].
    rewrite Hin3 in Hc. apply orb_true_iff in Hc as [Hc|Hc].
    + destruct (HB c p k s' Hc Hp Hstep) as [?|(n & Hn & Hst & Hlen)];
        [congruence|].
      destruct (Hold n Hn) as [->|Hn2].
      * left. rewrite <- Hst, state_eq_refl. done.
      * right. by exists n.
    + assert (c = Node.state x) as ->.
      { apply (eq_iff (Bloxorz.xSize e0) (Bloxorz.ySize e0)); [|done..].
        rewrite Hys. by apply (replay_valid _ _ init p); [|rewrite <- Hys|]. }
      right. exists (child_node g x k s'). split; [by apply Hnew|].
      split; [done|]. by apply Hnear.
  - rewrite Hin3, HG. cbn. apply not_true_iff_false. intros Heq.
    apply eq_iff in Heq; [|done..].
    apply not_true_iff_false in Hgoal. apply Hgoal, at_goal_iff. done.
Qed.

(** As long as a reachable state is not closed, some queued node stands on
    the way to it: the path to the state runs through the state of that
    node, which is the initial state with the empty path, or the successor
    of a closed state. *)
Lemma reach_frontier e0 g init near e q t :
  reach_inv e0 g init near e →
  Bloxorz.replay (Bloxorz.map e0) init q = Done t →
  Bloxorz.in_closed e t = false →
  ∃ n q1 q2, n ∈ PriorityQueue.data (Bloxorz.queue e)
    ∧ q = q1 ++ q2
    ∧ Bloxorz.replay (Bloxorz.map e0) (Node.state n) q2 = Done t
    ∧ ((q1 = [] ∧ Node.path n = []) ∨ ∃ q0 k, q1 = q0 ++ [k] ∧ near n q0).
Proof.
  intros (_ & _ & HD & HB & _). revert t.
  induction q as [|a q IH] using rev_ind; intros t Hq Ht.
  - injection Hq as <-. destruct HD as [HD|(n & Hn & Hs & Hp)]; [congruence|].
    exists n, [], []. rewrite Hs. split; [done|]. split; [done|].
    split; [done|]. by left.
  - apply replay_snoc in Hq as (t' & Hq & Hstep).
    destruct (Bloxorz.in_closed e t') eqn:Ht'.
    + destruct (HB t' q a t Ht' Hq Hstep) as [?|(n & Hn & Hs & Hlen)];
        [congruence|].
      exists n, (q ++ [a]), []. rewrite Hs, app_nil_r.
      split; [done|]. split; [done|]. split; [done|]. right. by exists q, a.
    + destruct (IH t' Hq Ht') as (n & q1 & q2 & Hn & -> & Hr & Hcase).
      exists n, q1, (q2 ++ [a]). split; [done|]. split; [by rewrite app_assoc|].
      split; [|done]. apply replay_snoc. by exists t'.
Qed.

(** During the first call, the queued node on the way has a cost guess no
    greater than that of the whole path. *)
Lemma frontier e0 g init e q t :
  astar_inv e0 g init e →
  Bloxorz.replay (Bloxorz.map e0) init q = Done t →
  Bloxorz.in_closed e t = false →
  ∃ n, n ∈ PriorityQueue.data (Bloxorz.queue e)
       ∧ f3 g n ≤ 3 * Py.len q + h3 g t.
Proof.
  intros (Hreach & _) Hq Ht.
  destruct (reach_frontier e0 g init _ e q t Hreach Hq Ht)
    as (n & q1 & q2 & Hn & -> & Hr & Hcase).
  exists n. split; [done|].
  pose proof (replay_h3 _ g _ _ _ Hr) as Hh.
  unfold f3, Py.len in *. rewrite length_app.
  destruct Hcase as [[-> ->]|(q0 & k & -> & Hlen)].
  - cbn [length]. lia.
  - rewrite length_app. cbn [length]. lia.
Qed.

(** The exact cost guesses of the queued nodes stay below 2^48 / 3 on a
    small board. *)
Lemma queued_f3_small e0 g init e n :
  board_ok e0 g init → small e0 → astar_inv e0 g init e →
  n ∈ PriorityQueue.data (Bloxorz.queue e) → f3 g n ≤ 2 ^ 48.
Proof.
  intros (_ & _ & Hvi & Hvg) Hsmall (Hreach & _ & Hcost & Hnd & Hcv) Hn.
  destruct Hreach as (_ & Hnodes & _).
  destruct (Hnodes n Hn) as (_ & Hv). destruct (Hcost n Hn) as (_ & Hlen).
  pose proof (closed_bound _ _ _ Hnd Hcv) as Hcb.
  unfold small in Hsmall. unfold f3, h3, Py.len in *.
  destruct Hv as (Hx & Hy & _), Hvg as (Hgx & Hgy & _).
  unfold goal_state in Hgx, Hgy. cbn in Hgx, Hgy.
  set (X := Bloxorz.xSize e0) in *. set (Y := Bloxorz.ySize e0) in *.
  assert (X ≤ X * Y) by nia. assert (Y ≤ X * Y) by nia.
  change (2 ^ 44) with 17592186044416 in Hsmall.
  change (2 ^ 48) with 281474976710656. lia.
Qed.

(** The first time a state is popped, it is popped with a shortest path. *)
Lemma pop_optimal e0 g init e x q' q :
  board_ok e0 g init → small e0 →
  astar_inv e0 g init e → popped (Bloxorz.queue e) x q' →
  Bloxorz.in_closed e (Node.state x) = false →
  Bloxorz.replay (Bloxorz.map e0) init q = Done (Node.state x) →
  (length (Node.path x) ≤ length q)%nat.
Proof.
  intros Hb Hsmall Hinv Hpop Hx Hq.
  destruct (frontier e0 g init e q _ Hinv Hq Hx) as (n & Hn & Hle).
  pose proof (queued_f3_small e0 g init e n Hb Hsmall Hinv Hn) as Hbound.
  destruct Hinv as (_ & Hheap & Hcost & _).
  destruct Hpop as (_ & Hperm & Hmin). destruct (Hmin Hheap) as [_ Hmin'].
  assert (Hxin : x ∈ PriorityQueue.data (Bloxorz.queue e)).
  { rewrite Hperm. by left. }
  pose proof (node_le_f3 g x n (proj1 (Hcost _ Hxin)) (proj1 (Hcost _ Hn))
                Hbound (Hmin' _ Hn)).
  unfold f3, Py.len in *. lia.
Qed.

Lemma astar_skip e0 g init e x q :
  astar_inv e0 g init e → popped (Bloxorz.queue e) x q →
  Bloxorz.in_closed e (Node.state x) = true →
  astar_inv e0 g init (Bloxorz.with_queue e q).
Proof.
  intros (Hreach & Hheap & Hcost & Hnd & Hcv) Hpop Hx.
  pose proof (fun n => popped_elem _ _ _ n Hpop) as Hel.
  split; [by apply (reach_skip _ _ _ _ e x)|]. split; [by apply Hpop|].
  split; [|done]. intros n Hn. apply Hcost, Hel. by right.
Qed.

Lemma astar_expand e0 g init e x q e2 :
  board_ok e0 g init → small e0 →
  astar_inv e0 g init e → popped (Bloxorz.queue e) x q →
  Bloxorz.in_closed e (Node.state x) = false →
  at_goal g (Node.state x) = false →
  pushed g (Bloxorz.with_queue e q) x e2 →
  astar_inv e0 g init (Bloxorz.closed_add e2 (Node.state x)).
Proof.
  intros Hb Hsmall Hinv Hpop Hx Hgoal Hpush.
  pose proof (fun p => pop_optimal e0 g init e x q p Hb Hsmall Hinv Hpop Hx)
    as Hopt.
  destruct Hinv as (Hreach & Hheap & Hcost & Hnd & Hcv).
  pose proof (fun n => popped_elem _ _ _ n Hpop) as Hel.
  pose proof (fun n => pushed_elem _ _ _ _ n Hpush) as Hel2.
  assert (Hxin : x ∈ PriorityQueue.data (Bloxorz.queue e)) by (apply Hel; by left).
  assert (Hxv : valid (Bloxorz.xSize e0) (Bloxorz.ySize e0) (Node.state x)).
  { destruct Hreach as (_ & Hnodes & _). by apply Hnodes. }
  assert (Hse : same_board e e2) by apply Hpush.
  assert (Hcl : Bloxorz.closed e2 = Bloxorz.closed e) by apply Hpush.
  assert (Hin2 : Bloxorz.in_closed e2 (Node.state x) = false).
  { by rewrite (in_closed_ext e e2). }
  assert (Hadd : Bloxorz.closed (Bloxorz.closed_add e2 (Node.state x))
                 = Bloxorz.closed e ++ [Node.state x]).
  { unfold Bloxorz.closed_add. rewrite Hin2. cbn. by rewrite Hcl. }
  split; [|split; [|split; [|split]]]; rewrite ?queue_closed_add, ?Hadd.
  - apply (reach_expand _ _ _ _ e x q); try done.
    intros p k s' Hp _. cbn. rewrite length_app. cbn.
    specialize (Hopt p Hp). lia.
  - destruct Hpush as (_ & _ & _ & _ & Hok2). apply Hok2. by apply Hpop.
  - intros n [Hn|Hn]%Hel2.
    + apply new_nodes_elem in Hn as (k & s' & _ & _ & ->).
      split; [apply child_cost_ok|].
      cbn. rewrite !length_app. cbn. destruct (Hcost x Hxin) as [_ Hlen]. lia.
    + cbn [Bloxorz.queue Bloxorz.with_queue] in Hn.
      destruct (Hcost n) as [Hc Hlen]; [apply Hel; by right|].
      split; [done|]. rewrite length_app. lia.
  - apply NoDup_app. split; [done|]. split; [|apply NoDup_singleton].
    intros c Hc ->%list_elem_of_singleton.
    pose proof (in_closed_false e _ _ Hx Hc) as Hne.
    by rewrite state_eq_refl in Hne.
  - intros c [Hc | ->%list_elem_of_singleton]%elem_of_app; [by apply Hcv|done].
Qed.

(** A call of [solve] on an engine that satisfies the invariant of
    reachability returns a path to the goal state, or the empty list when
    the goal state cannot be reached; this does not depend on the order of
    the pops. *)
Lemma solve_complete e0 g init e :
  board_ok e0 g init →
  queue_ok (Bloxorz.queue e) → Bloxorz.goal e = Some g →
  reach_inv e0 g init (fun _ _ => True) e →
  ∃ x e', Bloxorz.solve_exit e = Done (x, e')
    ∧ match x with
      | Bloxorz.ReturnPath n =>
          Bloxorz.replay (Bloxorz.map e0) init (Node.path n) = Done (goal_state g)
      | Bloxorz.ReturnEmpty =>
          ∀ q, Bloxorz.replay (Bloxorz.map e0) init q ≠ Done (goal_state g)
      end.
Proof.
  intros Hb Hq Hg Hinv.
  destruct (solve_exit_rule g (reach_inv e0 g init (fun _ _ => True))
              (fun x e' =>
                 match x with
                 | Bloxorz.ReturnPath n =>
                     Bloxorz.replay (Bloxorz.map e0) init (Node.path n)
                     = Done (goal_state g)
                 | Bloxorz.ReturnEmpty =>
                     ∀ q, Bloxorz.replay (Bloxorz.map e0) init q
                          ≠ Done (goal_state g)
                 end)) with (e := e)
    as (x & e' & Hrun & _ & _ & HQ); try done.
  - clear -Hb. intros e _ _ Hinv Hd q Hq.
    assert (HG : Bloxorz.in_closed e (goal_state g) = false) by apply Hinv.
    destruct (reach_frontier e0 g init _ e q _ Hinv Hq HG) as (n & _ & _ & Hn & _).
    rewrite Hd in Hn. by apply elem_of_nil in Hn.
  - clear. intros e x q _ _ Hinv Hpop Hx. by apply (reach_skip e0 g init _ e x q).
  - clear -Hb. intros e x q _ _ Hinv Hpop Hx Hgoal.
    apply at_goal_iff in Hgoal.
    assert (Hxin : x ∈ PriorityQueue.data (Bloxorz.queue e)).
    { apply (popped_elem _ _ _ x Hpop). by left. }
    destruct Hinv as (_ & Hnodes & _).
    destruct (Hnodes x Hxin) as (Hpath & _). unfold path_ok in Hpath.
    by rewrite Hgoal in Hpath.
  - clear -Hb. intros e x q e2 _ _ Hinv Hpop Hx Hgoal Hpush.
    by apply (reach_expand e0 g init _ e x q e2).
  - by exists x, e'.
Qed.

(** The first call of [solve] on an engine that satisfies the invariant, on
    a small board: either it returns the path of a node that reaches the
    goal state by a shortest path, or it returns the empty list and the goal
    state cannot be reached. *)
Lemma solve_optimal e0 g init e :
  board_ok e0 g init → small e0 →
  queue_ok (Bloxorz.queue e) → Bloxorz.goal e = Some g →
  astar_inv e0 g init e →
  ∃ x e', Bloxorz.solve_exit e = Done (x, e')
    ∧ match x with
      | Bloxorz.ReturnPath n =>
          Bloxorz.replay (Bloxorz.map e0) init (Node.path n) = Done (goal_state g)
          ∧ ∀ q, Bloxorz.replay (Bloxorz.map e0) init q = Done (goal_state g)
                 → (length (Node.path n) ≤ length q)%nat
      | Bloxorz.ReturnEmpty =>
          ∀ q, Bloxorz.replay (Bloxorz.map e0) init q ≠ Done (goal_state g)
      end.
Proof.
  intros Hb Hsmall Hq Hg Hinv.
  destruct (solve_exit_rule g (astar_inv e0 g init)
              (fun x e' =>
                 match x with
                 | Bloxorz.ReturnPath n =>
                     Bloxorz.replay (Bloxorz.map e0) init (Node.path n)
                     = Done (goal_state g)
                     ∧ ∀ q, Bloxorz.replay (Bloxorz.map e0) init q
                            = Done (goal_state g)
                            → (length (Node.path n) ≤ length q)%nat
                 | Bloxorz.ReturnEmpty =>
                     ∀ q, Bloxorz.replay (Bloxorz.map e0) init q
                          ≠ Done (goal_state g)
                 end)) with (e := e)
    as (x & e' & Hrun & _ & _ & HQ); try done.
  - clear -Hb. intros e _ _ Hinv Hd q Hq.
    assert (HG : Bloxorz.in_closed e (goal_state g) = false) by apply Hinv.
    destruct (frontier e0 g init e q _ Hinv Hq HG) as (n & Hn & _).
    rewrite Hd in Hn. by apply elem_of_nil in Hn.
  - clear. intros e x q _ _ Hinv Hpop Hx. by apply (astar_skip e0 g init e x q).
  - clear -Hb Hsmall. intros e x q _ _ Hinv Hpop Hx Hgoal.
    apply at_goal_iff in Hgoal.
    assert (Hxin : x ∈ PriorityQueue.data (Bloxorz.queue e)).
    { apply (popped_elem _ _ _ x Hpop). by left. }
    assert (Hnode : node_ok e0 init x) by by apply Hinv.
    destruct Hnode as (Hpath & _). unfold path_ok in Hpath.
    rewrite Hgoal in Hpath. split; [done|].
    intros p Hp. apply (pop_optimal e0 g init e x q); try done.
    by rewrite Hgoal.
  - clear -Hb Hsmall. intros e x q e2 _ _ Hinv Hpop Hx Hgoal Hpush.
    by apply (astar_expand e0 g init e x q e2).
  - by exists x, e'.
Qed.

Lemma init_reach_inv e g init near :
  Bloxorz.closed e = [] →
  PriorityQueue.data (Bloxorz.queue e) = [Node.mk (hval g init) init []] →
  valid (Bloxorz.xSize e) (Bloxorz.ySize e) init →
  reach_inv e g init near e.
Proof.
  intros Hc Hd Hv.
  assert (Hno : ∀ s, Bloxorz.in_closed e s = false).
  { intros s. unfold Bloxorz.in_closed. by rewrite Hc. }
  unfold reach_inv. rewrite Hd.
  split; [done|]. split; [|split; [|split; [|done]]].
  - by intros n ->%list_elem_of_singleton.
  - right. eexists. split; [by apply list_elem_of_singleton|done].
  - intros c q k s' Hcl. by rewrite Hno in Hcl.
Qed.

Lemma init_astar_inv e g init :
  Bloxorz.closed e = [] →
  PriorityQueue.data (Bloxorz.queue e) = [Node.mk (hval g init) init []] →
  valid (Bloxorz.xSize e) (Bloxorz.ySize e) init →
  astar_inv e g init e.
Proof.
  intros Hc Hd Hv. split; [by apply init_reach_inv|].
  rewrite Hd, Hc. split; [apply heap_ok_singleton|].
  split; [|split; [apply NoDup_nil_2|]].
  - intros n ->%list_elem_of_singleton. split; [apply init_cost_ok|done].
  - by intros c ?%elem_of_nil.
Qed.

(** C1.  On a rectangular board of at most 2^44 cells, the first call of
    [solve] on the freshly constructed engine returns, and whenever some
    sequence of actions leads from the initial state to a state that
    satisfies [is_goal], the returned list is such a sequence and no such
    sequence is shorter: its length is the minimum number of actions.  The
    cost guesses are the floats of the program; on a board of that size
    their order refines the order of the exact cost guesses. *)
Theorem C1_first_solve_optimal b w e :
  rectangular b w → w * Py.len b ≤ 2 ^ 44 → Bloxorz.__init__ b = Done e →
  ∃ p e', Bloxorz.solve e = Done (p, e')
    ∧ ∀ init q t,
        Bloxorz.initial e = Some init →
        Bloxorz.replay (Bloxorz.map e) init q = Done t →
        Bloxorz.is_goal (Bloxorz.goal e) t = Done true →
        (∃ t', Bloxorz.replay (Bloxorz.map e) init p = Done t'
               ∧ Bloxorz.is_goal (Bloxorz.goal e) t' = Done true)
        ∧ (length p ≤ length q)%nat.
Proof.
  intros Hb Hsize He.
  destruct (init_ready b e He) as (Hq & Hc & Hcase).
  destruct Hcase as [[Hi Hd]|(g & init & Hg & Hi & Hd)].
  { exists [], e. split; [by apply solve_empty_queue|].
    intros init q t Hinit. congruence. }
  pose proof (init_board_ok b w e g init Hb He Hg Hi) as Hok.
  assert (Hsmall : small e).
  { destruct (init_spec b e He) as (_ & Hys & (row0 & Hrow0 & Hxs) & _).
    rewrite (rectangular_lookup b w 0 row0 Hb Hrow0) in Hxs.
    unfold small. by rewrite Hxs, Hys. }
  destruct (solve_optimal e g init e) as (x & e' & Hrun & Hx); [done..| |].
  { apply init_astar_inv; [done..|]. apply Hok. }
  exists (Bloxorz.returned x), e'. split; [by apply solve_of_exit|].
  intros init' q t Hinit Hq' Ht. assert (init' = init) as -> by congruence.
  rewrite Hg, is_goal_done in Ht. injection Ht as Ht%at_goal_iff. subst t.
  destruct x as [n|]; [|by destruct (Hx q)].
  destruct Hx as [Hpath Hmin]. cbn. split; [|by apply Hmin].
  exists (goal_state g). split; [done|].
  rewrite Hg, is_goal_done. f_equal. by apply at_goal_iff.
Qed.

Lemma C1_first_solve_optimal_witness :
  ∃ p e', Bloxorz.solve engine_SOOG = Done (p, e')
    ∧ ∀ init q t,
        Bloxorz.initial engine_SOOG = Some init →
        Bloxorz.replay (Bloxorz.map engine_SOOG) init q = Done t →
        Bloxorz.is_goal (Bloxorz.goal engine_SOOG) t = Done true →
        (∃ t', Bloxorz.replay (Bloxorz.map engine_SOOG) init p = Done t'
               ∧ Bloxorz.is_goal (Bloxorz.goal engine_SOOG) t' = Done true)
        ∧ (length p ≤ length q)%nat.
Proof.
  apply (C1_first_solve_optimal (board ["SOOG"]) 4 engine_SOOG).
  - repeat constructor.
  - vm_compute. discriminate.
  - vm_compute. reflexivity.
Defined.

(** ** The start markers *)

Lemma find_from_first c i s j :
  0 ≤ i → Py.find_from [c] i s ≠ -1 →
  (j < Z.to_nat (Py.find_from [c] i s - i))%nat → s !! j ≠ Some c.
Proof.
  revert i j. induction s as [|a s IH]; intros i j Hi; [done|].
  cbn [Py.find_from length take]. destruct (decide _) as [E|E].
  { intros _. lia. }
  intros Hr Hj.
  pose proof (find_from_range [c] (i + 1) s ltac:(done) ltac:(lia) Hr).
  destruct j as [|j]; cbn.
  - intros [= ->]. by apply E.
  - apply (IH (i + 1)); [lia|done|lia].
Qed.

Lemma find_from_none c i s j :
  Py.find_from [c] i s = -1 → 0 ≤ i → s !! j ≠ Some c.
Proof.
  revert i j. induction s as [|a s IH]; intros i j; [done|].
  cbn [Py.find_from length take]. destruct (decide _) as [E|E]; [lia|].
  intros Hr Hi. destruct j as [|j]; cbn.
  - intros [= ->]. by apply E.
  - apply (IH (i + 1)); [done|lia].
Qed.

Lemma replace_char_cons c d a s :
  Py.replace (a :: s) [c] [d]
  = (if decide (a = c) then d else a) :: Py.replace s [c] [d].
Proof.
  unfold Py.replace. cbn [Py.replace_from length Nat.sub].
  change (take 1 (a :: s)) with [a].
  destruct (decide ([a] = [c])) as [E|E], (decide (a = c)) as [E'|E'];
    try done.
  - by injection E.
  - by subst.
Qed.

Lemma replace_char_lookup c d s j :
  Py.replace s [c] [d] !! j
  = (fun a => if decide (a = c) then d else a) <$> s !! j.
Proof.
  revert j. induction s as [|a s IH]; intros j; [done|].
  rewrite replace_char_cons. destruct j as [|j]; [done|]. apply IH.
Qed.


Lemma cell_lookup m x y c :
  cell m x y = Some c
  ↔ 0 ≤ x ∧ 0 ≤ y ∧ ∃ row, m !! Z.to_nat y = Some row ∧ row !! Z.to_nat x = Some c.
Proof.
  unfold cell. destruct (decide (0 ≤ x ∧ 0 ≤ y)) as [[??]|Hn].
  - destruct (m !! Z.to_nat y) as [row|]; cbn.
    + split; [by eauto|]. by intros (_ & _ & row' & [= <-] & ?).
    + split; [done|]. by intros (_ & _ & row' & [=] & _).
  - split; [done|]. intros (? & ? & _). by destruct Hn.
Qed.

(** The row-major first cell that holds [c]. *)
Lemma first_row_with_first c b res i :
  Bloxorz.first_row_with [c] 0 b = Some (res, i) →
  cell b res i = Some c
  ∧ ∀ x y, cell b x y = Some c → i < y ∨ (i = y ∧ res ≤ x).
Proof.
  intros H.
  destruct (first_row_with_spec _ _ _ _ _ H) as (Hi & row & Hrow & Hf & Hne & Hbefore).
  rewrite Z.sub_0_r in *. pose proof (find_range row [c] ltac:(done)) as Hrange.
  subst res. specialize (Hrange Hne). split.
  { apply cell_lookup. split; [lia|]. split; [lia|]. exists row.
    split; [done|]. by apply find_char. }
  intros x y (Hx & Hy & row' & Hrow' & Hc)%cell_lookup.
  destruct (decide (y < i)) as [Hlt|]; [exfalso|].
  { apply (find_from_none c 0 row' (Z.to_nat x)); [|done..].
    apply (Hbefore (Z.to_nat y)); [lia|done]. }
  destruct (decide (i = y)) as [->|]; [|lia]. right. split; [done|].
  assert (row' = row) as -> by congruence.
  destruct (decide (Py.find row [c] ≤ x)); [done|]. exfalso.
  apply (find_from_first c 0 row (Z.to_nat x)); [done|done| |done].
  unfold Py.find in *. lia.
Qed.

Lemma first_row_with_none c b x y :
  Bloxorz.first_row_with [c] 0 b = None → cell b x y ≠ Some c.
Proof.
  intros H (Hx & Hy & row & Hrow & Hc)%cell_lookup.
  assert (Hall : ∀ i0 rows j r, Bloxorz.first_row_with [c] i0 rows = None →
                 rows !! j = Some r → Py.find r [c] = -1).
  { clear. intros i0 rows. revert i0.
    induction rows as [|r0 rows IH]; intros i0 j r; [done|].
    cbn [Bloxorz.first_row_with]. destruct (decide _) as [|Hn]; [done|].
    intros Hnone. destruct j as [|j]; cbn.
    - intros [= <-]. by apply dec_stable in Hn.
    - by apply (IH (i0 + 1)). }
  by apply (find_from_none c 0 row (Z.to_nat x)); [apply (Hall 0 b (Z.to_nat y))|..].
Qed.

Lemma index_lookup {A} (l : list A) (i : Z) :
  0 ≤ i →
  Py.index l i = match l !! Z.to_nat i with
                 | Some a => Done a
                 | None => Raise IndexError
                 end.
Proof.
  intros Hi. unfold Py.index. cbv zeta.
  destruct (decide (i < 0)); [lia|]. destruct (decide _) as [|Hn]; [done|].
  rewrite (lookup_ge_None_2 l); [done|]. lia.
Qed.

(** How the constructor detects the orientation and rewrites the rows. *)
Lemma init_map b e res i row :
  Bloxorz.__init__ b = Done e →
  Bloxorz.first_row_with (str "S") 0 b = Some (res, i) →
  b !! Z.to_nat i = Some row →
  (row !! Z.to_nat (res + 1) = Some "S"%char
   ∧ Bloxorz.initial e = Some (State.mk res i 1)
   ∧ Bloxorz.map e = <[Z.to_nat i := Py.replace row (str "SS") (str "00")]> b)
  ∨ (row !! Z.to_nat (res + 1) ≠ Some "S"%char
     ∧ ∃ below, b !! Z.to_nat (i + 1) = Some below
         ∧ below !! Z.to_nat res = Some "S"%char
         ∧ Bloxorz.initial e = Some (State.mk res i 2)
         ∧ Bloxorz.map e
           = <[Z.to_nat (i + 1) := Py.replace below (str "S") (str "0")]>
               (<[Z.to_nat i := Py.replace row (str "S") (str "0")]> b))
  ∨ (row !! Z.to_nat (res + 1) ≠ Some "S"%char
     ∧ (∀ below, b !! Z.to_nat (i + 1) = Some below
                 → below !! Z.to_nat res ≠ Some "S"%char)
     ∧ Bloxorz.initial e = Some (State.mk res i 0)
     ∧ Bloxorz.map e = <[Z.to_nat i := Py.replace row (str "S") (str "0")]> b).
Proof.
  intros He HS Hrow.
  destruct (first_row_with_spec _ _ _ _ _ HS) as (Hi & row' & Hrow' & Hfind & Hne & _).
  rewrite Z.sub_0_r in Hrow'. assert (row' = row) as -> by congruence.
  pose proof (find_range row (str "S") ltac:(done)) as Hres.
  rewrite Hfind in Hres. specialize (Hres Hne).
  destruct (init_ready b e He) as (_ & _ & [[Hini _]|(g & init & Hg & _ & _)]).
  { destruct (init_spec b e He) as (_ & _ & _ & _ & _ & _ & H).
    rewrite HS in H. destruct H as (? & ? & _ & _ & ? & _). congruence. }
  destruct (init_spec b e He) as (_ & _ & _ & HG & _).
  rewrite Hg in HG. symmetry in HG.
  revert He. unfold Bloxorz.__init__.
  destruct (Py.index b 0) as [row0| |]; [|done..]. cbn [mbind run_bind].
  rewrite HS, HG, (index_lookup b i), Hrow by lia. cbn [mbind run_bind].
  destruct (decide (res + 1 < Py.len row)) as [Hlt|Hge].
  - rewrite (index_lookup row (res + 1)) by lia.
    destruct (row !! Z.to_nat (res + 1)) as [c|] eqn:Hc; [|done].
    cbn [mbind run_bind].
    destruct (bool_decide (c = "S"%char)) eqn:Hcs.
    + apply bool_decide_eq_true in Hcs as ->. cbn [mbind run_bind].
      rewrite heuristic_hval. cbn [mbind run_bind]. intros [= <-]. by left.
    + apply bool_decide_eq_false in Hcs. cbn [mbind run_bind].
      assert (Hc' : Some c ≠ Some "S"%char) by congruence.
      destruct (decide (i + 1 < Py.len b)) as [Hi1|Hi1].
      * rewrite (index_lookup b (i + 1)) by lia.
        destruct (b !! Z.to_nat (i + 1)) as [below|] eqn:Hbelow; [|done].
        cbn [mbind run_bind]. rewrite (index_lookup below res) by lia.
        destruct (below !! Z.to_nat res) as [c2|] eqn:Hc2; [|done].
        cbn [mbind run_bind].
        destruct (bool_decide (c2 = "S"%char)) eqn:Hc2s.
        -- apply bool_decide_eq_true in Hc2s as ->.
           rewrite (index_lookup _ (i + 1)) by lia.
           rewrite list_lookup_insert_ne, Hbelow by lia.
           cbn [mbind run_bind]. rewrite heuristic_hval. cbn [mbind run_bind].
           intros [= <-]. right. left. split; [done|]. by exists below.
        -- apply bool_decide_eq_false in Hc2s. cbn [mbind run_bind].
           rewrite heuristic_hval. cbn [mbind run_bind].
           intros [= <-]. right. right. split; [done|]. split; [|done].
           intros below' [= <-]. congruence.
      * cbn [mbind run_bind]. rewrite heuristic_hval. cbn [mbind run_bind].
        intros [= <-]. right. right. split; [done|]. split; [|done].
        intros below' Hb'%lookup_lt_Some. unfold Py.len in Hi1. lia.
  - assert (Hc' : row !! Z.to_nat (res + 1) ≠ Some "S"%char).
    { rewrite lookup_ge_None_2; [done|]. unfold Py.len in Hge. lia. }
    cbn [mbind run_bind].
    destruct (decide (i + 1 < Py.len b)) as [Hi1|Hi1].
    * rewrite (index_lookup b (i + 1)) by lia.
      destruct (b !! Z.to_nat (i + 1)) as [below|] eqn:Hbelow; [|done].
      cbn [mbind run_bind]. rewrite (index_lookup below res) by lia.
      destruct (below !! Z.to_nat res) as [c2|] eqn:Hc2; [|done].
      cbn [mbind run_bind].
      destruct (bool_decide (c2 = "S"%char)) eqn:Hc2s.
      -- apply bool_decide_eq_true in Hc2s as ->.
         rewrite (index_lookup _ (i + 1)) by lia.
         rewrite list_lookup_insert_ne, Hbelow by lia.
         cbn [mbind run_bind]. rewrite heuristic_hval. cbn [mbind run_bind].
         intros [= <-]. right. left. split; [done|]. by exists below.
      -- apply bool_decide_eq_false in Hc2s. cbn [mbind run_bind].
         rewrite heuristic_hval. cbn [mbind run_bind].
         intros [= <-]. right. right. split; [done|]. split; [|done].
         intros below' [= <-]. congruence.
    * cbn [mbind run_bind]. rewrite heuristic_hval. cbn [mbind run_bind].
      intros [= <-]. right. right. split; [done|]. split; [|done].
      intros below' Hb'%lookup_lt_Some. unfold Py.len in Hi1. lia.
Qed.

(** [solve] writes only the queue and the closed set. *)
Lemma push_successors_same_board e x d e2 :
  Bloxorz.push_successors e x d = Done e2 → same_board e e2.
Proof.
  revert e. induction d as [|[k s'] d IH]; intros e; cbn [Bloxorz.push_successors].
  { by intros [= <-]. }
  destruct (negb _); [|apply IH].
  destruct (Bloxorz.heuristic _ _) as [h| |]; [|done..]. cbn [mbind run_bind].
  intros H%IH. done.
Qed.

Lemma solve_loop_same_board fuel e x e' :
  Bloxorz.solve_loop fuel e = Done (x, e') → same_board e e'.
Proof.
  revert e. induction fuel as [|fuel IH]; intros e; [done|].
  cbn [Bloxorz.solve_loop].
  destruct (PriorityQueue.not_empty _); [|by intros [= <- <-]].
  destruct (PriorityQueue.pop _) as [[current q]| |]; [|done..].
  cbn [mbind run_bind]. destruct (negb _).
  2: { intros H%IH. done. }
  destruct (Bloxorz.is_goal _ _) as [[|]| |]; [| |done..]; cbn [mbind run_bind].
  { by intros [= <- <-]. }
  destruct (Bloxorz.successors _ _) as [d| |]; [|done..]. cbn [mbind run_bind].
  destruct (Bloxorz.push_successors _ _ _) as [e2| |] eqn:Hpush; [|done..].
  cbn [mbind run_bind]. intros H%IH.
  apply push_successors_same_board in Hpush.
  apply (same_board_trans _ e2); [done|].
  apply (same_board_trans _ (Bloxorz.closed_add e2 (Node.state current)));
    [apply same_board_closed_add|done].
Qed.

Lemma solve_same_board e p e' :
  Bloxorz.solve e = Done (p, e') → same_board e e'.
Proof.
  unfold Bloxorz.solve, Bloxorz.solve_exit.
  destruct (Bloxorz.solve_loop _ e) as [[x e1]| |] eqn:Hrun; [|done..].
  cbn. intros [= _ <-]. by apply (solve_loop_same_board _ _ x _ Hrun).
Qed.

Lemma calls_same_board n e e_n : calls n e = Done e_n → same_board e e_n.
Proof.
  revert e_n. induction n as [|n IH]; intros e_n; cbn [calls].
  { by intros [= <-]. }
  destruct (calls n e) as [e1| |]; [|done..]. cbn [mbind run_bind].
  destruct (Bloxorz.solve e1) as [[p e2]| |] eqn:Hsolve; [|done..].
  cbn. intros [= <-]. apply (same_board_trans _ e1); [by apply IH|].
  by apply (solve_same_board _ p).
Qed.


Lemma footprint_elem x y o x' y' :
  (x', y') ∈ footprint x y o
  ↔ match o with
    | Standing => x' = x ∧ y' = y
    | LyingAlongX => (x' = x ∨ x' = x + 1) ∧ y' = y
    | LyingAlongY => x' = x ∧ (y' = y ∨ y' = y + 1)
    end.
Proof.
  destruct o; cbn; rewrite !elem_of_cons, elem_of_nil; split.
  - intros [[= -> ->]|[]]. done.
  - intros [-> ->]. by left.
  - intros [[= -> ->]|[[= -> ->]|[]]]; split; auto.
  - intros [[->| ->] ->]; auto.
  - intros [[= -> ->]|[[= -> ->]|[]]]; split; auto.
  - intros [-> [->| ->]]; auto.
Qed.



Example init_GOS : Bloxorz.__init__ (board ["GOS"]) = Done engine_GOS.
Proof. vm_compute. reflexivity. Qed.



Lemma C2_successors_table_witness :
  ∃ d, Bloxorz.successors (board ["GO0"]) (State.mk 2 0 (code Standing)) = Done d
    ∧ d = omap (table_move (board ["GO0"]) Standing 2 0) [U; D; L; R]
    ∧ (length d ≤ 4)%nat
    ∧ ∀ a, let '(checks, target) := table Standing a 2 0 in
        checks = footprint target.1.1 target.1.2 target.2
        ∧ ((∀ c, c ∈ checks → Bloxorz.is_safe (board ["GO0"]) c.1 c.2 = Done true)
           → Py.dict_get d a = Done (table_state target))
        ∧ (¬ (∀ c, c ∈ checks → Bloxorz.is_safe (board ["GO0"]) c.1 c.2 = Done true)
           → Py.dict_get d a = Raise KeyError).
Proof. apply (C2_successors_table (board ["GO0"]) 2 0 Standing). Defined.

Example solve_level_one :
  (p ← result_of level_one; Done (length p)) = Done 7%nat.
Proof. vm_compute. reflexivity. Qed.

(** Which of several shortest paths is returned depends on the rounding of
    the cost guesses: [4/3 + 1/3] evaluates to a float below that of
    [5/3], so nodes whose exact cost guesses tie are popped in the order of
    their floats. *)
Example solve_level_one_path :
  result_of level_one = Done [R; D; R; R; D; D; R].
Proof. vm_compute. reflexivity. Qed.

Example solve_ties_by_rounding :
  result_of (board ["SOOOG"; "OOOOO"; "OOOOO"]) = Done [D; R; U; R; R].
Proof. vm_compute. reflexivity. Qed.

(** Scenario A of the spec: from the start of "GOS" only Left is possible,
    from there nothing is, and [solve] returns the empty list. *)
Example scenario_A :
  Bloxorz.successors (Bloxorz.map engine_GOS) (State.mk 2 0 0)
  = Done [(L, State.mk 0 0 1)]
  ∧ Bloxorz.successors (Bloxorz.map engine_GOS) (State.mk 0 0 1) = Done []
  ∧ ∃ e', Bloxorz.solve engine_GOS = Done ([], e').
Proof. split; [done|]. split; [done|]. eexists. vm_compute. reflexivity. Qed.


(** * Further properties of the code *)

(** ** PriorityQueue and heapq *)

Lemma built_ok q : built q → queue_ok q ∧ heap_ok (PriorityQueue.data q).
Proof.
  induction 1 as [|q item _ [Hq Hh]|q x q' _ [Hq Hh] Hpop].
  - split; [done|]. intros i _.
    change (PriorityQueue.data PriorityQueue.__init__) with (@nil Node.t).
    by rewrite !lookup_nil.
  - destruct (push_spec q item Hq) as (? & _ & ?). auto.
  - destruct (PriorityQueue.data q) as [|n l] eqn:Hd.
    { unfold PriorityQueue.pop in Hpop. by rewrite Hd in Hpop. }
    destruct (pop_spec q Hq) as (x' & q'' & Hpop' & Hq' & _ & Hmin);
      [by rewrite Hd|].
    rewrite Hpop in Hpop'. injection Hpop' as <- <-.
    split; [done|]. apply Hmin. by rewrite Hd.
Qed.

Lemma pop_raises_iff q :
  PriorityQueue.pop q = Raise IndexError ↔ PriorityQueue.data q = [].
Proof.
  unfold PriorityQueue.pop. split.
  - destruct (PriorityQueue.data q) as [|n l] eqn:Hd; [done|].
    destruct (heappop_spec (n :: l)) as (x & h & -> & _); done.
  - by intros ->.
Qed.

(** X1.  In a queue built by [push] and [pop] from [PriorityQueue()], the
    counter is the number of stored items; [not_empty()] is true exactly
    when an item is stored, and [pop()] raises IndexError exactly when
    [not_empty()] is false. *)
Theorem X1_queue_counter q :
  built q →
  PriorityQueue.counter q = Py.len (PriorityQueue.data q)
  ∧ (PriorityQueue.not_empty q = true ↔ PriorityQueue.data q ≠ [])
  ∧ (PriorityQueue.pop q = Raise IndexError ↔ PriorityQueue.not_empty q = false).
Proof.
  intros [Hq _]%built_ok. split; [done|]. split; [by apply not_empty_iff|].
  rewrite pop_raises_iff, <- not_true_iff_false, not_empty_iff by done.
  split; [by intros -> ?|]. by destruct (PriorityQueue.data q); [|intros []].
Qed.

Lemma X1_queue_counter_witness :
  let q := PriorityQueue.push PriorityQueue.__init__ (Node.mk 1 (State.mk 0 0 0) []) in
  PriorityQueue.counter q = Py.len (PriorityQueue.data q)
  ∧ (PriorityQueue.not_empty q = true ↔ PriorityQueue.data q ≠ [])
  ∧ (PriorityQueue.pop q = Raise IndexError ↔ PriorityQueue.not_empty q = false).
Proof. apply X1_queue_counter. apply built_push, built_init. Defined.

(** X2.  On a built queue that is not empty, [pop()] returns a stored node
    that no stored node is less than (for [Node.__lt__]), and leaves exactly
    the other stored nodes. *)
Theorem X2_pop_returns_least q :
  built q → PriorityQueue.not_empty q = true →
  ∃ x q', PriorityQueue.pop q = Done (x, q')
    ∧ PriorityQueue.data q ≡ₚ x :: PriorityQueue.data q'
    ∧ ∀ y, y ∈ PriorityQueue.data q → Node.lt y x = false.
Proof.
  intros Hb Hne. destruct (built_ok q Hb) as [Hq Hh].
  apply not_empty_iff in Hne; [|done].
  destruct (pop_spec q Hq Hne) as (x & q' & Hpop & _ & Hperm & Hmin).
  exists x, q'. split; [done|]. split; [done|].
  intros y Hy. destruct (Hmin Hh) as [_ Hle]. specialize (Hle y Hy).
  destruct (Node.lt y x) eqn:Hlt; [|done]. exfalso.
  unfold Node.lt in Hlt. unfold node_le in Hle.
  destruct (_ ?= _)%Q eqn:Hc; try done.
  apply Qlt_alt in Hc. by apply Qlt_not_le in Hc.
Qed.

Lemma X2_pop_returns_least_witness :
  let q := PriorityQueue.push
             (PriorityQueue.push PriorityQueue.__init__
                (Node.mk 2 (State.mk 0 0 0) []))
             (Node.mk 1 (State.mk 1 0 0) []) in
  ∃ x q', PriorityQueue.pop q = Done (x, q')
    ∧ PriorityQueue.data q ≡ₚ x :: PriorityQueue.data q'
    ∧ ∀ y, y ∈ PriorityQueue.data q → Node.lt y x = false.
Proof.
  apply X2_pop_returns_least.
  - apply built_push, built_push, built_init.
  - reflexivity.
Defined.

(** X3.  Two [pop()] calls in a row on a built queue return nodes in order:
    the second is not less than the first. *)
Theorem X3_pops_in_order q x q1 y q2 :
  built q →
  PriorityQueue.pop q = Done (x, q1) → PriorityQueue.pop q1 = Done (y, q2) →
  Node.lt y x = false.
Proof.
  intros Hb Hp1 Hp2. destruct (built_ok q Hb) as [Hq Hh].
  assert (Hne : PriorityQueue.data q ≠ []).
  { intros Hd. apply pop_raises_iff in Hd. congruence. }
  destruct (pop_spec q Hq Hne) as (x' & q' & Hpop & Hq1 & Hperm & Hmin).
  rewrite Hp1 in Hpop. injection Hpop as <- <-.
  assert (Hne1 : PriorityQueue.data q1 ≠ []).
  { intros Hd. apply pop_raises_iff in Hd. congruence. }
  destruct (pop_spec q1 Hq1 Hne1) as (y' & q' & Hpop & _ & Hperm1 & _).
  rewrite Hp2 in Hpop. injection Hpop as <- <-.
  destruct (Hmin Hh) as [_ Hle].
  assert (Hy : y ∈ PriorityQueue.data q).
  { rewrite Hperm, Hperm1. right. by left. }
  specialize (Hle y Hy).
  destruct (Node.lt y x) eqn:Hlt; [|done]. exfalso.
  unfold Node.lt in Hlt. unfold node_le in Hle.
  destruct (_ ?= _)%Q eqn:Hc; try done.
  apply Qlt_alt in Hc. by apply Qlt_not_le in Hc.
Qed.

Lemma X3_pops_in_order_witness :
  Node.lt (Node.mk 2 (State.mk 0 0 0) []) (Node.mk 1 (State.mk 1 0 0) []) = false.
Proof.
  apply (X3_pops_in_order
           (PriorityQueue.push
              (PriorityQueue.push PriorityQueue.__init__
                 (Node.mk 2 (State.mk 0 0 0) []))
              (Node.mk 1 (State.mk 1 0 0) []))
           _ (PriorityQueue.mk [Node.mk 2 (State.mk 0 0 0) []] 1)
           _ (PriorityQueue.mk [] 0)).
  - apply built_push, built_push, built_init.
  - reflexivity.
  - reflexivity.
Defined.

(** ** The constructor *)

Lemma first_row_with_occurs c b :
  Bloxorz.first_row_with [c] 0 b = None ↔ ¬ occurs c b.
Proof.
  split.
  - intros Hn (x & y & Hc). by apply (first_row_with_none c b x y).
  - intros Hn. destruct (Bloxorz.first_row_with [c] 0 b) as [[res i]|] eqn:H; [|done].
    destruct Hn. exists res, i. by apply first_row_with_first.
Qed.

Lemma first_row_with_some c b p :
  Bloxorz.first_row_with [c] 0 b = Some p → occurs c b.
Proof.
  destruct p as [res i]. intros H. exists res, i. by apply first_row_with_first.
Qed.

Lemma init_outcome b w :
  rectangular b w → b ≠ [] →
  match Bloxorz.first_row_with (str "S") 0 b,
        Bloxorz.first_row_with (str "G") 0 b with
  | Some _, None => Bloxorz.__init__ b = Raise AttributeError
  | _, _ => ∃ e, Bloxorz.__init__ b = Done e
  end.
Proof.
  intros Hw Hne. unfold Bloxorz.__init__.
  destruct b as [|row0 rows] eqn:Hb; [done|]. rewrite <- Hb in *.
  assert (Hi0 : Py.index b 0 = Done row0) by by rewrite Hb.
  rewrite Hi0. cbn [mbind run_bind].
  destruct (Bloxorz.first_row_with (str "S") 0 b) as [[res i]|] eqn:HS.
  2: { destruct (Bloxorz.first_row_with _ _ _); by eexists. }
  destruct (first_row_with_spec _ _ _ _ _ HS) as (Hi & row & Hrow & Hfind & Hnf & _).
  rewrite Z.sub_0_r in Hrow.
  destruct (index_in_range b i) as (row' & Hrow' & ->); [lia|].
  assert (row' = row) as -> by congruence. cbn [mbind run_bind].
  pose proof (find_range row (str "S") ltac:(done)) as Hres.
  rewrite Hfind in Hres. specialize (Hres Hnf).
  pose proof (rectangular_lookup _ _ _ _ Hw Hrow) as Hlen.
  set (lying_x := if decide (res + 1 < Py.len row) then _ else _).
  assert (∃ bx, lying_x = Done bx) as [bx ->].
  { unfold lying_x. destruct (decide _); [|by eexists].
    destruct (index_in_range row (res + 1)) as (c & _ & ->); [lia|]. by eexists. }
  cbn [mbind run_bind].
  set (lying_y := if decide (i + 1 < Py.len b) then _ else _).
  assert (∃ by', lying_y = Done by') as [by' Hy].
  { unfold lying_y. destruct (decide _); [|by eexists].
    destruct (index_in_range b (i + 1)) as (below & Hbelow & ->); [lia|].
    cbn [mbind run_bind].
    pose proof (rectangular_lookup _ _ _ _ Hw Hbelow) as Hlen'.
    destruct (index_in_range below res) as (c & _ & ->); [lia|]. by eexists. }
  destruct (Bloxorz.first_row_with (str "G") 0 b) as [g|] eqn:HG.
  - destruct bx; cbn [mbind run_bind].
    { rewrite heuristic_hval. by eexists. }
    fold lying_y. rewrite Hy. cbn [mbind run_bind].
    destruct by'; cbn [mbind run_bind]; [|rewrite heuristic_hval; by eexists].
    cbn zeta.
    unfold lying_y in Hy. destruct (decide (i + 1 < Py.len b)); [|done].
    destruct (index_in_range (<[Z.to_nat i := Py.replace row (str "S") (str "0")]> b)
                (i + 1)) as (below & _ & ->).
    { unfold Py.len in *. rewrite length_insert. lia. }
    cbn [mbind run_bind]. rewrite heuristic_hval. by eexists.
  - destruct bx; cbn [mbind run_bind]; [done|].
    fold lying_y. rewrite Hy. cbn [mbind run_bind].
    destruct by'; cbn [mbind run_bind]; [|done].
    cbn zeta.
    unfold lying_y in Hy. destruct (decide (i + 1 < Py.len b)); [|done].
    destruct (index_in_range (<[Z.to_nat i := Py.replace row (str "S") (str "0")]> b)
                (i + 1)) as (below & _ & ->).
    { unfold Py.len in *. rewrite length_insert. lia. }
    done.
Qed.

(** X4.  On a board whose rows have one length, the constructor raises
    IndexError exactly for the board without rows, raises AttributeError
    exactly when some cell holds 'S' and none holds 'G', and returns an
    engine otherwise. *)
Theorem X4_init_outcome b w :
  rectangular b w →
  (Bloxorz.__init__ b = Raise IndexError ↔ b = [])
  ∧ (Bloxorz.__init__ b = Raise AttributeError
     ↔ b ≠ [] ∧ occurs "S" b ∧ ¬ occurs "G" b)
  ∧ ((∃ e, Bloxorz.__init__ b = Done e)
     ↔ b ≠ [] ∧ (occurs "S" b → occurs "G" b)).
Proof.
  intros Hw. destruct (decide (b = [])) as [->|Hne].
  { split; [done|]. split.
    - split; [done|]. by intros [? _].
    - split; [by intros [e ?]|]. by intros [? _]. }
  pose proof (init_outcome b w Hw Hne) as Ho.
  pose proof (first_row_with_occurs "S" b) as HS.
  pose proof (first_row_with_occurs "G" b) as HG.
  pose proof (first_row_with_some "S" b) as HS'.
  pose proof (first_row_with_some "G" b) as HG'.
  change ["S"%char] with (str "S") in *. change ["G"%char] with (str "G") in *.
  destruct (Bloxorz.first_row_with (str "S") 0 b) as [ps|],
           (Bloxorz.first_row_with (str "G") 0 b) as [pg|].
  - destruct Ho as [e He]. rewrite He. specialize (HG' _ eq_refl).
    split; [done|]. split; [split; [done|tauto]|]. split; [done|]. by eexists.
  - rewrite Ho. specialize (HS' _ eq_refl).
    assert (¬ occurs "G" b) by by apply HG.
    split; [done|]. split; [done|]. split; [by intros [e ?]|]. tauto.
  - destruct Ho as [e He]. rewrite He. specialize (HG' _ eq_refl).
    split; [done|]. split; [split; [done|tauto]|]. split; [done|]. by eexists.
  - destruct Ho as [e He]. rewrite He.
    assert (¬ occurs "S" b) by by apply HS.
    split; [done|]. split; [split; [done|tauto]|]. split; [done|]. by eexists.
Qed.

Lemma X4_init_outcome_witness :
  let b := board ["SOOG"] in
  (Bloxorz.__init__ b = Raise IndexError ↔ b = [])
  ∧ (Bloxorz.__init__ b = Raise AttributeError
     ↔ b ≠ [] ∧ occurs "S" b ∧ ¬ occurs "G" b)
  ∧ ((∃ e, Bloxorz.__init__ b = Done e)
     ↔ b ≠ [] ∧ (occurs "S" b → occurs "G" b)).
Proof.
  apply (X4_init_outcome (board ["SOOG"]) 4).
  repeat constructor.
Defined.

(** X5.  The goal the constructor binds is the first cell holding 'G' in
    row-major order; it leaves the goal unbound exactly when no cell holds
    'G'. *)
Theorem X5_init_goal b e :
  Bloxorz.__init__ b = Done e →
  match Bloxorz.goal e with
  | Some (goalX, goalY) => first_cell "G" b goalX goalY
  | None => ¬ occurs "G" b
  end.
Proof.
  intros He. destruct (init_spec b e He) as (_ & _ & _ & -> & _).
  change (str "G") with ["G"%char].
  destruct (Bloxorz.first_row_with _ 0 b) as [[res i]|] eqn:HG.
  - by apply first_row_with_first.
  - by apply first_row_with_occurs.
Qed.

Lemma X5_init_goal_witness :
  first_cell "G" (board ["SOGG"; "GGGG"]) 2 0.
Proof.
  apply (X5_init_goal (board ["SOGG"; "GGGG"])
           (Bloxorz.mk (board ["0OGG"; "GGGG"]) [] 
              (PriorityQueue.mk
                 [Node.mk (hval (2, 0) (State.mk 0 0 0)) (State.mk 0 0 0) []] 1)
              (Some (2, 0)) (Some (State.mk 0 0 0)) 4 2)).
  vm_compute. reflexivity.
Defined.

(** X6.  When some cell holds 'S', the initial state is at the first such
    cell in row-major order, lying along x when the cell to its right holds
    'S', else lying along y when the cell below holds 'S', else standing;
    the queue then holds one node, for the initial state, with the empty
    path and the heuristic as cost, and the closed set is empty.  When no
    cell holds 'S', no initial state is bound, the queue is empty and the
    map is the input. *)
Theorem X6_init_initial b e :
  Bloxorz.__init__ b = Done e →
  Bloxorz.closed e = []
  ∧ match Bloxorz.initial e with
    | Some s =>
        first_cell "S" b (State.x_cor s) (State.y_cor s)
        ∧ State.orient s
          = (if decide (cell b (State.x_cor s + 1) (State.y_cor s) = Some "S"%char)
             then 1
             else if decide (cell b (State.x_cor s) (State.y_cor s + 1)
                             = Some "S"%char)
                  then 2 else 0)
        ∧ ∃ h, Bloxorz.heuristic (Bloxorz.goal e) s = Done h
               ∧ Bloxorz.queue e = PriorityQueue.mk [Node.mk h s []] 1
    | None =>
        ¬ occurs "S" b
        ∧ Bloxorz.queue e = PriorityQueue.__init__
        ∧ Bloxorz.map e = b
    end.
Proof.
  intros He. destruct (init_spec b e He) as (Hc & _ & _ & _ & _ & _ & Hs).
  split; [done|].
  destruct (Bloxorz.first_row_with (str "S") 0 b) as [[res i]|] eqn:HS.
  2: { destruct Hs as (-> & ? & ?). split; [|done].
       by apply (first_row_with_occurs "S" b). }
  destruct Hs as (g & o & Hg & _ & Hi & Hq).
  pose proof (first_row_with_first "S" b res i HS) as Hfirst.
  destruct (first_row_with_spec _ _ _ _ _ HS) as (Hir & row & Hrow & Hfind & Hnf & _).
  rewrite Z.sub_0_r in Hrow.
  pose proof (find_range row (str "S") ltac:(done)) as Hres.
  rewrite Hfind in Hres. specialize (Hres Hnf).
  assert (Hright : cell b (res + 1) i = row !! Z.to_nat (res + 1)).
  { unfold cell. rewrite decide_True by lia. by rewrite Hrow. }
  assert (Hbelow : cell b res (i + 1)
                   = (b !! Z.to_nat (i + 1)) ≫= (.!! Z.to_nat res)).
  { unfold cell. by rewrite decide_True by lia. }
  assert (Ho : o = (if decide (cell b (res + 1) i = Some "S"%char) then 1
                    else if decide (cell b res (i + 1) = Some "S"%char)
                         then 2 else 0)).
  { rewrite Hright, Hbelow.
    destruct (init_map b e res i row He HS Hrow)
      as [(Hx & Hi' & _)|[(Hx & below & Hb & Hy & Hi' & _)|(Hx & Hy & Hi' & _)]].
    - rewrite decide_True by done. congruence.
    - rewrite decide_False by done. rewrite Hb. cbn.
      rewrite decide_True by done. congruence.
    - rewrite decide_False by done.
      destruct (b !! Z.to_nat (i + 1)) as [below|] eqn:Hb; cbn.
      + rewrite decide_False by by apply Hy. congruence.
      + rewrite decide_False by done. congruence. }
  rewrite Hi. cbn [State.x_cor State.y_cor State.orient].
  split; [done|]. split; [done|].
  exists (hval g (State.mk res i o)). rewrite Hg, heuristic_hval. by split.
Qed.

Lemma X6_init_initial_witness :
  let b := board ["OSOG"; "OSOO"] in
  let e := Bloxorz.mk (board ["O0OG"; "O0OO"]) []
             (PriorityQueue.mk
                [Node.mk (hval (3, 0) (State.mk 1 0 2)) (State.mk 1 0 2) []] 1)
             (Some (3, 0)) (Some (State.mk 1 0 2)) 4 2 in
  Bloxorz.closed e = []
  ∧ match Bloxorz.initial e with
    | Some s =>
        first_cell "S" b (State.x_cor s) (State.y_cor s)
        ∧ State.orient s
          = (if decide (cell b (State.x_cor s + 1) (State.y_cor s) = Some "S"%char)
             then 1
             else if decide (cell b (State.x_cor s) (State.y_cor s + 1)
                             = Some "S"%char)
                  then 2 else 0)
        ∧ ∃ h, Bloxorz.heuristic (Bloxorz.goal e) s = Done h
               ∧ Bloxorz.queue e = PriorityQueue.mk [Node.mk h s []] 1
    | None =>
        ¬ occurs "S" b
        ∧ Bloxorz.queue e = PriorityQueue.__init__
        ∧ Bloxorz.map e = b
    end.
Proof.
  apply (X6_init_initial (board ["OSOG"; "OSOO"])).
  vm_compute. reflexivity.
Defined.

Lemma replace_from_SS_pointwise s skip j :
  let r := Py.replace_from (str "SS") (str "00") skip s in
  r !! j = drop skip s !! j
  ∨ (drop skip s !! j = Some "S"%char ∧ r !! j = Some "0"%char).
Proof.
  cbn zeta. revert skip j. induction s as [|a s IH]; intros skip j.
  { cbn. rewrite drop_nil. by left. }
  destruct skip as [|k]; [|apply IH].
  cbn [Py.replace_from]. rewrite drop_0.
  destruct (decide (take (length (str "SS")) (a :: s) = str "SS")) as [Heq|_].
  - destruct s as [|a' s']; [done|]. cbn in Heq. injection Heq as -> ->.
    destruct j as [|[|j]]; [right; by split..|].
    change ((str "00" ++ Py.replace_from (str "SS") (str "00")
                           (length (str "SS") - 1) ("S"%char :: s')) !! S (S j))
      with (Py.replace_from (str "SS") (str "00") 1 ("S"%char :: s') !! j).
    change (("S"%char :: "S"%char :: s') !! S (S j))
      with (drop 1 ("S"%char :: s') !! j).
    apply IH.
  - destruct j as [|j]; [by left|]. cbn [lookup list_lookup].
    specialize (IH 0%nat j). by rewrite drop_0 in IH.
Qed.

Lemma replace_pointwise row old new j :
  (old = str "SS" ∧ new = str "00") ∨ (old = str "S" ∧ new = str "0") →
  Py.replace row old new !! j = row !! j
  ∨ (row !! j = Some "S"%char ∧ Py.replace row old new !! j = Some "0"%char).
Proof.
  intros [[-> ->]|[-> ->]].
  - pose proof (replace_from_SS_pointwise row 0 j) as H. by rewrite drop_0 in H.
  - change (str "S") with ["S"%char]. change (str "0") with ["0"%char].
    rewrite replace_char_lookup. destruct (row !! j) as [a|]; [|by left]. cbn.
    destruct (decide (a = "S"%char)) as [->|]; [by right|by left].
Qed.

Lemma cell_insert_pointwise m i row row' x y :
  m !! i = Some row →
  (∀ j, row' !! j = row !! j
        ∨ (row !! j = Some "S"%char ∧ row' !! j = Some "0"%char)) →
  cell (<[i := row']> m) x y = cell m x y
  ∨ (cell m x y = Some "S"%char ∧ cell (<[i := row']> m) x y = Some "0"%char).
Proof.
  intros Hrow Hp. unfold cell. destruct (decide _); [|by left].
  destruct (decide (i = Z.to_nat y)) as [->|Hne].
  - rewrite list_lookup_insert_eq by by eapply lookup_lt_Some.
    rewrite Hrow. cbn. apply Hp.
  - rewrite list_lookup_insert_ne by done. by left.
Qed.

Lemma init_map_pointwise b e x y :
  Bloxorz.__init__ b = Done e →
  cell (Bloxorz.map e) x y = cell b x y
  ∨ (cell b x y = Some "S"%char ∧ cell (Bloxorz.map e) x y = Some "0"%char).
Proof.
  intros He.
  destruct (init_spec b e He) as (_ & _ & _ & _ & _ & _ & Hs).
  destruct (Bloxorz.first_row_with (str "S") 0 b) as [[res i]|] eqn:HS.
  2: { destruct Hs as (_ & _ & ->). by left. }
  destruct (first_row_with_spec _ _ _ _ _ HS) as (_ & row & Hrow & _).
  rewrite Z.sub_0_r in Hrow.
  destruct (init_map b e res i row He HS Hrow)
    as [(_ & _ & ->)|[(_ & below & Hb & _ & _ & ->)|(_ & _ & _ & ->)]].
  - apply (cell_insert_pointwise _ _ row); [done|]. intros j. apply replace_pointwise. auto.
  - set (m1 := <[Z.to_nat i := Py.replace row (str "S") (str "0")]> b).
    assert (H1 : cell m1 x y = cell b x y
                 ∨ (cell b x y = Some "S"%char ∧ cell m1 x y = Some "0"%char)).
    { apply (cell_insert_pointwise _ _ row); [done|]. intros j. apply replace_pointwise. auto. }
    assert (Hb1 : m1 !! Z.to_nat (i + 1) = Some below).
    { unfold m1. rewrite list_lookup_insert_ne; [done|].
      apply lookup_lt_Some in Hb, Hrow.
      destruct (first_row_with_spec _ _ _ _ _ HS) as (? & _). lia. }
    destruct (cell_insert_pointwise m1 (Z.to_nat (i + 1)) below
                (Py.replace below (str "S") (str "0")) x y Hb1) as [H2|[H2 H3]].
    { intros j. apply replace_pointwise. auto. }
    + rewrite H2. done.
    + destruct H1 as [H1|[H1 H1']]; [|congruence].
      right. rewrite <- H1. done.
  - apply (cell_insert_pointwise _ _ row); [done|]. intros j. apply replace_pointwise. auto.
Qed.

(** X7.  The constructor rewrites the map only at cells that hold 'S',
    where it writes the digit '0'; every other cell keeps its character, no
    cell is added or removed, and no cell changes between safe and
    unsafe. *)
Theorem X7_init_map_cells b e x y :
  Bloxorz.__init__ b = Done e →
  (cell (Bloxorz.map e) x y = cell b x y
   ∨ (cell b x y = Some "S"%char ∧ cell (Bloxorz.map e) x y = Some "0"%char))
  ∧ safe (Bloxorz.map e) x y = safe b x y.
Proof.
  intros He. pose proof (init_map_pointwise b e x y He) as H.
  split; [done|]. unfold safe.
  destruct H as [->|[-> ->]]; done.
Qed.

Lemma X7_init_map_cells_witness :
  let b := board ["OSOG"; "OSOO"] in
  let e := Bloxorz.mk (board ["O0OG"; "O0OO"]) []
             (PriorityQueue.mk
                [Node.mk (hval (3, 0) (State.mk 1 0 2)) (State.mk 1 0 2) []] 1)
             (Some (3, 0)) (Some (State.mk 1 0 2)) 4 2 in
  (cell (Bloxorz.map e) 1 1 = cell b 1 1
   ∨ (cell b 1 1 = Some "S"%char ∧ cell (Bloxorz.map e) 1 1 = Some "0"%char))
  ∧ safe (Bloxorz.map e) 1 1 = safe b 1 1.
Proof.
  apply (X7_init_map_cells (board ["OSOG"; "OSOO"])).
  vm_compute. reflexivity.
Defined.

(** ** successors and heuristic *)

Lemma decode_code o : decode (code o) = o.
Proof. by destruct o. Qed.

Lemma cells_table_state t : cells (table_state t) = footprint t.1.1 t.1.2 t.2.
Proof. unfold cells, table_state. cbn. by rewrite decode_code. Qed.

Lemma pair_eq_lia (a b c d : Z) : a = c → b = d → (a, b) = (c, d).
Proof. by intros -> ->. Qed.

Lemma safe_footprint_step m s a s' :
  step m s a s' → ∀ c, c ∈ cells s' → safe m c.1 c.2 = true.
Proof.
  intros Hs%step_table c Hc. unfold table_move in Hs.
  destruct (table _ a _ _) as [checks target] eqn:Ht.
  destruct (forallb _ checks) eqn:Hf; [|done]. injection Hs as <-.
  rewrite cells_table_state in Hc.
  rewrite forallb_forall in Hf. apply Hf. apply list_elem_of_In in Hc.
  destruct (decode (State.orient s)), a; cbn in Ht; injection Ht as <- <-;
    cbn in Hc |- *;
    repeat (destruct Hc as [<-|Hc]; [first [by left | right; left; apply pair_eq_lia; lia | left; apply pair_eq_lia; lia]|]);
    done.
Qed.

Lemma safe_cong m x y x' y' :
  x = x' → y = y' → safe m x y = true → safe m x' y' = true.
Proof. by intros -> ->. Qed.

Lemma table_move_intro m o x y a s' :
  forallb (fun c => safe m c.1 c.2) (table o a x y).1 = true →
  table_state (table o a x y).2 = s' →
  table_move m o x y a = Some (a, s').
Proof.
  unfold table_move. destruct (table o a x y) as [checks target]. cbn.
  by intros -> ->.
Qed.

Lemma state_of_code s :
  State.orient s = 0 ∨ State.orient s = 1 ∨ State.orient s = 2 →
  ∃ o, s = State.mk (State.x_cor s) (State.y_cor s) (code o).
Proof.
  destruct s as [x y o]. cbn.
  intros [-> | [-> | ->]];
    [by exists Standing|by exists LyingAlongX|by exists LyingAlongY].
Qed.

(** X8.  Every state that [successors] returns lies on safe cells only,
    whatever the state it is asked about, and its orientation is 0, 1
    or 2. *)
Theorem X8_successor_on_safe_cells m s d a s' c :
  Bloxorz.successors m s = Done d →
  Py.dict_get d a = Done s' →
  c ∈ cells s' →
  Bloxorz.is_safe m c.1 c.2 = Done true
  ∧ (State.orient s' = 0 ∨ State.orient s' = 1 ∨ State.orient s' = 2).
Proof.
  intros Hd Hget Hc. assert (Hs : step m s a s') by by exists d.
  rewrite is_safe_done. split.
  - f_equal. by apply (safe_footprint_step m s a s').
  - by destruct (step_facts m s a s' (0, 0) Hs) as (_ & ? & _).
Qed.

Lemma X8_successor_on_safe_cells_witness :
  Bloxorz.is_safe (board ["0OOG"]) 2 0 = Done true
  ∧ (State.orient (State.mk 1 0 1) = 0 ∨ State.orient (State.mk 1 0 1) = 1
     ∨ State.orient (State.mk 1 0 1) = 2).
Proof.
  apply (X8_successor_on_safe_cells (board ["0OOG"]) (State.mk 0 0 0)
           [(R, State.mk 1 0 1)] R (State.mk 1 0 1) (2, 0)).
  - reflexivity.
  - reflexivity.
  - unfold cells. cbn. apply elem_of_cons. right. apply elem_of_cons. by left.
Defined.

(** X9.  A move can be taken back: when the cells of [state] are safe and
    its orientation is 0, 1 or 2, the state that [successors(state)] gives
    for an action has [state] as its successor for the opposite action. *)
Theorem X9_move_can_be_undone m s d a s' :
  State.orient s = 0 ∨ State.orient s = 1 ∨ State.orient s = 2 →
  (∀ c, c ∈ cells s → Bloxorz.is_safe m c.1 c.2 = Done true) →
  Bloxorz.successors m s = Done d →
  Py.dict_get d a = Done s' →
  ∃ d', Bloxorz.successors m s' = Done d'
        ∧ Py.dict_get d' (opposite a) = Done s.
Proof.
  intros Ho Hsafe Hd Hget. assert (Hs : step m s a s') by by exists d.
  apply step_table. apply step_table in Hs.
  destruct (state_of_code s Ho) as [o Hso].
  assert (Hcells : ∀ x y, (x, y) ∈ footprint (State.x_cor s) (State.y_cor s) o
                          → safe m x y = true).
  { intros x y Hxy. specialize (Hsafe (x, y)). rewrite is_safe_done in Hsafe.
    cbn in Hsafe. assert (Done (safe m x y) = Done true) as [= ->]; [|done].
    apply Hsafe. unfold cells. rewrite Hso. cbn. by rewrite decode_code. }
  destruct s as [x y os]. cbn in Hso, Hcells, Hs. injection Hso as ->.
  rewrite decode_code in Hs. unfold table_move in Hs.
  destruct (table o a x y) as [checks target] eqn:Ht.
  destruct (forallb _ checks); [|done]. injection Hs as <-.
  unfold table_state. cbn [State.x_cor State.y_cor State.orient].
  rewrite decode_code. apply table_move_intro.
  - apply forallb_forall. intros [cx cy] Hin. cbn.
    destruct o, a; cbn in Ht; injection Ht as <- <-; cbn in Hin;
      repeat (destruct Hin as [[= <- <-]|Hin];
              [first [apply (safe_cong m x y); [lia|lia|];
                      apply Hcells; apply footprint_elem; lia
                     |apply (safe_cong m (x + 1) y); [lia|lia|];
                      apply Hcells; apply footprint_elem; lia
                     |apply (safe_cong m x (y + 1)); [lia|lia|];
                      apply Hcells; apply footprint_elem; lia]|]);
      done.
  - destruct o, a; cbn in Ht; injection Ht as <- <-; unfold table_state; cbn;
      f_equal; lia.
Qed.

Lemma X9_move_can_be_undone_witness :
  ∃ d', Bloxorz.successors (board ["OOOG"]) (State.mk 1 0 1) = Done d'
        ∧ Py.dict_get d' (opposite R) = Done (State.mk 0 0 0).
Proof.
  apply (X9_move_can_be_undone (board ["OOOG"]) (State.mk 0 0 0)
           [(R, State.mk 1 0 1)] R (State.mk 1 0 1)).
  - by left.
  - intros c Hc. unfold cells in Hc. cbn in Hc.
    apply elem_of_cons in Hc as [->|Hc]; [reflexivity|].
    by apply elem_of_nil in Hc.
  - reflexivity.
  - reflexivity.
Defined.

(** X10.  A move leaves every cell the block was on: the state that
    [successors(state)] gives for an action shares no cell with [state]
    (so it is never [state] itself), when the orientation of [state] is 0,
    1 or 2. *)
Theorem X10_move_leaves_cells m s d a s' c :
  State.orient s = 0 ∨ State.orient s = 1 ∨ State.orient s = 2 →
  Bloxorz.successors m s = Done d →
  Py.dict_get d a = Done s' →
  c ∈ cells s → c ∉ cells s'.
Proof.
  intros Ho Hd Hget Hc Hc'. assert (Hs : step m s a s') by by exists d.
  apply step_table in Hs. destruct (state_of_code s Ho) as [o Hso].
  destruct s as [x y os]. cbn in Hso. injection Hso as ->.
  unfold cells in Hc. cbn in Hc, Hs. rewrite decode_code in Hc, Hs.
  unfold table_move in Hs. destruct (table o a x y) as [checks target] eqn:Ht.
  destruct (forallb _ checks); [|done]. injection Hs as <-.
  rewrite cells_table_state in Hc'. destruct c as [cx cy].
  apply footprint_elem in Hc, Hc'.
  destruct o, a; cbn in Ht; injection Ht as <- <-; cbn in Hc'; lia.
Qed.

Lemma X10_move_leaves_cells_witness :
  (0, 0) ∉ cells (State.mk 1 0 1).
Proof.
  apply (X10_move_leaves_cells (board ["OOOG"]) (State.mk 0 0 0)
           [(R, State.mk 1 0 1)] R (State.mk 1 0 1) (0, 0)).
  - by left.
  - reflexivity.
  - reflexivity.
  - unfold cells. cbn. apply elem_of_cons. by left.
Defined.


(** X11.  The heuristic is admissible: when replaying the actions [q] from
    [state] ends in a state that [is_goal] accepts, the float that
    [heuristic(state)] returns is at most the number of actions, so never
    more than the number of moves still needed; the roundings do not push
    it above two thirds of that number by more than the relative error
    2^-51. *)
Theorem X11_heuristic_admissible m goal s q t h :
  Bloxorz.replay m s q = Done t →
  Bloxorz.is_goal (Some goal) t = Done true →
  Bloxorz.heuristic (Some goal) s = Done h →
  (h <= inject_Z (Py.len q))%Q
  ∧ (h <= (2 # 3) * inject_Z (Py.len q) * (1 + (1 # 2251799813685248)))%Q.
Proof.
  intros Hr Hg Hh. rewrite heuristic_hval in Hh. injection Hh as <-.
  rewrite is_goal_done in Hg. injection Hg as Hg. apply at_goal_iff in Hg as ->.
  pose proof (replay_h3 m goal q s _ Hr) as Hle.
  assert (H0 : h3 goal (goal_state goal) = 0).
  { unfold h3, goal_state. cbn. lia. }
  rewrite H0, Z.add_0_r in Hle.
  destruct (hval_error goal s) as [_ H2]. pose proof (h3_third goal s) as H3.
  pose proof (h3_nonneg goal s) as Hn.
  rewrite Zle_Qle in Hle, Hn. rewrite inject_Z_mult in Hle.
  change (inject_Z 2) with 2%Q in Hle. change (inject_Z 0) with 0%Q in Hn.
  set (E := (h3 goal s # 3)%Q) in *. set (z := inject_Z (h3 goal s)) in *.
  set (l := inject_Z (Py.len q)) in *. split; lra.
Qed.

Lemma X11_heuristic_admissible_witness :
  let h := hval (3, 0) (State.mk 0 0 0) in
  (h <= inject_Z (Py.len [R; R]))%Q
  ∧ (h <= (2 # 3) * inject_Z (Py.len [R; R]) * (1 + (1 # 2251799813685248)))%Q.
Proof.
  apply (X11_heuristic_admissible (board ["0OOG"]) (3, 0) (State.mk 0 0 0)
           [R; R] (State.mk 3 0 0)).
  - reflexivity.
  - reflexivity.
  - reflexivity.
Defined.


(** ** solve *)



Lemma solve_closed_ok e0 init g e :
  queue_ok (Bloxorz.queue e) → Bloxorz.goal e = Some g →
  paths_ok e0 init e → closed_ok e0 init e →
  ∃ x e', Bloxorz.solve_exit e = Done (x, e')
    ∧ queue_ok (Bloxorz.queue e') ∧ paths_ok e0 init e' ∧ closed_ok e0 init e'.
Proof.
  intros Hq Hg Hp Hc.
  destruct (solve_exit_rule g (fun e => paths_ok e0 init e ∧ closed_ok e0 init e)
              (fun _ e' => paths_ok e0 init e' ∧ closed_ok e0 init e'))
    with (e := e) as (x & e' & Hrun & Hq' & _ & HQ); try done.
  - clear. intros e x q _ _ [[Hs Hp] Hc] Hpop _. split; [|done]. split; [done|].
    intros n Hn. apply Hp. apply (popped_elem _ _ _ _ Hpop). by right.
  - clear. intros e x q _ _ [[Hs Hp] Hc] Hpop _ _. split; [|done]. split; [done|].
    intros n Hn. apply Hp. apply (popped_elem _ _ _ _ Hpop). by right.
  - clear. intros e x q e2 _ Hg [[Hs Hp] [Hc Hd]] Hpop Hin Hgoal Hpush.
    assert (Hs2 : same_board e e2) by apply Hpush.
    assert (Hcl : Bloxorz.closed e2 = Bloxorz.closed e) by apply Hpush.
    assert (Hx : path_ok (Bloxorz.map e0) init x).
    { apply Hp. apply (popped_elem _ _ _ _ Hpop). by left. }
    split.
    { split.
      { apply (same_board_trans _ e); [done|].
        apply (same_board_trans _ e2); [done|apply same_board_closed_add]. }
      rewrite queue_closed_add. intros n Hn.
      apply (pushed_elem _ _ _ _ _ Hpush) in Hn as [Hn|Hn].
      + apply new_nodes_elem in Hn as (k & s' & Hk & _ & ->).
        cbn [Bloxorz.map Bloxorz.with_queue] in Hk.
        destruct Hs as (Hm & _). rewrite Hm in Hk.
        by apply path_ok_child.
      + apply Hp. apply (popped_elem _ _ _ _ Hpop). by right. }
    assert (Hin2 : Bloxorz.in_closed e2 (Node.state x) = false).
    { by rewrite (in_closed_ext e e2). }
    assert (Hadd : Bloxorz.closed (Bloxorz.closed_add e2 (Node.state x))
                   = Bloxorz.closed e ++ [Node.state x]).
    { unfold Bloxorz.closed_add. rewrite Hin2. cbn. by rewrite Hcl. }
    destruct Hs as (_ & Hg0 & _ & Hxs & Hys).
    split.
    + intros c. rewrite Hadd. intros [Hc'|Hc']%elem_of_app; [|apply list_elem_of_singleton in Hc' as ->].
      { by apply Hc. }
      split; [by exists (Node.path x)|].
      rewrite <- Hg0, Hg, is_goal_done. by f_equal.
    + intros i j a b. rewrite Hadd. intros Ha Hb Heq.
      apply lookup_app_Some in Ha as [Ha|[Hi Ha]],
            Hb as [Hb|[Hj Hb]].
      * by apply (Hd i j a b).
      * apply list_lookup_singleton_Some in Hb as [_ <-].
        apply list_elem_of_lookup_2 in Ha.
        rewrite state_eq_sym, <- Hxs, <- Hys in Heq.
        by rewrite (in_closed_false e _ a) in Heq.
      * apply list_lookup_singleton_Some in Ha as [_ <-].
        apply list_elem_of_lookup_2 in Hb.
        rewrite <- Hxs, <- Hys in Heq.
        by rewrite (in_closed_false e _ b) in Heq.
      * apply list_lookup_singleton_Some in Ha as [? _].
        apply list_lookup_singleton_Some in Hb as [? _]. lia.
  - destruct HQ as [Hp' Hc']. by exists x, e'.
Qed.

Lemma calls_closed_ok b e n :
  Bloxorz.__init__ b = Done e →
  ∃ e_n, calls n e = Done e_n
    ∧ queue_ok (Bloxorz.queue e_n)
    ∧ ((PriorityQueue.data (Bloxorz.queue e_n) = [] ∧ Bloxorz.closed e_n = [])
       ∨ ∃ g init, Bloxorz.goal e_n = Some g ∧ Bloxorz.initial e = Some init
                   ∧ paths_ok e init e_n ∧ closed_ok e init e_n).
Proof.
  intros He. destruct (init_ready b e He) as (Hq & Hcl & Hcase).
  induction n as [|n IH].
  - exists e. split; [done|]. split; [done|].
    destruct Hcase as [[_ Hd]|(g & init & Hg & Hi & Hd)]; [by left|right].
    exists g, init. split; [done|]. split; [done|]. split.
    + split; [done|].
      intros n. rewrite Hd. intros ->%list_elem_of_singleton. done.
    + split.
      * intros c. rewrite Hcl. by intros ?%elem_of_nil.
      * intros i j a b'. by rewrite Hcl, lookup_nil.
  - destruct IH as (e_n & Hcalls & Hqn & Hn). cbn [calls]. rewrite Hcalls.
    cbn [mbind run_bind].
    destruct Hn as [[Hd Hc]|(g & init & Hg & Hi & Hp & Hc)].
    + rewrite (solve_empty_queue e_n) by done. cbn. exists e_n. eauto.
    + destruct (solve_closed_ok e init g e_n) as (x & e' & Hrun & Hq' & Hp' & Hc');
        [done..|].
      rewrite (solve_of_exit _ _ _ Hrun). cbn. exists e'.
      split; [done|]. split; [done|]. right. exists g, init.
      split; [|done]. destruct Hp as [Hs _], Hp' as [Hs' _].
      destruct Hs as (_ & Hg1 & _), Hs' as (_ & Hg2 & _). congruence.
Qed.

(** X12.  After any number of calls of [solve] on a freshly constructed
    engine, every state of the closed set is reached from the initial state
    by some sequence of actions and fails the goal test, and the closed set
    holds no two entries that are equal for [State.__eq__]. *)
Theorem X12_closed_set b e n e_n :
  Bloxorz.__init__ b = Done e → calls n e = Done e_n →
  (∀ c, c ∈ Bloxorz.closed e_n →
        (∃ init q, Bloxorz.initial e = Some init
                   ∧ Bloxorz.replay (Bloxorz.map e) init q = Done c)
        ∧ Bloxorz.is_goal (Bloxorz.goal e) c = Done false)
  ∧ (∀ i j a b',
       Bloxorz.closed e_n !! i = Some a → Bloxorz.closed e_n !! j = Some b' →
       State.eq (Bloxorz.xSize e) (Bloxorz.ySize e) a b' = true → i = j).
Proof.
  intros He Hcalls.
  destruct (calls_closed_ok b e n He) as (e_n' & Hcalls' & _ & Hcase).
  assert (e_n' = e_n) as -> by congruence.
  destruct Hcase as [[_ Hc]|(g & init & _ & Hi & _ & Hc & Hd)].
  - rewrite Hc. split.
    + intros c. by intros ?%elem_of_nil.
    + intros i j a b'. by rewrite lookup_nil.
  - split; [|done]. intros c Hin. destruct (Hc c Hin) as [[q Hq] Hg].
    split; [by exists init, q|done].
Qed.

Lemma X12_closed_set_witness :
  (∀ c, c ∈ Bloxorz.closed engine_SOOG_solved →
        (∃ init q, Bloxorz.initial engine_SOOG = Some init
                   ∧ Bloxorz.replay (Bloxorz.map engine_SOOG) init q = Done c)
        ∧ Bloxorz.is_goal (Bloxorz.goal engine_SOOG) c = Done false)
  ∧ (∀ i j a b',
       Bloxorz.closed engine_SOOG_solved !! i = Some a →
       Bloxorz.closed engine_SOOG_solved !! j = Some b' →
       State.eq (Bloxorz.xSize engine_SOOG) (Bloxorz.ySize engine_SOOG) a b'
       = true → i = j).
Proof.
  apply (X12_closed_set (board ["SOOG"]) engine_SOOG 1).
  - vm_compute. reflexivity.
  - vm_compute. reflexivity.
Defined.

(** X13.  On a rectangular board, the first call of [solve] on the freshly
    constructed engine returns the empty list exactly when no sequence of
    actions leads from the initial state to a state that [is_goal] accepts
    (or no initial state is bound): on a first call the empty list always
    means that there is no solution. *)
Theorem X13_first_solve_empty_iff b w e :
  rectangular b w → Bloxorz.__init__ b = Done e →
  ∃ p e', Bloxorz.solve e = Done (p, e')
    ∧ (p = [] ↔
       ¬ ∃ init q t, Bloxorz.initial e = Some init
           ∧ Bloxorz.replay (Bloxorz.map e) init q = Done t
           ∧ Bloxorz.is_goal (Bloxorz.goal e) t = Done true).
Proof.
  intros Hb He.
  destruct (init_ready b e He) as (Hq & Hc & Hcase).
  destruct Hcase as [[Hi Hd]|(g & init & Hg & Hi & Hd)].
  { exists [], e. split; [by apply solve_empty_queue|].
    split; [|done]. intros _ (init & q & t & Hinit & _). congruence. }
  pose proof (init_board_ok b w e g init Hb He Hg Hi) as Hok.
  destruct (solve_complete e g init e) as (x & e' & Hrun & Hx); [done..| |].
  { apply init_reach_inv; [done..|]. apply Hok. }
  exists (Bloxorz.returned x), e'. split; [by apply solve_of_exit|].
  destruct x as [n|]; cbn [Bloxorz.returned].
  - rename Hx into Hpath. split.
    + intros Hnil. rewrite Hnil in Hpath. cbn in Hpath. injection Hpath as ->.
      pose proof (init_not_goal b e _ g He Hi Hg) as Hng.
      by rewrite (proj2 (at_goal_iff g (goal_state g)) eq_refl) in Hng.
    + intros Hno. destruct Hno. exists init, (Node.path n), (goal_state g).
      split; [done|]. split; [done|]. rewrite Hg, is_goal_done. f_equal.
      by apply at_goal_iff.
  - split; [|done]. intros _ (init' & q & t & Hinit & Hr & Ht).
    assert (init' = init) as -> by congruence.
    rewrite Hg, is_goal_done in Ht. injection Ht as Ht%at_goal_iff. subst t.
    by apply (Hx q).
Qed.

Lemma X13_first_solve_empty_iff_witness :
  ∃ p e', Bloxorz.solve engine_SOOG = Done (p, e')
    ∧ (p = [] ↔
       ¬ ∃ init q t, Bloxorz.initial engine_SOOG = Some init
           ∧ Bloxorz.replay (Bloxorz.map engine_SOOG) init q = Done t
           ∧ Bloxorz.is_goal (Bloxorz.goal engine_SOOG) t = Done true).
Proof.
  apply (X13_first_solve_empty_iff (board ["SOOG"]) 4 engine_SOOG).
  - repeat constructor.
  - vm_compute. reflexivity.
Defined.

(** ** print_state, print_result and the script *)

Lemma collect_seqZ {B} (f : Z → run B) (l : list B) (start : Z) :
  (∀ i b, l !! i = Some b → f (start + Z.of_nat i) = Done b) →
  Py.collect f (seqZ start (Z.of_nat (length l))) = Done l.
Proof.
  revert start. induction l as [|b l IH]; intros start Hf; [done|].
  rewrite seqZ_cons by (cbn; lia). cbn [Py.collect].
  pose proof (Hf 0%nat b eq_refl) as H0.
  replace (start + Z.of_nat 0) with start in H0 by lia.
  rewrite H0. cbn [mbind run_bind].
  replace (Z.pred (Z.of_nat (length (b :: l)))) with (Z.of_nat (length l))
    by (cbn [length]; lia).
  rewrite IH; [done|]. intros i c Hi.
  replace (Z.succ start + Z.of_nat i) with (start + Z.of_nat (S i)) by lia.
  by apply Hf.
Qed.

Lemma setitem_in_range {A} (l : list A) (i : Z) (v : A) :
  0 ≤ i < Py.len l → Py.setitem l i v = Done (<[Z.to_nat i := v]> l).
Proof.
  intros Hi. unfold Py.setitem, Py.len in *. cbv zeta.
  destruct (decide (i < 0)); [lia|]. by rewrite decide_True by lia.
Qed.

Lemma copy_map m w :
  rectangular m w →
  Py.collect (fun y =>
      Py.collect (fun x => row ← Py.index m y; Py.index row x) (Py.range w))
    (Py.range (Py.len m))
  = Done m.
Proof.
  intros Hw. unfold Py.range, Py.len. apply collect_seqZ.
  intros i row Hrow. rewrite Z.add_0_l.
  pose proof (rectangular_lookup _ _ _ _ Hw Hrow) as Hlen.
  rewrite <- Hlen. unfold Py.len. apply collect_seqZ.
  intros j c Hc. rewrite Z.add_0_l.
  rewrite index_lookup by lia. rewrite Nat2Z.id, Hrow. cbn [mbind run_bind].
  rewrite index_lookup by lia. by rewrite Nat2Z.id, Hc.
Qed.

Lemma set_cell_spec grid w x y v :
  rectangular grid w → 0 ≤ x < w → 0 ≤ y < Py.len grid →
  ∃ grid', Bloxorz.set_cell grid y x v = Done grid'
    ∧ rectangular grid' w ∧ Py.len grid' = Py.len grid
    ∧ ∀ x' y', cell grid' x' y'
               = if decide (x' = x ∧ y' = y) then Some v else cell grid x' y'.
Proof.
  intros Hw Hx Hy. unfold Bloxorz.set_cell.
  destruct (index_in_range grid y Hy) as (row & Hrow & ->). cbn [mbind run_bind].
  pose proof (rectangular_lookup _ _ _ _ Hw Hrow) as Hlen.
  rewrite setitem_in_range by lia. cbn [mbind run_bind].
  rewrite setitem_in_range by lia. eexists. split; [done|].
  split; [|split].
  - apply rectangular_insert; [done|]. unfold Py.len in *.
    by rewrite length_insert.
  - unfold Py.len. by rewrite length_insert.
  - intros x' y'. unfold cell.
    destruct (decide (0 ≤ x' ∧ 0 ≤ y')) as [[Hx' Hy']|Hn].
    2: { rewrite decide_False by lia. done. }
    destruct (decide (y' = y)) as [->|Hne].
    + rewrite list_lookup_insert_eq by (unfold Py.len in Hy; lia).
      rewrite Hrow. cbn.
      destruct (decide (x' = x)) as [->|Hnx].
      * rewrite decide_True by done.
        apply list_lookup_insert_eq. unfold Py.len in Hlen. lia.
      * rewrite decide_False by tauto.
        apply list_lookup_insert_ne. lia.
    + rewrite decide_False by tauto.
      rewrite list_lookup_insert_ne by lia. done.
Qed.

Lemma cells_code x y o : cells (State.mk x y (code o)) = footprint x y o.
Proof. unfold cells. cbn. by rewrite decode_code. Qed.

Lemma print_state_spec self g s :
  rectangular (Bloxorz.map self) (Bloxorz.xSize self) →
  Bloxorz.ySize self = Py.len (Bloxorz.map self) →
  Bloxorz.goal self = Some g →
  State.orient s = 0 ∨ State.orient s = 1 ∨ State.orient s = 2 →
  (∀ c, c ∈ cells s →
        0 ≤ c.1 < Bloxorz.xSize self ∧ 0 ≤ c.2 < Bloxorz.ySize self) →
  ∃ rows, Bloxorz.print_state self s = Done rows
    ∧ rectangular rows (Bloxorz.xSize self)
    ∧ Py.len rows = Py.len (Bloxorz.map self)
    ∧ (at_goal g s = true → rows = Bloxorz.map self)
    ∧ (at_goal g s = false →
       ∀ x y, cell rows x y
              = if decide ((x, y) ∈ cells s) then Some "S"%char
                else cell (Bloxorz.map self) x y).
Proof.
  intros Hw Hys Hg Ho Hin. unfold Bloxorz.print_state.
  rewrite Hys, copy_map by done. cbn [mbind run_bind].
  rewrite Hg, is_goal_done. cbn [mbind run_bind].
  destruct (at_goal g s) eqn:Hgoal; cbn [negb].
  { exists (Bloxorz.map self). by repeat split. }
  destruct (state_of_code s Ho) as [o Hs]. rewrite Hs in Hin |- *.
  rewrite cells_code in Hin |- *.
  cbn [State.x_cor State.y_cor State.orient].
  set (x := State.x_cor s) in *. set (y := State.y_cor s) in *.
  assert (H0 : 0 ≤ x < Bloxorz.xSize self ∧ 0 ≤ y < Bloxorz.ySize self).
  { apply (Hin (x, y)). apply footprint_elem. destruct o; auto. }
  destruct (set_cell_spec (Bloxorz.map self) (Bloxorz.xSize self) x y "S" Hw)
    as (g1 & -> & Hw1 & Hl1 & Hc1); [lia..|].
  cbn [mbind run_bind].
  destruct o; cbn [code].
  - (* standing *)
    destruct (decide (0 = 1)); [done|]. cbn [mbind run_bind].
    destruct (decide (0 = 2)); [done|].
    exists g1. split; [done|]. split; [done|]. split; [done|]. split; [done|].
    intros _ x' y'. rewrite Hc1.
    destruct (decide (x' = x ∧ y' = y)) as [Hxy|Hxy].
    + rewrite decide_True; [done|]. by apply footprint_elem.
    + rewrite decide_False; [done|]. by intros ?%footprint_elem.
  - (* lying along x *)
    destruct (decide (1 = 1)); [|done].
    assert (H1 : 0 ≤ x + 1 < Bloxorz.xSize self).
    { apply (Hin (x + 1, y)). apply footprint_elem. auto. }
    destruct (set_cell_spec g1 (Bloxorz.xSize self) (x + 1) y "S" Hw1)
      as (g2 & -> & Hw2 & Hl2 & Hc2); [lia..|].
    cbn [mbind run_bind]. destruct (decide (1 = 2)); [done|].
    exists g2. split; [done|]. split; [done|]. split; [congruence|].
    split; [done|].
    intros _ x' y'. rewrite Hc2, Hc1.
    destruct (decide ((x', y') ∈ footprint x y LyingAlongX)) as [Hf|Hf];
      rewrite footprint_elem in Hf;
      repeat destruct (decide _); try done; lia.
  - (* lying along y *)
    destruct (decide (2 = 1)); [done|]. cbn [mbind run_bind].
    destruct (decide (2 = 2)); [|done].
    assert (H1 : 0 ≤ y + 1 < Bloxorz.ySize self).
    { apply (Hin (x, y + 1)). apply footprint_elem. auto. }
    destruct (set_cell_spec g1 (Bloxorz.xSize self) x (y + 1) "S" Hw1)
      as (g2 & -> & Hw2 & Hl2 & Hc2); [lia..|].
    exists g2. split; [done|]. split; [done|]. split; [congruence|].
    split; [done|].
    intros _ x' y'. rewrite Hc2, Hc1.
    destruct (decide ((x', y') ∈ footprint x y LyingAlongY)) as [Hf|Hf];
      rewrite footprint_elem in Hf;
      repeat destruct (decide _); try done; lia.
Qed.

Lemma io_bind_print {B} (l : list line) (f : unit → io B) :
  (print l ≫= f) = (l ++ (f tt).1, (f tt).2).
Proof. done. Qed.

Lemma io_bind_silent {A B} (a : A) (f : A → io B) :
  (silent (Done a) ≫= f) = f a.
Proof. unfold silent, mbind, io_bind. cbn. by destruct (f a). Qed.

Lemma io_bind_done {A B} (out : list line) (a : A) (f : A → io B) :
  ((out, Done a) : io A) ≫= f = (out ++ (f a).1, (f a).2).
Proof. done. Qed.

Lemma state_lines_rows rows : state_lines (Row <$> rows) = [].
Proof. by induction rows. Qed.

Lemma action_lines_rows rows : action_lines (Row <$> rows) = [].
Proof. by induction rows. Qed.

Lemma row_lines_rows rows : row_lines (Row <$> rows) = rows.
Proof. induction rows as [|r rows IH]; [done|]. cbn. by f_equal. Qed.

Lemma cells_in_range m w s :
  rectangular m w →
  (∀ c, c ∈ cells s → safe m c.1 c.2 = true) →
  ∀ c, c ∈ cells s → 0 ≤ c.1 < w ∧ 0 ≤ c.2 < Py.len m.
Proof.
  intros Hw Hsafe c Hc. specialize (Hsafe c Hc). unfold safe in Hsafe.
  destruct (cell m c.1 c.2) as [ch|] eqn:Hcell; [|done].
  by apply (cell_in_range m _ _ ch).
Qed.

Lemma print_steps_spec self g p : ∀ st s t,
  rectangular (Bloxorz.map self) (Bloxorz.xSize self) →
  Bloxorz.ySize self = Py.len (Bloxorz.map self) →
  Bloxorz.goal self = Some g →
  State.orient s = 0 ∨ State.orient s = 1 ∨ State.orient s = 2 →
  (∀ c, c ∈ cells s →
        0 ≤ c.1 < Bloxorz.xSize self ∧ 0 ≤ c.2 < Bloxorz.ySize self) →
  Bloxorz.replay (Bloxorz.map self) s p = Done t →
  ∃ out, Bloxorz.print_steps self st s p = (out, Done (st + Py.len p, t))
    ∧ state_lines out = seqZ st (Py.len p)
    ∧ action_lines out = p
    ∧ Py.len (row_lines out) = Py.len p * Py.len (Bloxorz.map self)
    ∧ (State.orient t = 0 ∨ State.orient t = 1 ∨ State.orient t = 2)
    ∧ (∀ c, c ∈ cells t →
            0 ≤ c.1 < Bloxorz.xSize self ∧ 0 ≤ c.2 < Bloxorz.ySize self).
Proof.
  induction p as [|a p IH]; intros st s t Hw Hys Hg Ho Hin Hr.
  { cbn in Hr. injection Hr as <-. exists []. cbn [Bloxorz.print_steps].
    unfold Py.len. cbn. rewrite Z.add_0_r.
    split; [done|]. split; [done|]. split; [done|]. split; [done|]. by split. }
  apply replay_step in Hr as (s' & Hs & Hr).
  destruct (print_state_spec self g s Hw Hys Hg Ho Hin)
    as (rows & Hrows & _ & Hlen & _).
  assert (Ho' : State.orient s' = 0 ∨ State.orient s' = 1 ∨ State.orient s' = 2).
  { by destruct (step_facts _ _ _ _ (0, 0) Hs) as (_ & ? & _). }
  assert (Hin' : ∀ c, c ∈ cells s' →
            0 ≤ c.1 < Bloxorz.xSize self ∧ 0 ≤ c.2 < Bloxorz.ySize self).
  { rewrite Hys. apply cells_in_range; [done|].
    by apply (safe_footprint_step _ s a). }
  destruct (IH (st + 1) s' t Hw Hys Hg Ho' Hin' Hr)
    as (out & Hout & Hst & Hact & Hrl & Hot & Hint).
  destruct Hs as (d & Hd & Hget).
  cbn [Bloxorz.print_steps].
  rewrite io_bind_print, Hrows, io_bind_silent, !io_bind_print.
  rewrite Hd. cbn [mbind run_bind]. rewrite Hget, io_bind_silent, Hout.
  cbn [fst snd].
  eexists. split.
  { f_equal. f_equal. f_equal. unfold Py.len. cbn [length]. lia. }
  unfold state_lines, action_lines, row_lines in *.
  rewrite !omap_app, ?Hst, ?Hact.
  fold (state_lines (Row <$> rows)). fold (action_lines (Row <$> rows)).
  fold (row_lines (Row <$> rows)).
  rewrite state_lines_rows, action_lines_rows, row_lines_rows.
  split; [|split; [done|split; [|done]]].
  - cbn. rewrite (seqZ_cons st) by (unfold Py.len; cbn [length]; lia).
    replace (Z.succ st) with (st + 1) by lia.
    replace (Z.pred (Py.len (a :: p))) with (Py.len p); [done|].
    unfold Py.len. cbn [length]. lia.
  - unfold Py.len in *. rewrite !length_app.
    set (n := length (omap _ out)) in *.
    change (length (omap _ [StateLine st])) with 0%nat.
    change (length (omap _ [ActionLine a])) with 0%nat.
    change (length (omap _ [Blank])) with 0%nat.
    cbn [length]. lia.
Qed.

Lemma seqZ_snoc m n : 0 ≤ n → seqZ m (n + 1) = seqZ m n ++ [m + n].
Proof.
  intros Hn. rewrite seqZ_app by lia. by f_equal.
Qed.

Lemma print_result_spec self g init p t :
  rectangular (Bloxorz.map self) (Bloxorz.xSize self) →
  Bloxorz.ySize self = Py.len (Bloxorz.map self) →
  Bloxorz.goal self = Some g →
  Bloxorz.initial self = Some init →
  State.orient init = 0 ∨ State.orient init = 1 ∨ State.orient init = 2 →
  (∀ c, c ∈ cells init →
        0 ≤ c.1 < Bloxorz.xSize self ∧ 0 ≤ c.2 < Bloxorz.ySize self) →
  Bloxorz.replay (Bloxorz.map self) init p = Done t →
  ∃ out, Bloxorz.print_result self p = (out, Done tt)
    ∧ state_lines out = seqZ 1 (Py.len p + 1)
    ∧ action_lines out = p
    ∧ Py.len (row_lines out) = (Py.len p + 1) * Py.len (Bloxorz.map self)
    ∧ last out = Some (if decide (p = []) then NoSolution
                       else OptimalMoves (Py.len p)).
Proof.
  intros Hw Hys Hg Hi Ho Hin Hr.
  destruct (print_steps_spec self g p 1 init t Hw Hys Hg Ho Hin Hr)
    as (out & Hout & Hst & Hact & Hrl & Hot & Hint).
  destruct (print_state_spec self g t Hw Hys Hg Hot Hint)
    as (rows & Hrows & _ & Hlen & _).
  unfold Bloxorz.print_result. rewrite Hi, io_bind_silent, Hout, io_bind_done.
  cbn [fst snd]. rewrite io_bind_print, Hrows, io_bind_silent, io_bind_print.
  set (final := if decide (Py.len p = 0) then print [NoSolution]
                else print [OptimalMoves (Py.len p)]).
  assert (Hfinal : final = ([if decide (p = []) then NoSolution
                             else OptimalMoves (Py.len p)], Done tt)).
  { unfold final. destruct p; [done|].
    rewrite decide_False; [done|]. unfold Py.len. cbn [length]. lia. }
  rewrite Hfinal. cbn [fst snd]. eexists. split; [done|].
  unfold state_lines, action_lines, row_lines in *.
  rewrite !omap_app, ?Hst, ?Hact.
  fold (state_lines (Row <$> rows)). fold (action_lines (Row <$> rows)).
  fold (row_lines (Row <$> rows)).
  rewrite state_lines_rows, action_lines_rows, row_lines_rows.
  assert (Hp : 0 ≤ Py.len p) by (unfold Py.len; lia).
  split; [|split; [|split]].
  - rewrite seqZ_snoc by done. f_equal. by destruct (decide (p = [])).
  - destruct (decide (p = [])); cbn; apply app_nil_r.
  - unfold Py.len in *. rewrite !length_app.
    set (n := length (omap _ out)) in *.
    change (length (omap _ [StateLine _])) with 0%nat.
    destruct (decide (p = [])); cbn [length omap list_omap]; lia.
  - rewrite !app_assoc. apply last_snoc.
Qed.

Lemma init_engine_ok b w e g init :
  rectangular b w → Bloxorz.__init__ b = Done e →
  Bloxorz.goal e = Some g → Bloxorz.initial e = Some init →
  Bloxorz.xSize e = w ∧ Py.len (Bloxorz.map e) = Py.len b
  ∧ rectangular (Bloxorz.map e) (Bloxorz.xSize e)
  ∧ Bloxorz.ySize e = Py.len (Bloxorz.map e)
  ∧ (State.orient init = 0 ∨ State.orient init = 1 ∨ State.orient init = 2)
  ∧ (∀ c, c ∈ cells init →
          0 ≤ c.1 < Bloxorz.xSize e ∧ 0 ≤ c.2 < Bloxorz.ySize e).
Proof.
  intros Hb He Hg Hi.
  destruct (init_board_ok b w e g init Hb He Hg Hi) as (Hw & Hys & Hv & _).
  destruct (init_spec b e He)
    as (_ & Hys' & (row0 & Hrow0 & Hxs) & _ & Hlen & _ & Hs).
  rewrite (rectangular_lookup b w 0 row0 Hb Hrow0) in Hxs.
  assert (Hl : Py.len (Bloxorz.map e) = Py.len b) by (unfold Py.len; lia).
  split; [done|]. split; [done|]. split; [done|]. split; [done|].
  destruct Hv as (Hx & Hy & Ho). split; [done|].
  destruct (Bloxorz.first_row_with (str "S") 0 b) as [[res i]|] eqn:HS.
  2: { destruct Hs as (Hn & _). congruence. }
  destruct (first_row_with_spec _ _ _ _ _ HS) as (_ & row & Hrow & _).
  rewrite Z.sub_0_r in Hrow.
  pose proof (rectangular_lookup b w _ row Hb Hrow) as Hlrow.
  intros [cx cy] Hc. cbn [fst snd].
  destruct (init_map b e res i row He HS Hrow)
    as [(Hnext & Hinit & _)
       |[(_ & below & Hbelow & _ & Hinit & _)|(_ & _ & Hinit & _)]];
    rewrite Hinit in Hi; injection Hi as <-;
    cbn [State.x_cor State.y_cor] in Hx, Hy.
  - change 1 with (code LyingAlongX) in Hc. rewrite cells_code in Hc.
    apply footprint_elem in Hc as [Hcx ->]. split; [|done].
    apply lookup_lt_Some in Hnext. unfold Py.len in *. lia.
  - change 2 with (code LyingAlongY) in Hc. rewrite cells_code in Hc.
    apply footprint_elem in Hc as [-> Hcy]. split; [done|].
    apply lookup_lt_Some in Hbelow. unfold Py.len in *. lia.
  - change 0 with (code Standing) in Hc. rewrite cells_code in Hc.
    by apply footprint_elem in Hc as [-> ->].
Qed.

Lemma grid_ext m m' w :
  rectangular m w → rectangular m' w → Py.len m = Py.len m' →
  (∀ x y, cell m x y = cell m' x y) → m = m'.
Proof.
  intros Hw Hw' Hlen Hcell. apply list_eq. intros i.
  destruct (m !! i) as [r|] eqn:Hr, (m' !! i) as [r'|] eqn:Hr'.
  - f_equal. apply list_eq. intros j.
    specialize (Hcell (Z.of_nat j) (Z.of_nat i)). unfold cell in Hcell.
    rewrite !decide_True in Hcell by lia.
    rewrite !Nat2Z.id, Hr, Hr' in Hcell. exact Hcell.
  - apply lookup_lt_Some in Hr. apply lookup_ge_None in Hr'.
    unfold Py.len in Hlen. lia.
  - apply lookup_lt_Some in Hr'. apply lookup_ge_None in Hr.
    unfold Py.len in Hlen. lia.
  - done.
Qed.

(** X14.  On an engine whose map is rectangular with the sizes it
    records, for a state that lies within the board, [print_state] does not
    raise; it prints the map itself when the state passes the goal test,
    and otherwise the map with 'S' written over the cells of the state and
    nothing else changed. *)
Theorem X14_print_state_renders self g s :
  rectangular (Bloxorz.map self) (Bloxorz.xSize self) →
  Bloxorz.ySize self = Py.len (Bloxorz.map self) →
  Bloxorz.goal self = Some g →
  State.orient s = 0 ∨ State.orient s = 1 ∨ State.orient s = 2 →
  (∀ c, c ∈ cells s →
        0 ≤ c.1 < Bloxorz.xSize self ∧ 0 ≤ c.2 < Bloxorz.ySize self) →
  ∃ rows, Bloxorz.print_state self s = Done rows
    ∧ rectangular rows (Bloxorz.xSize self)
    ∧ Py.len rows = Py.len (Bloxorz.map self)
    ∧ (Bloxorz.is_goal (Bloxorz.goal self) s = Done true →
       rows = Bloxorz.map self)
    ∧ (Bloxorz.is_goal (Bloxorz.goal self) s = Done false →
       ∀ x y, cell rows x y
              = if decide ((x, y) ∈ cells s) then Some "S"%char
                else cell (Bloxorz.map self) x y).
Proof.
  intros Hw Hys Hg Ho Hin.
  destruct (print_state_spec self g s Hw Hys Hg Ho Hin)
    as (rows & Hrows & Hr & Hl & Ht & Hf).
  exists rows. rewrite Hg, is_goal_done.
  split; [done|]. split; [done|]. split; [done|].
  split; intros [= Hgoal]; auto.
Qed.

Lemma X14_print_state_renders_witness :
  ∃ rows, Bloxorz.print_state engine_SOOG (State.mk 1 0 1) = Done rows
    ∧ rectangular rows (Bloxorz.xSize engine_SOOG)
    ∧ Py.len rows = Py.len (Bloxorz.map engine_SOOG)
    ∧ (Bloxorz.is_goal (Bloxorz.goal engine_SOOG) (State.mk 1 0 1) = Done true →
       rows = Bloxorz.map engine_SOOG)
    ∧ (Bloxorz.is_goal (Bloxorz.goal engine_SOOG) (State.mk 1 0 1) = Done false →
       ∀ x y, cell rows x y
              = if decide ((x, y) ∈ cells (State.mk 1 0 1)) then Some "S"%char
                else cell (Bloxorz.map engine_SOOG) x y).
Proof.
  apply (X14_print_state_renders engine_SOOG (3, 0) (State.mk 1 0 1)).
  - repeat constructor.
  - reflexivity.
  - reflexivity.
  - right. by left.
  - intros c Hc. unfold cells in Hc. cbn in Hc.
    apply elem_of_cons in Hc as [->|Hc]; [cbn; lia|].
    apply elem_of_cons in Hc as [->|Hc]; [cbn; lia|].
    by apply elem_of_nil in Hc.
Defined.

(** X15.  When the cells of the input board that hold 'S' are the cells of
    the initial state, [print_state] of the initial state on the freshly
    constructed engine prints the input board again, although the
    constructor has rewritten those cells to '0' in its map. *)
Theorem X15_print_initial_state b w e init :
  rectangular b w → Bloxorz.__init__ b = Done e →
  Bloxorz.initial e = Some init →
  (∀ x y, cell b x y = Some "S"%char ↔ (x, y) ∈ cells init) →
  Bloxorz.print_state e init = Done b.
Proof.
  intros Hb He Hi Hmarks.
  destruct (init_ready b e He) as (_ & _ & [[Hn _]|(g & init' & Hg & Hi' & _)]);
    [congruence|].
  destruct (init_engine_ok b w e g init Hb He Hg Hi)
    as (Hxs & Hl & Hw & Hys & Ho & Hin).
  destruct (print_state_spec e g init Hw Hys Hg Ho Hin)
    as (rows & -> & Hr & Hlr & _ & Hf).
  f_equal. apply (grid_ext rows b w); [by rewrite <- Hxs|done|congruence|].
  intros x y. rewrite (Hf (init_not_goal b e init g He Hi Hg)).
  destruct (decide ((x, y) ∈ cells init)) as [Hc|Hc].
  - symmetry. by apply Hmarks.
  - destruct (init_map_pointwise b e x y He) as [->|[Hs _]]; [done|].
    by apply Hmarks in Hs.
Qed.

Lemma X15_print_initial_state_witness :
  Bloxorz.print_state engine_SOOG (State.mk 0 0 0) = Done (board ["SOOG"]).
Proof.
  apply (X15_print_initial_state (board ["SOOG"]) 4 engine_SOOG (State.mk 0 0 0)).
  - repeat constructor.
  - vm_compute. reflexivity.
  - reflexivity.
  - intros x y. unfold cells. cbn [State.x_cor State.y_cor State.orient].
    change 0 with (code Standing) at 3. rewrite decode_code.
    rewrite footprint_elem, cell_lookup. split.
    + intros (Hx & Hy & row & Hrow & Hc).
      destruct (Z.to_nat y) as [|?] eqn:Ey; [|done].
      injection Hrow as <-.
      destruct (Z.to_nat x) as [|[|[|[|?]]]] eqn:Ex; try done. lia.
    + intros [-> ->]. split; [lia|]. split; [lia|]. by eexists.
Defined.

Lemma solve_result_replays b e n e_n p e' init :
  Bloxorz.__init__ b = Done e → Bloxorz.initial e = Some init →
  calls n e = Done e_n → Bloxorz.solve e_n = Done (p, e') →
  same_board e e' ∧ ∃ t, Bloxorz.replay (Bloxorz.map e) init p = Done t.
Proof.
  intros He Hi Hcalls Hsolve.
  pose proof (calls_same_board _ _ _ Hcalls) as Hs.
  pose proof (solve_same_board _ _ _ Hsolve) as Hs'.
  split; [by apply (same_board_trans _ e_n)|].
  destruct (calls_sound b e n He) as (e_n' & Hcalls' & Hq & Hcase).
  assert (e_n' = e_n) as -> by congruence.
  destruct Hcase as [Hd|(g & init' & Hg & Hi' & Hp)].
  { rewrite (solve_empty_queue e_n) in Hsolve by done.
    injection Hsolve as <- <-. by exists init. }
  assert (init' = init) as -> by congruence.
  destruct (solve_sound e init g e_n) as (x & e'' & Hrun & _ & _ & Hx); [done..|].
  rewrite (solve_of_exit _ _ _ Hrun) in Hsolve. injection Hsolve as <- <-.
  destruct x as [node|]; cbn [Bloxorz.returned].
  - destruct Hx as [Hpath _]. by exists (Node.state node).
  - by exists init.
Qed.

Lemma print_result_after_solve b w e n e_n p e' init :
  rectangular b w → Bloxorz.__init__ b = Done e →
  Bloxorz.initial e = Some init →
  calls n e = Done e_n → Bloxorz.solve e_n = Done (p, e') →
  ∃ out, Bloxorz.print_result e' p = (out, Done tt)
    ∧ state_lines out = seqZ 1 (Py.len p + 1)
    ∧ action_lines out = p
    ∧ Py.len (row_lines out) = (Py.len p + 1) * Py.len b
    ∧ last out = Some (if decide (p = []) then NoSolution
                       else OptimalMoves (Py.len p)).
Proof.
  intros Hb He Hi Hcalls Hsolve.
  destruct (init_ready b e He) as (_ & _ & [[Hn _]|(g & init' & Hg & Hi' & _)]);
    [congruence|].
  destruct (init_engine_ok b w e g init Hb He Hg Hi)
    as (Hxs & Hl & Hw & Hys & Ho & Hin).
  destruct (solve_result_replays b e n e_n p e' init He Hi Hcalls Hsolve)
    as ((Hm & Hg' & Hi'' & Hxs' & Hys') & t & Hr).
  rewrite <- Hl, <- Hm.
  apply (print_result_spec e' g init p t).
  - by rewrite Hm, Hxs'.
  - by rewrite Hm, Hys'.
  - congruence.
  - congruence.
  - done.
  - by rewrite Hxs', Hys'.
  - by rewrite Hm.
Qed.



Lemma main_unfold b e p e' :
  Bloxorz.__init__ b = Done e → Bloxorz.solve e = Done (p, e') →
  main b = Bloxorz.print_result e' p.
Proof.
  intros He Hs. unfold main. rewrite He, io_bind_silent.
  by rewrite Hs, io_bind_silent.
Qed.

(** X17.  The script on a rectangular board: it ends with IndexError and
    prints nothing for the board without rows; it ends with AttributeError
    and prints nothing when the board has rows but no 'S' or no 'G'; and
    when the board holds both, it runs to the end, prints as actions the
    list that [solve] returns, and ends with the line "There is no
    solution" when that list is empty and with the number of moves
    otherwise. *)
Theorem X17_main_outcome b w :
  rectangular b w →
  (b = [] → main b = ([], Raise IndexError))
  ∧ (b ≠ [] → ¬ (occurs "S" b ∧ occurs "G" b) →
     main b = ([], Raise AttributeError))
  ∧ (occurs "S" b → occurs "G" b →
     ∃ out p, result_of b = Done p
       ∧ main b = (out, Done tt)
       ∧ action_lines out = p
       ∧ last out = Some (if decide (p = []) then NoSolution
                          else OptimalMoves (Py.len p))).
Proof.
  intros Hb. split; [by intros ->|].
  pose proof (first_row_with_occurs "S" b) as HS.
  pose proof (first_row_with_occurs "G" b) as HG.
  pose proof (first_row_with_some "S" b) as HS'.
  pose proof (first_row_with_some "G" b) as HG'.
  change ["S"%char] with (str "S") in *. change ["G"%char] with (str "G") in *.
  split.
  - intros Hne Hno. pose proof (init_outcome b w Hb Hne) as Ho.
    destruct (Bloxorz.first_row_with (str "S") 0 b) as [ps|] eqn:ES.
    + destruct (Bloxorz.first_row_with (str "G") 0 b) as [pg|] eqn:EG.
      { destruct Hno. split; [by apply (HS' ps)|by apply (HG' pg)]. }
      unfold main. by rewrite Ho.
    + assert (∃ e, Bloxorz.__init__ b = Done e) as [e He].
      { by destruct (Bloxorz.first_row_with (str "G") 0 b). }
      destruct (init_spec b e He) as (_ & _ & _ & _ & _ & _ & Hs).
      rewrite ES in Hs. destruct Hs as (Hi & Hq & _).
      rewrite (main_unfold b e [] e He).
      * unfold Bloxorz.print_result. by rewrite Hi.
      * apply solve_empty_queue; by rewrite Hq.
  - intros HoS HoG.
    assert (Hne : b ≠ []).
    { intros ->. destruct HoS as (x & y & Hc). unfold cell in Hc.
      destruct (decide _); [|done]. by rewrite lookup_nil in Hc. }
    pose proof (init_outcome b w Hb Hne) as Ho.
    destruct (Bloxorz.first_row_with (str "S") 0 b) as [ps|] eqn:ES.
    2: { by destruct (proj1 HS eq_refl). }
    destruct (Bloxorz.first_row_with (str "G") 0 b) as [pg|] eqn:EG.
    2: { by destruct (proj1 HG eq_refl). }
    destruct Ho as [e He].
    destruct (init_spec b e He) as (_ & _ & _ & _ & _ & _ & Hs).
    rewrite ES in Hs. destruct ps as [res i].
    destruct Hs as (g & o & Hg & _ & Hi & Hq).
    destruct (solve_total e g) as (x & e' & Hrun & _); [by rewrite Hq|done|].
    pose proof (solve_of_exit _ _ _ Hrun) as Hsolve.
    destruct (print_result_after_solve b w e 0 e _ e' _ Hb He Hi eq_refl Hsolve)
      as (out & Hout & _ & Hact & _ & Hlast).
    exists out, (Bloxorz.returned x).
    split.
    { unfold result_of. rewrite He. cbn [mbind run_bind]. by rewrite Hsolve. }
    split; [by rewrite (main_unfold b e _ e' He Hsolve)|]. by split.
Qed.

Lemma X17_main_outcome_witness :
  let b := board ["SOOG"] in
  (b = [] → main b = ([], Raise IndexError))
  ∧ (b ≠ [] → ¬ (occurs "S" b ∧ occurs "G" b) →
     main b = ([], Raise AttributeError))
  ∧ (occurs "S" b → occurs "G" b →
     ∃ out p, result_of b = Done p
       ∧ main b = (out, Done tt)
       ∧ action_lines out = p
       ∧ last out = Some (if decide (p = []) then NoSolution
                          else OptimalMoves (Py.len p))).
Proof.
  apply (X17_main_outcome (board ["SOOG"]) 4).
  repeat constructor.
Defined.

(** ** Reading the board *)

Lemma newline_isspace : Py.isspace "010"%char = true.
Proof. reflexivity. Qed.

Lemma readline_row r rest :
  no_space r → Py.readline (r ++ "010"%char :: rest) = (r ++ ["010"%char], rest).
Proof.
  induction 1 as [|c r Hc _ IH]; cbn [Py.readline app].
  - by rewrite decide_True.
  - rewrite decide_False; [by rewrite IH|].
    intros ->. by rewrite newline_isspace in Hc.
Qed.

Lemma readline_last r :
  no_space r → Py.readline r = (r, []).
Proof.
  induction 1 as [|c r Hc _ IH]; cbn [Py.readline]; [done|].
  rewrite decide_False; [by rewrite IH|].
  intros ->. by rewrite newline_isspace in Hc.
Qed.

Lemma lstrip_no_space r s : no_space r → r ≠ [] → Py.lstrip (r ++ s) = r ++ s.
Proof. intros Hr Hne. destruct Hr as [|c r Hc _]; [done|]. cbn. by rewrite Hc. Qed.

Lemma strip_no_space r : no_space r → Py.strip r = r.
Proof.
  intros Hr. unfold Py.strip.
  destruct (decide (r = [])) as [->|Hne]; [done|].
  rewrite <- (app_nil_r r) at 1. rewrite lstrip_no_space, app_nil_r by done.
  rewrite <- (app_nil_r (reverse r)). rewrite lstrip_no_space.
  - by rewrite app_nil_r, reverse_involutive.
  - unfold no_space in *. by apply Forall_reverse.
  - intros H. apply (f_equal reverse) in H.
    by rewrite reverse_involutive in H.
Qed.

Lemma strip_row r : no_space r → Py.strip (r ++ ["010"%char]) = r.
Proof.
  intros Hr. unfold Py.strip.
  destruct (decide (r = [])) as [->|Hne]; [done|].
  rewrite lstrip_no_space by done. rewrite reverse_app. cbn [reverse rev_append app].
  change (reverse ["010"%char]) with ["010"%char]. cbn [app Py.lstrip].
  rewrite newline_isspace. rewrite <- (app_nil_r (reverse r)).
  rewrite lstrip_no_space.
  - by rewrite app_nil_r, reverse_involutive.
  - unfold no_space in *. by apply Forall_reverse.
  - intros H. apply (f_equal reverse) in H.
    by rewrite reverse_involutive in H.
Qed.

Lemma read_loop_unlines rows : ∀ fuel acc,
  Forall no_space rows → (length (unlines rows) < fuel)%nat →
  read_loop fuel (unlines rows) acc = acc ++ rows.
Proof.
  induction rows as [|r rows IH]; intros fuel acc Hrows Hfuel.
  { destruct fuel; [lia|]. cbn. by rewrite app_nil_r. }
  apply Forall_cons in Hrows as [Hr Hrows].
  destruct fuel as [|fuel]; [lia|]. cbn [read_loop].
  change (unlines (r :: rows)) with ((r ++ ["010"%char]) ++ unlines rows) in *.
  rewrite <- app_assoc. cbn [app]. rewrite readline_row by done.
  rewrite decide_False by by destruct r.
  rewrite strip_row by done. rewrite IH; [by rewrite <- app_assoc|done|].
  rewrite !length_app in Hfuel. cbn [length] in Hfuel. lia.
Qed.

Lemma read_loop_unlines_last rows r : ∀ fuel acc,
  Forall no_space rows → no_space r → r ≠ [] →
  (length (unlines rows ++ r) < fuel)%nat →
  read_loop fuel (unlines rows ++ r) acc = acc ++ rows ++ [r].
Proof.
  induction rows as [|r' rows IH]; intros fuel acc Hrows Hr Hne Hfuel.
  { destruct fuel as [|[|fuel]]; [lia|destruct r; [done|cbn in Hfuel; lia]|].
    cbn [unlines fmap list_fmap mjoin list_join app read_loop].
    rewrite readline_last by done. rewrite decide_False by done.
    rewrite strip_no_space by done. cbn [Py.readline].
    by rewrite decide_True. }
  apply Forall_cons in Hrows as [Hr' Hrows].
  destruct fuel as [|fuel]; [lia|]. cbn [read_loop].
  change (unlines (r' :: rows)) with ((r' ++ ["010"%char]) ++ unlines rows) in *.
  rewrite <- !app_assoc. cbn [app]. rewrite readline_row by done.
  rewrite decide_False by by destruct r'.
  rewrite strip_row by done. rewrite IH; [by rewrite <- app_assoc|done..|].
  rewrite !length_app in Hfuel. rewrite length_app. cbn [length] in Hfuel. lia.
Qed.

(** X18.  Reading gives back the rows of the file: when no character of
    the rows is whitespace, the loop of the script reads the rows
    themselves from the text that ends each row with a newline, and also
    from the text whose last row is not empty and lacks the newline. *)
Theorem X18_read_board_rows rows :
  Forall no_space rows →
  read_board (unlines rows) = rows
  ∧ ∀ r, no_space r → r ≠ [] → read_board (unlines rows ++ r) = rows ++ [r].
Proof.
  intros Hrows. unfold read_board. split.
  - by rewrite read_loop_unlines; [|done|lia].
  - intros r Hr Hne. by rewrite read_loop_unlines_last; [|done..|lia].
Qed.

Lemma X18_read_board_rows_witness :
  read_board (unlines (board ["SOOG"; "OOOO"])) = board ["SOOG"; "OOOO"]
  ∧ ∀ r, no_space r → r ≠ [] →
         read_board (unlines (board ["SOOG"; "OOOO"]) ++ r)
         = board ["SOOG"; "OOOO"] ++ [r].
Proof.
  apply (X18_read_board_rows (board ["SOOG"; "OOOO"])).
  repeat constructor.
Defined.

Lemma lstrip_head s c : head (Py.lstrip s) = Some c → Py.isspace c = false.
Proof.
  induction s as [|a s IH]; [done|]. cbn [Py.lstrip].
  destruct (Py.isspace a) eqn:Ha; [done|]. by intros [= <-].
Qed.

Lemma lstrip_drop s : ∃ k, Py.lstrip s = drop k s.
Proof.
  induction s as [|a s [k IH]]; [by exists 0%nat|]. cbn [Py.lstrip].
  destruct (Py.isspace a); [by exists (S k)|by exists 0%nat].
Qed.

Lemma strip_ends s :
  (∀ c, head (Py.strip s) = Some c → Py.isspace c = false)
  ∧ (∀ c, last (Py.strip s) = Some c → Py.isspace c = false).
Proof.
  unfold Py.strip. split; intros c.
  - destruct (lstrip_drop (reverse (Py.lstrip s))) as [k ->].
    rewrite drop_reverse, reverse_involutive.
    destruct (length (Py.lstrip s) - k)%nat as [|n]; [by rewrite take_0|].
    intros Hh. apply (lstrip_head s).
    by destruct (Py.lstrip s).
  - rewrite last_reverse. apply lstrip_head.
Qed.

Lemma read_loop_elem fuel : ∀ content acc r,
  r ∈ read_loop fuel content acc → r ∈ acc ∨ ∃ line, r = Py.strip line.
Proof.
  induction fuel as [|fuel IH]; intros content acc r; cbn [read_loop]; [auto|].
  destruct (Py.readline content) as [line rest].
  destruct (decide (line = [])); [auto|].
  intros [[Hr|Hr]%elem_of_app|Hr]%IH; [auto| |auto].
  apply list_elem_of_singleton in Hr as ->. right. by exists line.
Qed.

(** X19.  No row that the script reads begins or ends with a whitespace
    character: [strip()] removes them, so a board line written with
    leading blanks is read without them. *)
Theorem X19_rows_are_stripped content row :
  row ∈ read_board content →
  (∀ c, head row = Some c → Py.isspace c = false)
  ∧ (∀ c, last row = Some c → Py.isspace c = false).
Proof.
  intros [Hr|[line ->]]%read_loop_elem.
  - by apply elem_of_nil in Hr.
  - apply strip_ends.
Qed.

Lemma X19_rows_are_stripped_witness :
  (∀ c, head (str "SO") = Some c → Py.isspace c = false)
  ∧ (∀ c, last (str "SO") = Some c → Py.isspace c = false).
Proof.
  apply (X19_rows_are_stripped (" "%char :: str "SO " ++ ["010"%char])).
  vm_compute. apply elem_of_cons. by left.
Defined.

Lemma print_steps_status self g p : ∀ st s,
  rectangular (Bloxorz.map self) (Bloxorz.xSize self) →
  Bloxorz.ySize self = Py.len (Bloxorz.map self) →
  Bloxorz.goal self = Some g →
  State.orient s = 0 ∨ State.orient s = 1 ∨ State.orient s = 2 →
  (∀ c, c ∈ cells s →
        0 ≤ c.1 < Bloxorz.xSize self ∧ 0 ≤ c.2 < Bloxorz.ySize self) →
  match Bloxorz.replay (Bloxorz.map self) s p with
  | Done t => True
  | _ => ∃ out, Bloxorz.print_steps self st s p = (out, Raise KeyError)
                ∧ (length (state_lines out) ≤ length p)%nat
  end.
Proof.
  induction p as [|a p IH]; intros st s Hw Hys Hg Ho Hin; [done|].
  rewrite replay_cons.
  destruct (print_state_spec self g s Hw Hys Hg Ho Hin)
    as (rows & Hrows & _).
  cbn [Bloxorz.print_steps].
  rewrite io_bind_print, Hrows, io_bind_silent, !io_bind_print.
  rewrite successors_done. cbn [mbind run_bind].
  destruct (Py.dict_get (moves (Bloxorz.map self) s) a) as [s'| err |] eqn:Hget.
  - assert (Hs : step (Bloxorz.map self) s a s').
    { exists (moves (Bloxorz.map self) s). by rewrite successors_done. }
    assert (Ho' : State.orient s' = 0 ∨ State.orient s' = 1 ∨ State.orient s' = 2).
    { by destruct (step_facts _ _ _ _ (0, 0) Hs) as (_ & ? & _). }
    assert (Hin' : ∀ c, c ∈ cells s' →
              0 ≤ c.1 < Bloxorz.xSize self ∧ 0 ≤ c.2 < Bloxorz.ySize self).
    { rewrite Hys. apply cells_in_range; [done|].
      by apply (safe_footprint_step _ s a). }
    specialize (IH (st + 1) s' Hw Hys Hg Ho' Hin').
    rewrite io_bind_silent.
    destruct (Bloxorz.replay (Bloxorz.map self) s' p) as [t| err |]; [done|..];
      destruct IH as (out & -> & Hlen).
    all: cbn [fst snd mbind io_bind]; eexists; (split; [done|]).
    all: unfold state_lines in *; rewrite !omap_app, !length_app.
    all: fold (state_lines (Row <$> rows)); rewrite state_lines_rows.
    all: cbn [omap list_omap length]; lia.
  - rewrite moves_get in Hget.
    destruct (table_move _ _ _ _ a); [done|]. injection Hget as <-.
    cbn [fst snd silent mbind io_bind]. eexists. split; [done|].
    unfold state_lines. rewrite !omap_app, !length_app.
    fold (state_lines (Row <$> rows)). rewrite state_lines_rows.
    cbn [omap list_omap length]. lia.
  - rewrite moves_get in Hget. by destruct (table_move _ _ _ _ a).
Qed.

(** X20.  On the engine constructed from a rectangular board with an 'S',
    [print_result] can be given any list of actions: it runs to the end
    when each action in turn is a key of [successors] of the state reached
    so far, and it raises KeyError otherwise, whatever it has printed
    before; no other exception leaves it. *)
Theorem X20_print_result_any_list b w e init p :
  rectangular b w → Bloxorz.__init__ b = Done e →
  Bloxorz.initial e = Some init →
  ∃ out, Bloxorz.print_result e p
         = (out, match Bloxorz.replay (Bloxorz.map e) init p with
                 | Done _ => Done tt
                 | _ => Raise KeyError
                 end).
Proof.
  intros Hb He Hi.
  destruct (init_ready b e He) as (_ & _ & [[Hn _]|(g & init' & Hg & Hi' & _)]);
    [congruence|].
  destruct (init_engine_ok b w e g init Hb He Hg Hi)
    as (Hxs & Hl & Hw & Hys & Ho & Hin).
  pose proof (print_steps_status e g p 1 init Hw Hys Hg Ho Hin) as Hbad.
  destruct (Bloxorz.replay (Bloxorz.map e) init p) as [t| err |] eqn:Hr.
  - destruct (print_result_spec e g init p t Hw Hys Hg Hi Ho Hin Hr)
      as (out & Hout & _). by exists out.
  - destruct Hbad as (out & Hout & _). exists out.
    unfold Bloxorz.print_result. by rewrite Hi, io_bind_silent, Hout.
  - destruct Hbad as (out & Hout & _). exists out.
    unfold Bloxorz.print_result. by rewrite Hi, io_bind_silent, Hout.
Qed.

Lemma X20_print_result_any_list_witness :
  ∃ out, Bloxorz.print_result engine_SOOG [R; U]
         = (out, match Bloxorz.replay (Bloxorz.map engine_SOOG)
                         (State.mk 0 0 0) [R; U] with
                 | Done _ => Done tt
                 | _ => Raise KeyError
                 end).
Proof.
  apply (X20_print_result_any_list (board ["SOOG"]) 4 engine_SOOG (State.mk 0 0 0)).
  - repeat constructor.
  - vm_compute. reflexivity.
  - reflexivity.
Defined.
